(** * Lucky: the offline mastering chain of AudioMasteringApp

    A shallow embedding of the audio engine of the mastering component
    (preset catalogue, preset-to-DSP mapping, WebAudio graph construction,
    loudness and true-peak metering, the two-pass trim protocol and the WAV
    writer) together with the properties its design document states.  The
    second part of the properties covers more of the code: the decibel
    helpers, the meters under gain, the wired graph as a whole, the MP3
    exporter, the clock and the render requests of the component, and the
    in-memory track store of the server.

    JavaScript numbers are read as real numbers ([R]): every statement below
    is about the arithmetic the program denotes, not about binary64 rounding.
    The one non-finite value the engine produces on purpose, the [-Infinity]
    of an empty loudness measurement, is kept as a value of its own
    ([xnum]).  Integers written into the WAV container are [Z] with the
    wrap-around of their field width written out. *)

From Stdlib Require Import Reals Lra ZArith List Lia String Ascii Bool Arith.
From Stdlib Require Import DecimalString.
From Equations Require Import Equations.
Import ListNotations.

Local Open Scope R_scope.

(* ================================================================= *)
(** ** Utility *)

(** [Math.pow(10, x)] and [Math.log10]. *)
Definition pow10 (x : R) : R := exp (x * ln 10).
Definition log10 (x : R) : R := ln x / ln 10.

Definition dbToLin (db : R) : R := pow10 (db / 20).
Definition linToDb (lin : R) : R := 20 * log10 (Rmax 1e-12 lin).
Definition clamp (v min max : R) : R := Rmax min (Rmin max v).

(* ================================================================= *)
(** ** Preset catalogue *)

Inductive PresetKey : Type :=
  | deharsh | mudremover | basstamer | vintage | modern | lofi | neosoul
  | festival | focus | immersive | wide | vocalforward | smoothmids
  | dynamic | maximpact | bigcappo.

Definition all_presets : list PresetKey :=
  [deharsh; mudremover; basstamer; vintage; modern; lofi; neosoul; festival;
   focus; immersive; wide; vocalforward; smoothmids; dynamic; maximpact;
   bigcappo].

Record Settings : Type := mkSettings {
  bass : R;
  mid : R;
  high : R;
  compression : R;
  loudness : R;
  s_special : option string
}.

(** [presets[key].settings]; the display fields (name, intent, description)
    play no part in the engine. *)
Definition presets (key : PresetKey) : Settings :=
  match key with
  | deharsh      => mkSettings 0 (-1) (-3) 4 (-9) None
  | mudremover   => mkSettings (-2) 2 1 2 (-9) None
  | basstamer    => mkSettings 4 0 0 6 (-9) None
  | vintage      => mkSettings 3 1 (-2) 3 (-9) None
  | modern       => mkSettings 1 0 4 3 (-9) None
  | lofi         => mkSettings 2 (-2) (-4) 5 (-10) None
  | neosoul      => mkSettings 2 3 1 2 (-9) None
  | festival     => mkSettings 5 2 3 7 (-8.5) None
  | focus        => mkSettings 1 2 0 4 (-9) None
  | immersive    => mkSettings 0 1 3 2 (-9) None
  | wide         => mkSettings (-1) 0 4 2 (-9) None
  | vocalforward => mkSettings 1 5 2 4 (-9) None
  | smoothmids   => mkSettings 1 (-2) 1 3 (-9) None
  | dynamic      => mkSettings 0 1 2 1.5 (-9.5) None
  | maximpact    => mkSettings 4 3 3 6 (-8.5) None
  | bigcappo     => mkSettings 3 4 1 3 (-9) (Some "bigcappo"%string)
  end.

(* ================================================================= *)
(** ** DSP types *)

Inductive HpfOrder : Type := order1 | order2.

Inductive EQNodeSpec : Type :=
  | EQ_hpf (freq : R) (order : option HpfOrder) (q : option R)
  | EQ_lowshelf (freq gainDb : R) (q : option R)
  | EQ_highshelf (freq gainDb : R) (q : option R)
  | EQ_bell (freq gainDb q : R).

Record MultibandBandSpec : Type := mkBand {
  ratio : R;
  thresholdDb : R;
  kneeDb : R;
  attackSec : R;
  releaseSec : R
}.

Record MultibandSpec : Type := mkMultiband {
  xoversHz : R * R * R * R;
  bands : MultibandBandSpec * MultibandBandSpec * MultibandBandSpec
          * MultibandBandSpec * MultibandBandSpec
}.

Record BusCompSpec : Type := mkBusComp {
  enabled : bool;
  bc_ratio : R;
  bc_thresholdDb : R;
  bc_kneeDb : R;
  bc_attackSec : R;
  bc_releaseSec : R;
  sidechainHpfHz : option R
}.

Record WidthHighOnly : Type := mkWidthHigh { wh_freq : R; wh_width : R }.

Record StereoSpec : Type := mkStereo {
  monoBelowHz : option R;
  overallWidth : option R;
  widthHighOnly : option WidthHighOnly
}.

Record LimiterSpec : Type := mkLimiter {
  lim_thresholdDb : R;
  lim_ratio : R;
  lim_kneeDb : R;
  lim_attackSec : R;
  lim_releaseSec : R
}.

Record TrimClamp : Type := mkTrimClamp { tc_min : R; tc_max : R }.

Record OutputSpec : Type := mkOutput {
  targetIntegratedLUFS : R;
  ceilingDbFS : R;
  limiter : LimiterSpec;
  trimClampDb : TrimClamp
}.

(** The field [eq] of the source is [eq_] here ([eq] is Rocq's equality). *)
Record PresetDSP : Type := mkDSP {
  eq_ : list EQNodeSpec;
  busComp : option BusCompSpec;
  multiband : MultibandSpec;
  stereo : StereoSpec;
  output : OutputSpec;
  special : option string
}.

(** [Partial<PresetDSP>]: every field may be left undefined. *)
Record PartialPresetDSP : Type := mkPartial {
  p_eq : option (list EQNodeSpec);
  p_busComp : option BusCompSpec;
  p_multiband : option MultibandSpec;
  p_stereo : option StereoSpec;
  p_output : option OutputSpec;
  p_special : option string
}.

Definition UNIVERSAL_OUTPUT : OutputSpec :=
  mkOutput (-14.0) (-0.5) (mkLimiter (-7.0) 20 0 0.001 0.10)
           (mkTrimClamp (-24) 12).

Definition MB_XOVERS : R * R * R * R := (120, 400, 2500, 6000).

(** [{ ...UNIVERSAL_OUTPUT, limiter: { ...UNIVERSAL_OUTPUT.limiter, thresholdDb: t } }] *)
Definition with_limiter_threshold (o : OutputSpec) (t : R) : OutputSpec :=
  mkOutput (targetIntegratedLUFS o) (ceilingDbFS o)
           (mkLimiter t (lim_ratio (limiter o)) (lim_kneeDb (limiter o))
                      (lim_attackSec (limiter o)) (lim_releaseSec (limiter o)))
           (trimClampDb o).

(** The hand-authored presets. *)
Definition EXACT_PRESETS (key : PresetKey) : option PartialPresetDSP :=
  match key with
  | smoothmids => Some (mkPartial
      (Some [ EQ_hpf 40 (Some order2) (Some 0.707);
              EQ_bell 250 (-1.5) 1.5;
              EQ_highshelf 4000 1.0 (Some 0.7) ])
      None
      (Some (mkMultiband MB_XOVERS
        ( mkBand 2.0 (-24) 3 0.025 0.12,
          mkBand 2.0 (-22) 3 0.015 0.11,
          mkBand 1.6 (-20) 3 0.010 0.10,
          mkBand 1.5 (-18) 3 0.005 0.08,
          mkBand 1.4 (-18) 3 0.002 0.06 )))
      (Some (mkStereo (Some 120) None (Some (mkWidthHigh 150 110))))
      (Some UNIVERSAL_OUTPUT)
      None)
  | dynamic => Some (mkPartial
      (Some [ EQ_hpf 35 (Some order2) (Some 0.707);
              EQ_highshelf 10000 1.5 (Some 0.7) ])
      None
      (Some (mkMultiband MB_XOVERS
        ( mkBand 3.0 (-26) 3 0.025 0.12,
          mkBand 2.0 (-22) 3 0.015 0.11,
          mkBand 1.6 (-20) 3 0.010 0.10,
          mkBand 1.5 (-18) 3 0.005 0.08,
          mkBand 1.4 (-18) 3 0.002 0.06 )))
      (Some (mkStereo (Some 120) (Some 115) None))
      (Some (with_limiter_threshold UNIVERSAL_OUTPUT (-7)))
      None)
  | maximpact => Some (mkPartial
      (Some [ EQ_lowshelf 60 1.0 (Some 1.0);
              EQ_bell 350 (-2.0) 1.8;
              EQ_bell 8000 0.5 1.0 ])
      (Some (mkBusComp true 4.0 (-18) 6 0.03 0.10 (Some 100)))
      (Some (mkMultiband MB_XOVERS
        ( mkBand 3.5 (-26) 3 0.025 0.12,
          mkBand 2.5 (-23) 3 0.015 0.11,
          mkBand 1.8 (-20) 3 0.010 0.10,
          mkBand 1.6 (-18) 3 0.005 0.08,
          mkBand 1.4 (-18) 3 0.002 0.06 )))
      (Some (mkStereo (Some 120) None (Some (mkWidthHigh 4000 125))))
      (Some (with_limiter_threshold UNIVERSAL_OUTPUT (-8)))
      None)
  | modern => Some (mkPartial
      (Some [ EQ_bell 300 (-1.5) 2.0;
              EQ_highshelf 12000 2.0 (Some 0.7) ])
      None
      (Some (mkMultiband MB_XOVERS
        ( mkBand 2.5 (-25) 3 0.025 0.12,
          mkBand 2.0 (-22) 3 0.015 0.11,
          mkBand 1.5 (-19) 3 0.010 0.10,
          mkBand 1.4 (-18) 3 0.005 0.08,
          mkBand 1.3 (-18) 3 0.002 0.06 )))
      (Some (mkStereo (Some 120) None (Some (mkWidthHigh 200 120))))
      (Some (with_limiter_threshold UNIVERSAL_OUTPUT (-7)))
      None)
  | festival => Some (mkPartial
      (Some [ EQ_lowshelf 50 1.5 (Some 0.8);
              EQ_bell 250 (-2.5) 2.0;
              EQ_highshelf 11000 1.0 (Some 0.7);
              EQ_bell 3200 (-1.0) 2.5 ])
      None
      (Some (mkMultiband MB_XOVERS
        ( mkBand 5.0 (-28) 3 0.025 0.12,
          mkBand 3.0 (-24) 3 0.015 0.11,
          mkBand 1.8 (-20) 3 0.010 0.10,
          mkBand 1.6 (-18) 3 0.005 0.08,
          mkBand 1.4 (-18) 3 0.002 0.06 )))
      (Some (mkStereo (Some 100) None (Some (mkWidthHigh 5000 130))))
      (Some (with_limiter_threshold UNIVERSAL_OUTPUT (-9)))
      None)
  | bigcappo => Some (mkPartial None None None None None
                                (Some "bigcappo"%string))
  | _ => None
  end.

(* ================================================================= *)
(** ** Slider presets mapped to deterministic DSP *)

(** [a ?? b] *)
Definition nullish {A : Type} (a : option A) (b : A) : A :=
  match a with Some x => x | None => b end.

Definition nullish_opt {A : Type} (a b : option A) : option A :=
  match a with Some x => Some x | None => b end.

(** The five slider-derived band ratios, as functions of the clamped
    compression value [comp]. *)
Definition lowRatio (comp : R) : R := clamp (1.8 + comp * 0.45) 1.6 5.0.
Definition lowMidRatio (comp : R) : R := clamp (1.6 + comp * 0.28) 1.4 3.5.
Definition midRatio (comp : R) : R := clamp (1.3 + comp * 0.12) 1.2 2.0.
Definition highMidRatio (comp : R) : R := clamp (1.2 + comp * 0.10) 1.2 1.8.
Definition highRatio (comp : R) : R := clamp (1.2 + comp * 0.08) 1.2 1.6.

Definition sliderMultiband (compressionSlider : R) : MultibandSpec :=
  let comp := clamp compressionSlider 1.5 7 in
  let threshBase := -22 - (comp - 2) * 0.8 in
  mkMultiband MB_XOVERS
    ( mkBand (lowRatio comp) (threshBase - 2) 3 0.025 0.12,
      mkBand (lowMidRatio comp) (threshBase - 1) 3 0.015 0.11,
      mkBand (midRatio comp) (threshBase + 0) 3 0.010 0.10,
      mkBand (highMidRatio comp) (threshBase + 1) 3 0.005 0.08,
      mkBand (highRatio comp) (threshBase + 1) 3 0.002 0.06 ).

Definition sliderEq (s : Settings) : list EQNodeSpec :=
  [ EQ_hpf 30 (Some order2) (Some 0.707);
    EQ_lowshelf 120 (clamp (bass s) (-6) 6) (Some 1.0);
    EQ_bell 1500 (clamp (mid s) (-6) 6) 1.1;
    EQ_highshelf 12000 (clamp (high s) (-6) 6) (Some 0.7) ].

Definition sliderStereo (key : PresetKey) : StereoSpec :=
  match key with
  | focus => mkStereo (Some 120) (Some 95) None
  | wide => mkStereo (Some 120) (Some 125) None
  | immersive => mkStereo (Some 120) (Some 118) None
  | _ => mkStereo (Some 120) (Some 110) None
  end.

Definition buildDSPForPreset (key : PresetKey) : PresetDSP :=
  let exact := EXACT_PRESETS key in
  let s := presets key in
  let dsp := mkDSP (sliderEq s) None (sliderMultiband (compression s))
                   (sliderStereo key) UNIVERSAL_OUTPUT (s_special s) in
  match exact with
  | Some exact =>
      mkDSP (nullish (p_eq exact) (eq_ dsp))
            (nullish_opt (p_busComp exact) (busComp dsp))
            (nullish (p_multiband exact) (multiband dsp))
            (nullish (p_stereo exact) (stereo dsp))
            (nullish (p_output exact) (output dsp))
            (nullish_opt (p_special exact) (special dsp))
  | None => dsp
  end.

(** Helpers used to state properties of a [PresetDSP]. *)
Definition eqGainDb (n : EQNodeSpec) : option R :=
  match n with
  | EQ_hpf _ _ _ => None
  | EQ_lowshelf _ g _ => Some g
  | EQ_highshelf _ g _ => Some g
  | EQ_bell _ g _ => Some g
  end.

Definition bandList (m : MultibandSpec) : list MultibandBandSpec :=
  let '(b1, b2, b3, b4, b5) := bands m in [b1; b2; b3; b4; b5].

Definition xoverList (m : MultibandSpec) : list R :=
  let '(x1, x2, x3, x4) := xoversHz m in [x1; x2; x3; x4].

Fixpoint strictlyIncreasing (l : list R) : Prop :=
  match l with
  | [] => True
  | x :: t => match t with
              | [] => True
              | y :: _ => x < y /\ strictlyIncreasing t
              end
  end.

Definition sliderRatios (compressionSlider : R) : list R :=
  map ratio (bandList (sliderMultiband compressionSlider)).

Fixpoint nonIncreasing (l : list R) : Prop :=
  match l with
  | [] => True
  | x :: t => match t with
              | [] => True
              | y :: _ => x >= y /\ nonIncreasing t
              end
  end.

(** Whether the hand-authored table replaces the slider-derived EQ. *)
Definition hasEqOverride (key : PresetKey) : bool :=
  match EXACT_PRESETS key with
  | Some exact => match p_eq exact with Some _ => true | None => false end
  | None => false
  end.

Definition gainWithin (lo hi : R) (n : EQNodeSpec) : Prop :=
  match eqGainDb n with
  | Some g => lo <= g <= hi
  | None => True
  end.

Definition ratioWithin (lo hi : R) (b : MultibandBandSpec) : Prop :=
  lo <= ratio b <= hi.

(* ================================================================= *)
(** ** Audio buffers *)

(** A WebAudio [AudioBuffer].  [getChannelData b c i] is
    [buffer.getChannelData(c)[i]]; the engine reads it only for
    [c < numberOfChannels] and [i < length].  The field [length] of the
    source is [length_] here. *)
Record AudioBuffer : Type := mkBuffer {
  sampleRate : R;
  numberOfChannels : nat;
  length_ : nat;
  getChannelData : nat -> nat -> R
}.

(** A JavaScript number that may be infinite. *)
Inductive xnum : Type :=
  | NegInfinity
  | Finite (x : R)
  | PosInfinity.

(* ================================================================= *)
(** ** Loudness and true peak *)

(** [Math.floor] and [Math.ceil] *)
Definition floor (x : R) : Z := Int_part x.
Definition ceiling (x : R) : Z := (- floor (- x))%Z.

(** The values [k] takes in [for (let k = 1; k < oversample; k++)]: the
    whole numbers from 1 that are below [oversample]. *)
Definition oversampleSteps (oversample : R) : list nat :=
  seq 1 (Z.to_nat (ceiling oversample) - 1).

(** The point the innermost loop of [estimateTruePeakDbFS] computes at
    step [k]. *)
Definition interpolate (oversample : R) (a b : R) (k : nat) : R :=
  let t := INR k / oversample in
  a + (b - a) * t.

Definition peakOversampled (oversample : R) (a b peak : R) : R :=
  fold_left (fun peak k => Rmax peak (Rabs (interpolate oversample a b k)))
            (oversampleSteps oversample) peak.

Definition peakPair (oversample : R) (data : nat -> R) (peak : R) (i : nat)
  : R :=
  let a := data i in
  let b := data (i + 1)%nat in
  let peak := Rmax (Rmax peak (Rabs a)) (Rabs b) in
  peakOversampled oversample a b peak.

Definition peakChannel (oversample : R) (len : nat) (data : nat -> R)
           (peak : R) : R :=
  fold_left (peakPair oversample data) (seq 0 (len - 1)) peak.

(** The linear peak accumulated by the loops of [estimateTruePeakDbFS]. *)
Definition truePeakLinear (buffer : AudioBuffer) (oversample : R) : R :=
  let ch := numberOfChannels buffer in
  let len := length_ buffer in
  fold_left (fun peak c =>
               peakChannel oversample len (getChannelData buffer c) peak)
            (seq 0 ch) 0.

Definition estimateTruePeakDbFS (buffer : AudioBuffer) (oversample : R) : R :=
  linToDb (truePeakLinear buffer oversample).

(** The plain sample peak: the largest [|x|] over every sample of every
    channel (0 for a buffer without samples). *)
Definition Rmax_list (l : list R) : R := fold_left Rmax l 0.

Definition allSamples (buffer : AudioBuffer) : list R :=
  flat_map (fun c => map (getChannelData buffer c) (seq 0 (length_ buffer)))
           (seq 0 (numberOfChannels buffer)).

Definition samplePeak (buffer : AudioBuffer) : R :=
  Rmax_list (map Rabs (allSamples buffer)).

Definition lufsBlocksToMeanSquare (blockLUFS : list R) : R :=
  let msVals := map (fun l => pow10 ((l + 0.691) / 10)) blockLUFS in
  fold_left Rplus msVals 0 / INR (List.length msVals).

Definition blockLenOf (sr : R) : nat := Z.to_nat (Z.max 1 (floor (sr * 0.400))).
Definition stepOf (sr : R) : nat := Z.to_nat (Z.max 1 (floor (sr * 0.100))).

Definition sumSquares (data : nat -> R) (start blockLen : nat) : R :=
  fold_left (fun s i => let x := data i in s + x * x) (seq start blockLen) 0.

(** The loudness of the block that begins at [start]. *)
Definition blockLUFS (buffer : AudioBuffer) (blockLen start : nat) : R :=
  let channels := numberOfChannels buffer in
  let sum :=
    fold_left (fun sum c =>
                 sum + sumSquares (getChannelData buffer c) start blockLen
                       / INR blockLen)
              (seq 0 channels) 0 in
  let meanSquare := sum / INR channels in
  -0.691 + 10 * log10 (Rmax 1e-12 meanSquare).

Section BlockLoop.
Variables (len blockLen step : nat).
Hypothesis step_pos : (1 <= step)%nat.
Variable lufsAt : nat -> R.

(** [for (let start = 0; start + blockLen <= buffer.length; start += step)] *)
Equations? blocksFrom (start : nat) : list R by wf (S len - start)%nat lt :=
  blocksFrom start with le_dec (start + blockLen) len => {
    | left _ := lufsAt start :: blocksFrom (start + step);
    | right _ := [] }.
Proof.
  clear blocksFrom. destruct start, step; simpl in *; lia.
Qed.
End BlockLoop.

Lemma stepOf_pos (sr : R) : (1 <= stepOf sr)%nat.
Proof. unfold stepOf. lia. Qed.

Definition gtb (x y : R) : bool := if Rgt_dec x y then true else false.

Definition absGateLUFS : R := -70.0.

Definition loudnessBlocks (buffer : AudioBuffer) : list R :=
  let sr := sampleRate buffer in
  let blockLen := blockLenOf sr in
  blocksFrom (length_ buffer) blockLen (stepOf sr) (stepOf_pos sr)
             (blockLUFS buffer blockLen) 0.

Definition lufsOfMeanSquare (ms : R) : R :=
  -0.691 + 10 * log10 (Rmax 1e-12 ms).

Definition absGatedBlocks (blocks : list R) : list R :=
  filter (fun l => gtb l absGateLUFS) blocks.

Definition ungatedLUFSOf (absGated : list R) : R :=
  lufsOfMeanSquare (lufsBlocksToMeanSquare absGated).

Definition relGatedBlocks (absGated : list R) : list R :=
  let relGate := ungatedLUFSOf absGated - 10.0 in
  filter (fun l => gtb l relGate) absGated.

(** The gating cascade of [integratedLUFS_R128Gated] on the block list. *)
Definition gateBlocks (blocks : list R) : xnum :=
  match blocks with
  | [] => NegInfinity
  | _ :: _ =>
      let absGated := absGatedBlocks blocks in
      match absGated with
      | [] => Finite absGateLUFS
      | _ :: _ =>
          let ungatedLUFS := ungatedLUFSOf absGated in
          let relGated := relGatedBlocks absGated in
          match relGated with
          | [] => Finite ungatedLUFS
          | _ :: _ => Finite (lufsOfMeanSquare (lufsBlocksToMeanSquare relGated))
          end
      end
  end.

Definition integratedLUFS_R128Gated (buffer : AudioBuffer) : xnum :=
  gateBlocks (loudnessBlocks buffer).

(** Two buffers with the same format and the same samples. *)
Definition sameAudio (b1 b2 : AudioBuffer) : Prop :=
  sampleRate b1 = sampleRate b2 /\
  numberOfChannels b1 = numberOfChannels b2 /\
  length_ b1 = length_ b2 /\
  forall c i, (c < numberOfChannels b1)%nat -> (i < length_ b1)%nat ->
              getChannelData b1 c i = getChannelData b2 c i.

Definition allZero (buffer : AudioBuffer) : Prop :=
  forall c i, (c < numberOfChannels buffer)%nat -> (i < length_ buffer)%nat ->
              getChannelData buffer c i = 0.

(* ================================================================= *)
(** ** The WebAudio graph under construction *)

Inductive BiquadType : Type :=
  | lowpass | highpass | lowshelf | highshelf | peaking.

(** The nodes the engine creates.  Every node is configured right after its
    creation and never again, so creation and configuration are one step
    here; a parameter the source leaves untouched keeps WebAudio's default
    (biquad gain 0, gain-node gain 1). *)
Inductive AudioNode : Type :=
  | DestinationNode
  | BufferSourceNode (buffer : AudioBuffer)
  | BiquadFilterNode (type : BiquadType) (frequency Q gain : R)
  | GainNode (gain : R)
  | DynamicsCompressorNode (threshold knee ratio attack release : R)
  | ChannelSplitterNode (numberOfOutputs : nat)
  | ChannelMergerNode (numberOfInputs : nat).

Definition NodeId : Type := nat.

(** [source.connect(destination, output, input)] *)
Record Connection : Type := mkConnection {
  conn_from : NodeId;
  conn_to : NodeId;
  conn_output : nat;
  conn_input : nat
}.

(** An [OfflineAudioContext]: its render format, the nodes created so far
    (each with the identity it was given at creation) and the connections
    made so far, newest first. *)
Record OfflineAudioContext : Type := mkContext {
  ctx_numberOfChannels : nat;
  ctx_length : nat;
  ctx_sampleRate : R;
  next_id : NodeId;
  nodes : list (NodeId * AudioNode);
  connections : list Connection
}.

(** [offline.destination] *)
Definition destination : NodeId := 0%nat.

(** [new OfflineAudioContext(numberOfChannels, length, sampleRate)] *)
Definition newOfflineAudioContext (numberOfChannels len : nat) (sr : R)
  : OfflineAudioContext :=
  mkContext numberOfChannels len sr 1%nat [(destination, DestinationNode)] [].

(** Graph construction threads the context through every call. *)
Definition Build (A : Type) : Type :=
  OfflineAudioContext -> A * OfflineAudioContext.

Definition ret {A : Type} (a : A) : Build A := fun ctx => (a, ctx).

Definition bind {A B : Type} (m : Build A) (k : A -> Build B) : Build B :=
  fun ctx => let (a, ctx') := m ctx in k a ctx'.

Declare Scope build_scope.
Delimit Scope build_scope with build.
Notation "x <- m ;; k" := (bind m (fun x => k))
  (at level 61, m at next level, right associativity) : build_scope.
Notation "m ;; k" := (bind m (fun _ => k))
  (at level 61, right associativity) : build_scope.
Local Open Scope build_scope.

Definition createNode (n : AudioNode) : Build NodeId :=
  fun ctx =>
    (next_id ctx,
     mkContext (ctx_numberOfChannels ctx) (ctx_length ctx) (ctx_sampleRate ctx)
               (S (next_id ctx)) ((next_id ctx, n) :: nodes ctx)
               (connections ctx)).

Definition connectAt (src dst : NodeId) (out inp : nat) : Build unit :=
  fun ctx =>
    (tt,
     mkContext (ctx_numberOfChannels ctx) (ctx_length ctx) (ctx_sampleRate ctx)
               (next_id ctx) (nodes ctx)
               (mkConnection src dst out inp :: connections ctx)).

Definition connect (src dst : NodeId) : Build unit :=
  connectAt src dst 0%nat 0%nat.

Definition createBiquadFilter (type : BiquadType) (frequency Q gain : R)
  : Build NodeId :=
  createNode (BiquadFilterNode type frequency Q gain).

Definition createGain (gain : R) : Build NodeId := createNode (GainNode gain).

Definition createDynamicsCompressor (threshold knee ratio attack release : R)
  : Build NodeId :=
  createNode (DynamicsCompressorNode threshold knee ratio attack release).

(** JavaScript truthiness of an optional number: [undefined] and [0] are
    falsy. *)
Definition truthy (x : option R) : option R :=
  match x with
  | Some v => if Req_dec_T v 0 then None else Some v
  | None => None
  end.

(* ================================================================= *)
(** ** DSP graph builders *)

(** One turn of the loop of [applyFilterChain]. *)
Definition applyFilter (chain : NodeId) (spec : EQNodeSpec) : Build NodeId :=
  match spec with
  | EQ_hpf freq order q =>
      hp1 <- createBiquadFilter highpass freq (nullish q 0.707) 0 ;;
      connect chain hp1 ;;
      match order with
      | Some order2 =>
          hp2 <- createBiquadFilter highpass freq (nullish q 0.707) 0 ;;
          connect hp1 hp2 ;;
          ret hp2
      | _ => ret hp1
      end
  | EQ_lowshelf freq gainDb q =>
      f <- createBiquadFilter lowshelf freq (nullish q 1.0) gainDb ;;
      connect chain f ;;
      ret f
  | EQ_highshelf freq gainDb q =>
      f <- createBiquadFilter highshelf freq (nullish q 0.7) gainDb ;;
      connect chain f ;;
      ret f
  | EQ_bell freq gainDb q =>
      f <- createBiquadFilter peaking freq q gainDb ;;
      connect chain f ;;
      ret f
  end.

Fixpoint applyFilterChain (input : NodeId) (eq : list EQNodeSpec)
  : Build NodeId :=
  match eq with
  | [] => ret input
  | spec :: rest =>
      chain <- applyFilter input spec ;;
      applyFilterChain chain rest
  end.

Definition createBandSplit (input : NodeId) (xoversHz : R * R * R * R)
  : Build (list NodeId) :=
  let '(x1, x2, x3, x4) := xoversHz in
  let makeLP freq := createBiquadFilter lowpass freq 0.707 0 in
  let makeHP freq := createBiquadFilter highpass freq 0.707 0 in
  low <- makeLP x1 ;;
  lowMidHP <- makeHP x1 ;;
  lowMidLP <- makeLP x2 ;;
  midHP <- makeHP x2 ;;
  midLP <- makeLP x3 ;;
  highMidHP <- makeHP x3 ;;
  highMidLP <- makeLP x4 ;;
  high <- makeHP x4 ;;
  connect input low ;;
  connect input lowMidHP ;;
  connect lowMidHP lowMidLP ;;
  connect input midHP ;;
  connect midHP midLP ;;
  connect input highMidHP ;;
  connect highMidHP highMidLP ;;
  connect input high ;;
  ret [low; lowMidLP; midLP; highMidLP; high].

(** The body of [bands.forEach] in [applyMultiband]. *)
Definition compressBand (sum : NodeId) (bandNode : NodeId)
           (b : MultibandBandSpec) : Build unit :=
  c <- createDynamicsCompressor (thresholdDb b) (kneeDb b)
         (clamp (ratio b) 1.0 20.0)
         (clamp (attackSec b) 0.001 0.25)
         (clamp (releaseSec b) 0.03 0.5) ;;
  connect bandNode c ;;
  connect c sum.

Fixpoint forEachBand (sum : NodeId) (bandNodes : list NodeId)
         (specs : list MultibandBandSpec) : Build unit :=
  match bandNodes, specs with
  | bandNode :: bandNodes', b :: specs' =>
      compressBand sum bandNode b ;;
      forEachBand sum bandNodes' specs'
  | _, _ => ret tt
  end.

Definition applyMultiband (input : NodeId) (spec : MultibandSpec)
  : Build NodeId :=
  bandNodes <- createBandSplit input (xoversHz spec) ;;
  sum <- createGain 1 ;;
  forEachBand sum bandNodes (bandList spec) ;;
  ret sum.

Definition applyBusComp (input : NodeId) (spec : option BusCompSpec)
  : Build NodeId :=
  match spec with
  | None => ret input
  | Some spec =>
      if negb (enabled spec) then ret input
      else
        node <- match truthy (sidechainHpfHz spec) with
                | Some hz =>
                    hp <- createBiquadFilter highpass hz 0.707 0 ;;
                    connect input hp ;;
                    ret hp
                | None => ret input
                end ;;
        comp <- createDynamicsCompressor (bc_thresholdDb spec) (bc_kneeDb spec)
                  (clamp (bc_ratio spec) 1.0 20.0)
                  (clamp (bc_attackSec spec) 0.001 0.25)
                  (clamp (bc_releaseSec spec) 0.03 0.5) ;;
        connect node comp ;;
        ret comp
  end.

Definition applyStereoShaping (input : NodeId) (stereo : StereoSpec)
           (numChannels : nat) : Build NodeId :=
  if (numChannels <? 2)%nat then ret input
  else
    splitter <- createNode (ChannelSplitterNode 2) ;;
    merger <- createNode (ChannelMergerNode 2) ;;
    connect input splitter ;;
    L <- createGain 1 ;;
    R_ <- createGain 1 ;;
    connectAt splitter L 0%nat 0%nat ;;
    connectAt splitter R_ 1%nat 0%nat ;;
    mid <- createGain 0.5 ;;
    connect L mid ;;
    connect R_ mid ;;
    invR <- createGain (-1) ;;
    connect R_ invR ;;
    side <- createGain 0.5 ;;
    connect L side ;;
    connect invR side ;;
    let overallWidth := clamp (nullish (overallWidth stereo) 100 / 100) 0.5 1.6 in
    sideScaled <- createGain overallWidth ;;
    connect side sideScaled ;;
    outL <- createGain 1 ;;
    outR <- createGain 1 ;;
    connect mid outL ;;
    connect sideScaled outL ;;
    connect mid outR ;;
    sideInv <- createGain (-1) ;;
    connect sideScaled sideInv ;;
    connect sideInv outR ;;
    match truthy (monoBelowHz stereo) with
    | Some hz =>
        lp <- createBiquadFilter lowpass hz 0.707 0 ;;
        connect side lp ;;
        cancel <- createGain (-1) ;;
        connect lp cancel ;;
        connect cancel outL ;;
        addBack <- createGain 1 ;;
        connect lp addBack ;;
        connect addBack outR
    | None => ret tt
    end ;;
    match widthHighOnly stereo with
    | Some w =>
        hp <- createBiquadFilter highpass (wh_freq w) 0.707 0 ;;
        let targetWidth := clamp (wh_width w / 100) 0.5 1.8 in
        let extra := targetWidth - overallWidth in
        if gtb (Rabs extra) 0.01 then
          extraGain <- createGain extra ;;
          connect side hp ;;
          connect hp extraGain ;;
          connect extraGain outL ;;
          extraInv <- createGain (-1) ;;
          connect extraGain extraInv ;;
          connect extraInv outR
        else ret tt
    | None => ret tt
    end ;;
    connectAt outL merger 0%nat 0%nat ;;
    connectAt outR merger 0%nat 1%nat ;;
    ret merger.

Definition applyLimiterAndCeiling (input : NodeId) (out : OutputSpec)
           (trimDb : R) : Build NodeId :=
  trim <- createGain (dbToLin trimDb) ;;
  connect input trim ;;
  limiter <- createDynamicsCompressor
               (lim_thresholdDb (limiter out)) (lim_kneeDb (limiter out))
               (lim_ratio (limiter out)) (lim_attackSec (limiter out))
               (lim_releaseSec (limiter out)) ;;
  connect trim limiter ;;
  ceiling <- createGain (dbToLin (ceilingDbFS out)) ;;
  connect limiter ceiling ;;
  ret ceiling.

(* ================================================================= *)
(** ** Two-pass premium processor *)

Inductive RenderMode : Type := preOutput | final.

(** The signature warmth node. *)
Definition warmthTrim : AudioNode := BiquadFilterNode peaking 400 1.2 (-2).

Definition wantsWarmth (dsp : PresetDSP) (useAutoTune : bool) : bool :=
  match special dsp with
  | Some s => String.eqb s "bigcappo"%string
  | None => false
  end || useAutoTune.

(** The "signature warmth trim" block of [renderPresetGraph]. *)
Definition applyWarmth (eqOut : NodeId) (dsp : PresetDSP) (useAutoTune : bool)
  : Build NodeId :=
  if wantsWarmth dsp useAutoTune then
    warmth <- createNode warmthTrim ;;
    connect eqOut warmth ;;
    ret warmth
  else ret eqOut.

(** The graph [renderPresetGraph] wires before it starts the render; the
    result is the source node. *)
Definition buildPresetGraph (audioBuffer : AudioBuffer) (dsp : PresetDSP)
           (useAutoTune : bool) (mode : RenderMode) (trimDb : R)
  : Build NodeId :=
  src <- createNode (BufferSourceNode audioBuffer) ;;
  safetyHPF <- createBiquadFilter highpass 30 0.707 0 ;;
  connect src safetyHPF ;;
  eqOut <- applyFilterChain safetyHPF (eq_ dsp) ;;
  tuned <- applyWarmth eqOut dsp useAutoTune ;;
  busOut <- applyBusComp tuned (busComp dsp) ;;
  mbOut <- applyMultiband busOut (multiband dsp) ;;
  stereoOut <- applyStereoShaping mbOut (stereo dsp)
                 (numberOfChannels audioBuffer) ;;
  match mode with
  | preOutput => connect stereoOut destination
  | final =>
      finalOut <- applyLimiterAndCeiling stereoOut (output dsp) trimDb ;;
      connect finalOut destination
  end ;;
  ret src.

Definition presetContext (audioBuffer : AudioBuffer) (dsp : PresetDSP)
           (useAutoTune : bool) (mode : RenderMode) (trimDb : R)
  : NodeId * OfflineAudioContext :=
  buildPresetGraph audioBuffer dsp useAutoTune mode trimDb
    (newOfflineAudioContext (numberOfChannels audioBuffer)
                            (length_ audioBuffer) (sampleRate audioBuffer)).

(** The graph of [computeIntegratedLUFS_KWeighted]: the K-weighting
    approximation (high-pass at 60 Hz, +4 dB high shelf at 4 kHz). *)
Definition kWeightingContext (buffer : AudioBuffer) : OfflineAudioContext :=
  snd ((src <- createNode (BufferSourceNode buffer) ;;
        hp <- createBiquadFilter highpass 60 0.707 0 ;;
        shelf <- createBiquadFilter highshelf 4000 0.707 4.0 ;;
        connect src hp ;;
        connect hp shelf ;;
        connect shelf destination)
       (newOfflineAudioContext (numberOfChannels buffer) (length_ buffer)
                               (sampleRate buffer))).

(** Arithmetic on numbers that may be infinite, as far as the trim
    computation needs it (one operand is always finite). *)
Definition xsub (a : R) (x : xnum) : xnum :=
  match x with
  | NegInfinity => PosInfinity
  | Finite v => Finite (a - v)
  | PosInfinity => NegInfinity
  end.

Definition xadd (a : R) (x : xnum) : xnum :=
  match x with
  | NegInfinity => NegInfinity
  | Finite v => Finite (a + v)
  | PosInfinity => PosInfinity
  end.

(** [x > c] *)
Definition xgt (x : xnum) (c : R) : bool :=
  match x with
  | NegInfinity => false
  | Finite v => gtb v c
  | PosInfinity => true
  end.

(** [Math.min(x, c)] *)
Definition xmin (x : xnum) (c : R) : xnum :=
  match x with
  | NegInfinity => NegInfinity
  | Finite v => Finite (Rmin v c)
  | PosInfinity => Finite c
  end.

(** [clamp(x, min, max)], that is [Math.max(min, Math.min(max, x))] *)
Definition xclamp (x : xnum) (min max : R) : R :=
  match x with
  | NegInfinity => min
  | Finite v => clamp v min max
  | PosInfinity => Rmax min max
  end.

(** Lines "Trim to hit -14 integrated" to the final clamp of
    [processAudioPremium]. *)
Definition computeTrimDb (out : OutputSpec) (integrated : xnum) (tpPre : R)
  : R :=
  let trimDb := xsub (targetIntegratedLUFS out) integrated in
  let predictedTP := xadd tpPre trimDb in
  let trimDb :=
    if xgt predictedTP (ceilingDbFS out)
    then xmin trimDb (ceilingDbFS out - tpPre)
    else trimDb in
  xclamp trimDb (tc_min (trimClampDb out)) (tc_max (trimClampDb out)).

Section Engine.
(** [offline.startRendering()]: the browser's audio engine, which turns a
    wired context into the rendered buffer. *)
Variable startRendering : OfflineAudioContext -> AudioBuffer.

Definition renderPresetGraph (audioBuffer : AudioBuffer) (dsp : PresetDSP)
           (useAutoTune : bool) (mode : RenderMode) (trimDb : R)
  : AudioBuffer :=
  startRendering (snd (presetContext audioBuffer dsp useAutoTune mode trimDb)).

Definition computeIntegratedLUFS_KWeighted (buffer : AudioBuffer) : xnum :=
  integratedLUFS_R128Gated (startRendering (kWeightingContext buffer)).

(** The measurements of pass 1. *)
Definition analysisPass (audioBuffer : AudioBuffer) (presetKey : PresetKey)
           (useAutoTune : bool) : xnum * R :=
  let dsp := buildDSPForPreset presetKey in
  let pre := renderPresetGraph audioBuffer dsp useAutoTune preOutput 0 in
  (computeIntegratedLUFS_KWeighted pre, estimateTruePeakDbFS pre 4).

(** The trim [processAudioPremium] hands to pass 2. *)
Definition premiumTrimDb (audioBuffer : AudioBuffer) (presetKey : PresetKey)
           (useAutoTune : bool) : R :=
  let dsp := buildDSPForPreset presetKey in
  let '(integrated, tpPre) := analysisPass audioBuffer presetKey useAutoTune in
  computeTrimDb (output dsp) integrated tpPre.

Definition processAudioPremium (audioBuffer : AudioBuffer)
           (presetKey : PresetKey) (useAutoTune : bool) : AudioBuffer :=
  let dsp := buildDSPForPreset presetKey in
  let trimDb := premiumTrimDb audioBuffer presetKey useAutoTune in
  renderPresetGraph audioBuffer dsp useAutoTune final trimDb.
End Engine.

(** Whether the peak-safety condition fires for a pair of measurements. *)
Definition peakSafetyTriggered (out : OutputSpec) (integrated : xnum)
           (tpPre : R) : Prop :=
  xgt (xadd tpPre (xsub (targetIntegratedLUFS out) integrated))
      (ceilingDbFS out) = true.

(* ================================================================= *)
(** ** Reading a wired graph *)

Definition hasNode (ctx : OfflineAudioContext) (id : NodeId) (n : AudioNode)
  : Prop :=
  In (id, n) (nodes ctx).

Definition connected (ctx : OfflineAudioContext) (a b : NodeId) : Prop :=
  exists out inp, In (mkConnection a b out inp) (connections ctx).

(** The signal of [a] flows into [b] along connections. *)
Inductive reaches (ctx : OfflineAudioContext) : NodeId -> NodeId -> Prop :=
  | reaches_here (a : NodeId) : reaches ctx a a
  | reaches_next (a b c : NodeId) :
      connected ctx a b -> reaches ctx b c -> reaches ctx a c.

(** Every connection into [b] comes out of [a]. *)
Definition onlyFedBy (ctx : OfflineAudioContext) (b a : NodeId) : Prop :=
  forall c, In c (connections ctx) -> conn_to c = b -> conn_from c = a.

(** Construction only ever adds nodes and connections. *)
Definition extends (ctx ctx' : OfflineAudioContext) : Prop :=
  incl (nodes ctx) (nodes ctx') /\ incl (connections ctx) (connections ctx').

(** A builder that wires a chain from [input] to the node it returns. *)
Definition wiresFrom (input : NodeId) (m : Build NodeId) : Prop :=
  forall ctx,
    extends ctx (snd (m ctx)) /\ reaches (snd (m ctx)) input (fst (m ctx)).

Definition grows {A : Type} (m : Build A) : Prop :=
  forall ctx, extends ctx (snd (m ctx)).

(** The warmth node sits on the signal path from the source to the
    destination of a wired context. *)
Definition warmthInChain (r : NodeId * OfflineAudioContext) : Prop :=
  exists w, hasNode (snd r) w warmthTrim /\
            reaches (snd r) (fst r) w /\
            reaches (snd r) w destination.

(* ================================================================= *)
(** ** WAV export *)

(** [ToIntegerOrInfinity] on a finite number: truncation toward zero. *)
Definition truncate (x : R) : Z :=
  if Rle_dec 0 x then Int_part x else (- Int_part (- x))%Z.

(** The content of an [ArrayBuffer]: its bytes, each in [0, 255].  A
    [DataView] write outside the buffer throws a [RangeError] ([None]). *)
Definition Bytes : Type := list Z.

Fixpoint store (view : Bytes) (i : nat) (v : Z) : option Bytes :=
  match view, i with
  | [], _ => None
  | _ :: rest, O => Some (v :: rest)
  | b :: rest, S i' => option_map (cons b) (store rest i' v)
  end.

Definition obind {A B : Type} (m : option A) (k : A -> option B) : option B :=
  match m with
  | Some a => k a
  | None => None
  end.

Declare Scope js_scope.
Delimit Scope js_scope with js.
Notation "x <- m ;; k" := (obind m (fun x => k))
  (at level 61, m at next level, right associativity) : js_scope.

(** [view.setUint8(offset, value)] *)
Definition setUint8 (view : Bytes) (offset : nat) (value : Z) : option Bytes :=
  store view offset (value mod 256)%Z.

(** [view.setUint16(offset, value, true)]: little-endian, value reduced
    modulo 2^16. *)
Definition setUint16 (view : Bytes) (offset : nat) (value : Z) : option Bytes :=
  (let u := (value mod 65536)%Z in
   view <- store view offset (u mod 256)%Z ;;
   store view (offset + 1) (u / 256)%Z)%js.

(** [view.setInt16(offset, value, true)]: the two's-complement bytes of the
    value reduced modulo 2^16. *)
Definition setInt16 (view : Bytes) (offset : nat) (value : Z) : option Bytes :=
  setUint16 view offset value.

(** [view.setUint32(offset, value, true)]: little-endian, value reduced
    modulo 2^32. *)
Definition setUint32 (view : Bytes) (offset : nat) (value : Z) : option Bytes :=
  (let u := (value mod 4294967296)%Z in
   view <- store view offset (u mod 256)%Z ;;
   view <- store view (offset + 1) ((u / 256) mod 256)%Z ;;
   view <- store view (offset + 2) ((u / 65536) mod 256)%Z ;;
   store view (offset + 3) (u / 16777216)%Z)%js.

Definition charCodeAt (c : ascii) : Z := Z.of_N (N_of_ascii c).

Fixpoint writeString (view : Bytes) (offset : nat) (str : string)
  : option Bytes :=
  match str with
  | EmptyString => Some view
  | String c rest =>
      (view <- setUint8 view offset (charCodeAt c) ;;
       writeString view (S offset) rest)%js
  end.

(** [Math.max(-1, Math.min(1, x))], then the asymmetric scaling. *)
Definition scaleSample (x : R) : R :=
  let sample := Rmax (-1) (Rmin 1 x) in
  if Rlt_dec sample 0 then sample * 32768 else sample * 32767.

(** One turn of the inner loop of [bufferToWav]. *)
Definition writeSample (buffer : AudioBuffer) (i : nat)
           (st : option (Bytes * nat)) (channel : nat) : option (Bytes * nat) :=
  (st <- st ;;
   let '(view, offset) := st in
   view <- setInt16 view offset
             (truncate (scaleSample (getChannelData buffer channel i))) ;;
   Some (view, (offset + 2)%nat))%js.

Definition writeFrame (buffer : AudioBuffer) (st : option (Bytes * nat))
           (i : nat) : option (Bytes * nat) :=
  fold_left (writeSample buffer i) (seq 0 (numberOfChannels buffer)) st.

(** The bytes handed to the [Blob]. *)
Definition bufferToWav (buffer : AudioBuffer) : option Bytes :=
  (let numberOfChannels := numberOfChannels buffer in
   let length := (length_ buffer * numberOfChannels * 2)%nat in
   let view := repeat 0%Z (44 + length) in
   view <- writeString view 0 "RIFF" ;;
   view <- setUint32 view 4 (36 + Z.of_nat length) ;;
   view <- writeString view 8 "WAVE" ;;
   view <- writeString view 12 "fmt " ;;
   view <- setUint32 view 16 16 ;;
   view <- setUint16 view 20 1 ;;
   view <- setUint16 view 22 (Z.of_nat numberOfChannels) ;;
   view <- setUint32 view 24 (truncate (sampleRate buffer)) ;;
   view <- setUint32 view 28
             (truncate (sampleRate buffer * INR numberOfChannels * 2)) ;;
   view <- setUint16 view 32 (Z.of_nat (numberOfChannels * 2)) ;;
   view <- setUint16 view 34 16 ;;
   view <- writeString view 36 "data" ;;
   view <- setUint32 view 40 (Z.of_nat length) ;;
   st <- fold_left (writeFrame buffer) (seq 0 (length_ buffer))
                   (Some (view, 44%nat)) ;;
   Some (fst st))%js.

(** Reading a WAV file back. *)
Definition byteAt (bytes : Bytes) (i : nat) : Z := nth i bytes 0%Z.

Definition getUint16 (bytes : Bytes) (offset : nat) : Z :=
  (byteAt bytes offset + 256 * byteAt bytes (offset + 1))%Z.

Definition getUint32 (bytes : Bytes) (offset : nat) : Z :=
  (byteAt bytes offset + 256 * byteAt bytes (offset + 1)
   + 65536 * byteAt bytes (offset + 2)
   + 16777216 * byteAt bytes (offset + 3))%Z.

Definition getInt16 (bytes : Bytes) (offset : nat) : Z :=
  let u := getUint16 bytes offset in
  if (u <? 32768)%Z then u else (u - 65536)%Z.

Definition getTag (bytes : Bytes) (offset : nat) : list Z :=
  firstn 4 (skipn offset bytes).

Definition tagOf (str : string) : list Z :=
  map charCodeAt (list_ascii_of_string str).

(** The 16-bit sample the writer is meant to produce for a float sample:
    clamp, scale asymmetrically, drop the fraction. *)
Definition pcm16 (x : R) : Z := truncate (scaleSample x).

(** Offset of the sample of frame [i], channel [channel]. *)
Definition sampleOffset (buffer : AudioBuffer) (i channel : nat) : nat :=
  44 + 2 * (i * numberOfChannels buffer + channel).

Definition dataLength (buffer : AudioBuffer) : Z :=
  (Z.of_nat (length_ buffer) * Z.of_nat (numberOfChannels buffer) * 2)%Z.

(** Little-endian byte lists, and the file [bufferToWav] writes in closed
    form: the 44 header bytes followed by the interleaved samples. *)
Definition le16 (v : Z) : list Z :=
  let u := (v mod 65536)%Z in [(u mod 256)%Z; (u / 256)%Z].

Definition le32 (v : Z) : list Z :=
  let u := (v mod 4294967296)%Z in
  [(u mod 256)%Z; ((u / 256) mod 256)%Z; ((u / 65536) mod 256)%Z;
   (u / 16777216)%Z].

Definition wavHeader (buffer : AudioBuffer) : list Z :=
  let c := numberOfChannels buffer in
  let len := (length_ buffer * c * 2)%nat in
  tagOf "RIFF" ++ le32 (36 + Z.of_nat len) ++ tagOf "WAVE" ++ tagOf "fmt "
  ++ le32 16 ++ le16 1 ++ le16 (Z.of_nat c)
  ++ le32 (truncate (sampleRate buffer))
  ++ le32 (truncate (sampleRate buffer * INR c * 2))
  ++ le16 (Z.of_nat (c * 2)) ++ le16 16 ++ tagOf "data"
  ++ le32 (Z.of_nat len).

Definition frameBytes (buffer : AudioBuffer) (i : nat) : list Z :=
  flat_map (fun channel => le16 (pcm16 (getChannelData buffer channel i)))
           (seq 0 (numberOfChannels buffer)).

Definition wavData (buffer : AudioBuffer) : list Z :=
  flat_map (frameBytes buffer) (seq 0 (length_ buffer)).

(** Six hours and three quarters of stereo silence at 44.1 kHz: 2^30 frames,
    2^32 bytes of PCM. *)
Definition hugeSilence : AudioBuffer :=
  mkBuffer 44100 2 (Z.to_nat 1073741824) (fun _ _ => 0).

(* ================================================================= *)
(** ** A plain gain applied to a buffer *)

(** The buffer a [GainNode] of factor [g] turns [buffer] into: every sample
    multiplied by [g]. *)
Definition applyGain (g : R) (buffer : AudioBuffer) : AudioBuffer :=
  mkBuffer (sampleRate buffer) (numberOfChannels buffer) (length_ buffer)
           (fun c i => g * getChannelData buffer c i).

(** The mean square of the block that begins at [start] (the value
    [meanSquare] of [integratedLUFS_R128Gated]). *)
Definition blockMeanSquare (buffer : AudioBuffer) (blockLen start : nat) : R :=
  fold_left (fun sum c =>
               sum + sumSquares (getChannelData buffer c) start blockLen
                     / INR blockLen)
            (seq 0 (numberOfChannels buffer)) 0
  / INR (numberOfChannels buffer).

(** A loudness moved by [d] decibels. *)
Definition shiftLoudness (d : R) (x : xnum) : xnum :=
  match x with
  | NegInfinity => NegInfinity
  | Finite v => Finite (v + d)
  | PosInfinity => PosInfinity
  end.

(** Two seconds of a mono full-scale constant at 44.1 kHz. *)
Definition dcClip : AudioBuffer :=
  mkBuffer 44100 1 (Z.to_nat 88200) (fun _ _ => 1).

(* ================================================================= *)
(** ** MP3 export *)

(** [buffer.getChannelData(channel)], the array the exporter walks. *)
Definition channelData (buffer : AudioBuffer) (channel : nat) : list R :=
  map (getChannelData buffer channel) (seq 0 (length_ buffer)).

(** A store into an element of an [Int16Array]: the number is truncated to
    an integer and wrapped to sixteen bits, two's complement. *)
Definition storeInt16 (x : R) : Z :=
  ((truncate x + 32768) mod 65536 - 32768)%Z.

Definition toInt16 (f : list R) : list Z :=
  map (fun x =>
         let s := Rmax (-1) (Rmin 1 x) in
         storeInt16 (if Rlt_dec s 0 then s * 32768 else s * 32767)) f.

(** [a.subarray(b, e)] for [b <= e]; both ends are cut at the length. *)
Definition subarray {A : Type} (a : list A) (b e : nat) : list A :=
  firstn (e - b) (skipn b a).

(** The arrays [left] and [right] of the source are [left_] and [right_]
    below.  What the engine uses of the [lamejs] module: the encoder object (its
    state), its constructor and its two methods.  The encoder itself is
    outside this development. *)
Record LameJs : Type := mkLame {
  Encoder : Type;
  Mp3Encoder : nat -> R -> R -> Encoder;
  encodeBuffer : Encoder -> list Z -> option (list Z) -> list Z * Encoder;
  flush : Encoder -> list Z
}.

Definition chunkSize : nat := 1152.

(** [if (buf.length > 0) mp3Data.push(buf)] *)
Definition pushNonEmpty (mp3Data : list (list Z)) (buf : list Z) : list (list Z) :=
  if (0 <? List.length buf)%nat then mp3Data ++ [buf] else mp3Data.

(** One call of [enc.encodeBuffer] with the arguments [call] and the push
    of its result. *)
Definition encodeCall (lame : LameJs)
           (st : list (list Z) * Encoder lame)
           (call : list Z * option (list Z)) : list (list Z) * Encoder lame :=
  let (mp3buf, enc) := encodeBuffer lame (snd st) (fst call) (snd call) in
  (pushNonEmpty (fst st) mp3buf, enc).

Section EncodeLoop.
Variable lame : LameJs.
Variable numChannels : nat.
Variable left_ : list Z.
Variable right_ : option (list Z).

(** The arguments of the call made at offset [i]. *)
Definition chunkAt (i : nat) : list Z * option (list Z) :=
  let l := subarray left_ i (i + chunkSize) in
  match Nat.eqb numChannels 2, right_ with
  | true, Some r => (l, Some (subarray r i (i + chunkSize)))
  | _, _ => (l, None)
  end.

(** [for (let i = 0; i < left.length; i += chunkSize)] *)
Equations? encodeFrom (i : nat) (st : list (list Z) * Encoder lame) :
  list (list Z) * Encoder lame by wf (List.length left_ - i)%nat lt :=
  encodeFrom i st with lt_dec i (List.length left_) => {
    | left _ := encodeFrom (i + chunkSize) (encodeCall lame st (chunkAt i));
    | right _ := st }.
Proof.
  clear encodeFrom. unfold chunkSize. lia.
Qed.
End EncodeLoop.

(** [lame] is [None] when the dynamic import fails or the module has no
    [Mp3Encoder].  The result is the list of parts of the [Blob]. *)
Definition bufferToMp3IfAvailable (lame : option LameJs) (buffer : AudioBuffer)
           (kbps : R) : option (list (list Z)) :=
  match lame with
  | None => None
  | Some lame =>
      let numChannels := numberOfChannels buffer in
      let left_ := toInt16 (channelData buffer 0) in
      let right_ :=
        if (1 <? numChannels)%nat then Some (toInt16 (channelData buffer 1))
        else None in
      let enc := Mp3Encoder lame numChannels (sampleRate buffer) kbps in
      let (mp3Data, enc') :=
        encodeFrom lame numChannels left_ right_ 0 ([], enc) in
      Some (pushNonEmpty mp3Data (flush lame enc'))
  end.

(* ================================================================= *)
(** ** The clock of the player *)

(** [a % b] on numbers: the remainder has the sign of [a]. *)
Definition remainder (a b : R) : R := a - b * IZR (truncate (a / b)).

(** [String(n)] for a whole number [n].  Below [2^53] in magnitude it is
    the decimal numeral of [n].  From there on JavaScript prints the
    shortest digits that read back as the same number, padded with zeros,
    and from [1e21] on an exponent form; both are left to [beyond]. *)
Definition numberToString (beyond : Z -> string) (n : Z) : string :=
  if (Z.abs n <? 2 ^ 53)%Z then NilZero.string_of_int (Z.to_int n)
  else beyond n.

Fixpoint zeros (n : nat) : string :=
  match n with
  | O => EmptyString
  | S n' => String "0"%char (zeros n')
  end.

(** [s.padStart(targetLength, '0')] *)
Definition padStart (targetLength : nat) (s : string) : string :=
  (zeros (targetLength - String.length s) ++ s)%string.

Definition formatTime (beyond : Z -> string) (seconds : R) : string :=
  let mins := floor (seconds / 60) in
  let secs := floor (remainder seconds 60) in
  (numberToString beyond mins ++ ":"
   ++ padStart 2 (numberToString beyond secs))%string.

(* ================================================================= *)
(** ** Track storage in memory *)

Module Storage.

Record Track : Type := mkTrack {
  id : Z;
  title : string;
  artist : option string;
  createdAt : Z;
  videoStatus : string;
  videoUrl : option string
}.

(** [undefined] and [null] are both [None]. *)
Record InsertTrack : Type := mkInsertTrack {
  insertTitle : string;
  insertArtist : option string;
  insertVideoStatus : option string;
  insertVideoUrl : option string
}.

(** The two private fields of [MemoryStorage]. *)
Record MemoryStorage : Type := mkStorage {
  data : list Track;
  nextId : Z
}.

Definition newStorage : MemoryStorage := mkStorage [] 1.

(** [now] is the value of [new Date()]. *)
Definition createTrack (now : Z) (insertTrack : InsertTrack)
           (this : MemoryStorage) : Track * MemoryStorage :=
  let track :=
    mkTrack (nextId this) (insertTitle insertTrack) (insertArtist insertTrack)
            now (nullish (insertVideoStatus insertTrack) "pending"%string)
            (insertVideoUrl insertTrack) in
  (track, mkStorage (track :: data this) (nextId this + 1)%Z).

Definition getTracks (this : MemoryStorage) : list Track := data this.

(** The array after the first element that satisfies [p], the object
    [find] returned, has been assigned through [f]. *)
Fixpoint assignFirst (p : Track -> bool) (f : Track -> Track)
         (l : list Track) : list Track :=
  match l with
  | [] => []
  | x :: rest => if p x then f x :: rest else x :: assignFirst p f rest
  end.

Definition updateVideoStatus (id' : Z) (status : string) (url : option string)
           (this : MemoryStorage) : option Track * MemoryStorage :=
  let isIt := fun x => Z.eqb (id x) id' in
  let assign := fun t =>
    mkTrack (id t) (title t) (artist t) (createdAt t) status url in
  match find isIt (data this) with
  | None => (None, this)
  | Some t =>
      (Some (assign t),
       mkStorage (assignFirst isIt assign (data this)) (nextId this))
  end.

(** The calls a client can make. *)
Inductive Call : Type :=
  | CreateTrack (now : Z) (insertTrack : InsertTrack)
  | GetTracks
  | UpdateVideoStatus (id' : Z) (status : string) (url : option string).

Definition call (this : MemoryStorage) (c : Call) : MemoryStorage :=
  match c with
  | CreateTrack now insertTrack => snd (createTrack now insertTrack this)
  | GetTracks => this
  | UpdateVideoStatus id' status url =>
      snd (updateVideoStatus id' status url this)
  end.

Definition isCreate (c : Call) : bool :=
  match c with
  | CreateTrack _ _ => true
  | _ => false
  end.

End Storage.

(* ================================================================= *)
(** ** The discipline of a processing stage *)

(** A compressor whose ratio, attack and release lie in the intervals the
    multiband and bus stages clamp to; every other node passes. *)
Definition withinCompressorRanges (n : AudioNode) : Prop :=
  match n with
  | DynamicsCompressorNode _ _ ratio attack release =>
      1 <= ratio <= 20 /\ 0.001 <= attack <= 0.25 /\ 0.03 <= release <= 0.5
  | _ => True
  end.

(** The node [id] was created between the contexts [ctx] and [ctx']. *)
Definition ownNode (ctx ctx' : OfflineAudioContext) (id : NodeId) : Prop :=
  (next_id ctx <= id < next_id ctx')%nat.

(** A builder that behaves as a stage fed by [input]: each connection it
    makes leaves [input] or a node of its own and enters a node of its
    own, and it returns [input] or a node of its own. *)
Definition stage (input : NodeId) (m : Build NodeId) : Prop :=
  forall ctx, (input < next_id ctx)%nat ->
    (next_id ctx <= next_id (snd (m ctx)))%nat
    /\ (fst (m ctx) = input \/ ownNode ctx (snd (m ctx)) (fst (m ctx)))
    /\ exists added,
         connections (snd (m ctx)) = added ++ connections ctx
         /\ Forall (fun c =>
                      (conn_from c = input
                       \/ ownNode ctx (snd (m ctx)) (conn_from c))
                      /\ ownNode ctx (snd (m ctx)) (conn_to c)) added.

(** Every node the builder creates satisfies [P]. *)
Definition creates {A : Type} (P : AudioNode -> Prop) (m : Build A) : Prop :=
  forall ctx, exists added,
    nodes (snd (m ctx)) = added ++ nodes ctx
    /\ Forall (fun p => P (snd p)) added.

(** The stages [buildPresetGraph] places between the safety filter and the
    destination, as one builder. *)
Definition masteringChain (safetyHPF : NodeId) (dsp : PresetDSP)
           (useAutoTune : bool) (numChannels : nat) (mode : RenderMode)
           (trimDb : R) : Build NodeId :=
  eqOut <- applyFilterChain safetyHPF (eq_ dsp) ;;
  tuned <- applyWarmth eqOut dsp useAutoTune ;;
  busOut <- applyBusComp tuned (busComp dsp) ;;
  mbOut <- applyMultiband busOut (multiband dsp) ;;
  stereoOut <- applyStereoShaping mbOut (stereo dsp) numChannels ;;
  match mode with
  | preOutput => ret stereoOut
  | final => applyLimiterAndCeiling stereoOut (output dsp) trimDb
  end.

(** The biquads one entry of a preset's EQ list stands for. *)
Definition biquadsOf (spec : EQNodeSpec) : list AudioNode :=
  match spec with
  | EQ_hpf freq order q =>
      let hp := BiquadFilterNode highpass freq (nullish q 0.707) 0 in
      match order with
      | Some order2 => [hp; hp]
      | _ => [hp]
      end
  | EQ_lowshelf freq gainDb q =>
      [BiquadFilterNode lowshelf freq (nullish q 1.0) gainDb]
  | EQ_highshelf freq gainDb q =>
      [BiquadFilterNode highshelf freq (nullish q 0.7) gainDb]
  | EQ_bell freq gainDb q => [BiquadFilterNode peaking freq q gainDb]
  end.

(** A series connection: [input] into the first of [ids], each into the
    next; the connections are listed newest first. *)
Fixpoint seriesFrom (input : NodeId) (ids : list NodeId) : list Connection :=
  match ids with
  | [] => []
  | i :: rest => seriesFrom i rest ++ [mkConnection input i 0%nat 0%nat]
  end.

(* ================================================================= *)
(** ** What a network of gains computes *)

(** A mono signal, sample by sample. *)
Definition Signal : Type := nat -> R.
Definition silence : Signal := fun _ => 0.
Definition mix (a b : Signal) : Signal := fun n => a n + b n.
Definition scale (g : R) (a : Signal) : Signal := fun n => g * a n.

Definition nodeAt (ctx : OfflineAudioContext) (id : NodeId)
  : option AudioNode :=
  option_map snd (find (fun p => Nat.eqb (fst p) id) (nodes ctx)).

(** The connections into input [inp] of node [id]. *)
Definition inputsOf (ctx : OfflineAudioContext) (id : NodeId) (inp : nat)
  : list Connection :=
  filter (fun c => Nat.eqb (conn_to c) id && Nat.eqb (conn_input c) inp)
         (connections ctx).

Section GainGraph.
(** What a biquad of a given type, frequency, Q and gain does to a signal
    is left open. *)
Variable biquad : BiquadType -> R -> R -> R -> Signal -> Signal.
(** The channels of the signal that enters the channel splitter. *)
Variable channels : nat -> Signal.
Variable ctx : OfflineAudioContext.

(** The signal at output [port] of node [id] in the mono network behind a
    channel splitter, as WebAudio defines it: output [k] of the splitter
    carries channel [k], the connections into an input are summed, a gain
    node multiplies that sum by its gain and a biquad filters it.  Other
    nodes have no reading here ([None]); [fuel] bounds the depth of the
    walk upstream. *)
Fixpoint signalAt (fuel : nat) (id : NodeId) (port : nat) : option Signal :=
  match fuel with
  | O => None
  | S fuel' =>
      let mixed :=
        fold_right
          (fun c acc =>
             match signalAt fuel' (conn_from c) (conn_output c), acc with
             | Some s, Some a => Some (mix s a)
             | _, _ => None
             end)
          (Some silence) (inputsOf ctx id 0) in
      match nodeAt ctx id with
      | Some (ChannelSplitterNode n) =>
          if (port <? n)%nat then Some (channels port) else None
      | Some (GainNode g) => option_map (scale g) mixed
      | Some (BiquadFilterNode type f q g) =>
          option_map (biquad type f q g) mixed
      | _ => None
      end
  end.

(** The signal that arrives at input [inp] of the channel merger, that is,
    channel [inp] of what the merger puts out. *)
Definition mergerInput (merger : NodeId) (inp : nat) : option Signal :=
  fold_right
    (fun c acc =>
       match signalAt (List.length (nodes ctx)) (conn_from c) (conn_output c),
             acc with
       | Some s, Some a => Some (mix s a)
       | _, _ => None
       end)
    (Some silence) (inputsOf ctx merger inp).
End GainGraph.

(* ================================================================= *)
(** ** Render requests of the component *)

(** A call of [applyPremiumProcessing] suspended at its [await]: the
    locals it will read when it resumes.  [file] is the value of the state
    variable the closure of the call captured, [true] for a loaded file. *)
Record RenderCall : Type := mkRenderCall {
  token : nat;
  presetKey : PresetKey;
  file : bool
}.

(** The state [applyPremiumProcessing] reads and writes: the token
    counter, three pieces of component state, the presets handed to
    [createTrackMutation.mutate] so far (newest first) and the calls that
    are suspended. *)
Record Component : Type := mkComponent {
  renderTokenRef : nat;
  processedBuffer : option AudioBuffer;
  selectedPreset : PresetKey;
  isProcessing : bool;
  mutations : list PresetKey;
  suspended : list RenderCall
}.

(** The component as it is mounted. *)
Definition mounted : Component := mkComponent 0 None deharsh false [] [].

(** [applyPremiumProcessing] up to its [await]. *)
Definition beginRender (key : PresetKey) (hasFile : bool) (c : Component)
  : Component :=
  let token := S (renderTokenRef c) in
  mkComponent token (processedBuffer c) (selectedPreset c) true (mutations c)
              (mkRenderCall token key hasFile :: suspended c).

Definition dropCall (call : RenderCall) (calls : list RenderCall)
  : list RenderCall :=
  filter (fun x => negb (Nat.eqb (token x) (token call))) calls.

(** [applyPremiumProcessing] from its [await] on; [outcome] is the buffer
    [processAudioPremium] resolved with, or [None] if it threw. *)
Definition resumeRender (call : RenderCall) (outcome : option AudioBuffer)
           (c : Component) : Component :=
  let rest := dropCall call (suspended c) in
  match outcome with
  | Some processed =>
      if negb (Nat.eqb (token call) (renderTokenRef c)) then
        mkComponent (renderTokenRef c) (processedBuffer c) (selectedPreset c)
                    false (mutations c) rest
      else
        mkComponent (renderTokenRef c) (Some processed) (presetKey call)
                    false
                    (if file call then presetKey call :: mutations c
                     else mutations c)
                    rest
  | None =>
      mkComponent (renderTokenRef c) (processedBuffer c) (selectedPreset c)
                  false (mutations c) rest
  end.

(** The states the component can be in, as far as rendering goes. *)
Inductive reachable : Component -> Prop :=
  | reach_mounted : reachable mounted
  | reach_begin (c : Component) (key : PresetKey) (hasFile : bool) :
      reachable c -> reachable (beginRender key hasFile c)
  | reach_resume (c : Component) (call : RenderCall)
                 (outcome : option AudioBuffer) :
      reachable c -> In call (suspended c) ->
      reachable (resumeRender call outcome c).

(* ================================================================= *)
(** ** Sample buffers used in the examples *)

(** Two seconds of mono silence at 44.1 kHz. *)
Definition silentClip : AudioBuffer :=
  mkBuffer 44100 1 (Z.to_nat 88200) (fun _ _ => 0).

(** One channel holding a single full-scale sample. *)
Definition oneSampleClip : AudioBuffer :=
  mkBuffer 44100 1 1 (fun _ _ => 1).

(** One channel holding the two samples 0.5 and -1. *)
Definition twoSampleClip : AudioBuffer :=
  mkBuffer 44100 1 2 (fun _ i => match i with O => 0.5 | S _ => -1 end).

(* ================================================================= *)
(** * Properties *)

(** ** Arithmetic of [clamp] *)

Lemma clamp_range (v lo hi : R) : lo <= hi -> lo <= clamp v lo hi <= hi.
Proof.
  intros H. unfold clamp, Rmax, Rmin.
  repeat (destruct (Rle_dec _ _)); lra.
Qed.

Lemma clamp_id (v lo hi : R) : lo <= v <= hi -> clamp v lo hi = v.
Proof.
  intros H. unfold clamp, Rmax, Rmin.
  repeat (destruct (Rle_dec _ _)); lra.
Qed.

Lemma clamp_mono (v w lo hi : R) : v <= w -> clamp v lo hi <= clamp w lo hi.
Proof.
  intros H. unfold clamp, Rmax, Rmin.
  repeat (destruct (Rle_dec _ _)); lra.
Qed.

Ltac split_clamp :=
  unfold clamp, Rmax, Rmin; repeat (destruct (Rle_dec _ _)); try lra.

(** ** Slider-derived band ratios *)

Lemma sliderRatios_unfold (s : R) :
  sliderRatios s =
  let comp := clamp s 1.5 7 in
  [lowRatio comp; lowMidRatio comp; midRatio comp; highMidRatio comp;
   highRatio comp].
Proof. reflexivity. Qed.

Lemma ratios_ordered (comp : R) :
  1.5 <= comp <= 7 ->
  lowRatio comp >= lowMidRatio comp /\
  lowMidRatio comp >= midRatio comp /\
  midRatio comp >= highMidRatio comp /\
  highMidRatio comp >= highRatio comp.
Proof.
  intros H. unfold lowRatio, lowMidRatio, midRatio, highMidRatio, highRatio.
  repeat split; split_clamp.
Qed.

(** C8: the slider-derived ratios fall from the low band to the high band,
    and each of them grows (weakly) with the compression slider. *)
Theorem slider_ratios_ordered_and_monotone (s1 s2 : R) :
  s1 <= s2 ->
  nonIncreasing (sliderRatios s1) /\
  Forall2 Rle (sliderRatios s1) (sliderRatios s2).
Proof.
  intros Hle. rewrite !sliderRatios_unfold. cbv zeta. split.
  - assert (Hc : 1.5 <= clamp s1 1.5 7 <= 7) by (apply clamp_range; lra).
    destruct (ratios_ordered _ Hc) as (H1 & H2 & H3 & H4).
    simpl. tauto.
  - assert (Hm : clamp s1 1.5 7 <= clamp s2 1.5 7) by (apply clamp_mono; lra).
    unfold lowRatio, lowMidRatio, midRatio, highMidRatio, highRatio.
    repeat (apply Forall2_cons; [apply clamp_mono; lra|]).
    apply Forall2_nil.
Qed.

Lemma slider_ratios_ordered_and_monotone_witness :
  2 <= 5 /\
  nonIncreasing (sliderRatios 2) /\
  Forall2 Rle (sliderRatios 2) (sliderRatios 5).
Proof.
  split; [lra | apply (slider_ratios_ordered_and_monotone 2 5); lra].
Defined.

(** ** Invariants of the built DSP spec *)

Lemma sliderMultiband_ratios (s : R) :
  Forall (ratioWithin 1 20) (bandList (sliderMultiband s)).
Proof.
  unfold sliderMultiband, bandList, ratioWithin. cbn [bands].
  unfold lowRatio, lowMidRatio, midRatio, highMidRatio, highRatio.
  repeat (apply Forall_cons;
          [ cbn [ratio]; match goal with
            | |- _ <= clamp ?v ?lo ?hi <= _ =>
                let H := fresh in
                assert (H : lo <= clamp v lo hi <= hi) by (apply clamp_range; lra);
                lra
            end | ]).
  apply Forall_nil.
Qed.

Lemma sliderEq_gains (s : Settings) : Forall (gainWithin (-6) 6) (sliderEq s).
Proof.
  unfold sliderEq, gainWithin.
  repeat (apply Forall_cons; [cbn; try exact I; try (apply clamp_range; lra) | ]).
  apply Forall_nil.
Qed.

Lemma exact_multiband_ratios (key : PresetKey) (e : PartialPresetDSP)
      (m : MultibandSpec) :
  EXACT_PRESETS key = Some e -> p_multiband e = Some m ->
  Forall (ratioWithin 1 20) (bandList m) /\ xoversHz m = MB_XOVERS.
Proof.
  intros He Hm.
  destruct key; cbn in He; inversion He; subst e; cbn in Hm;
    inversion Hm; subst m; (split; [ | reflexivity ]);
    unfold bandList, ratioWithin; cbn [bands];
    repeat (apply Forall_cons; [ cbn [ratio]; lra | ]); apply Forall_nil.
Qed.

Lemma built_multiband (key : PresetKey) :
  Forall (ratioWithin 1 20) (bandList (multiband (buildDSPForPreset key))) /\
  xoversHz (multiband (buildDSPForPreset key)) = MB_XOVERS.
Proof.
  unfold buildDSPForPreset.
  destruct (EXACT_PRESETS key) as [e|] eqn:He; cbn [multiband].
  - destruct (p_multiband e) as [m|] eqn:Hm; cbn [nullish].
    + exact (exact_multiband_ratios key e m He Hm).
    + split; [apply sliderMultiband_ratios | reflexivity].
  - split; [apply sliderMultiband_ratios | reflexivity].
Qed.

Lemma built_ceiling (key : PresetKey) :
  ceilingDbFS (output (buildDSPForPreset key)) = -0.5.
Proof. destruct key; cbn; lra. Qed.

(** C3: for every preset of the catalogue the built spec has strictly
    increasing crossovers, band ratios within [1, 20], a ceiling at or below
    0 dBFS and, unless the EQ is hand-authored, EQ gains within [-6, +6] dB. *)
Theorem buildDSPForPreset_invariants (key : PresetKey) :
  strictlyIncreasing (xoverList (multiband (buildDSPForPreset key))) /\
  Forall (ratioWithin 1 20) (bandList (multiband (buildDSPForPreset key))) /\
  ceilingDbFS (output (buildDSPForPreset key)) <= 0 /\
  (if hasEqOverride key then True
   else Forall (gainWithin (-6) 6) (eq_ (buildDSPForPreset key))).
Proof.
  destruct (built_multiband key) as [Hr Hx].
  repeat split.
  - unfold xoverList. rewrite Hx. cbn. lra.
  - exact Hr.
  - rewrite built_ceiling. lra.
  - unfold hasEqOverride, buildDSPForPreset.
    destruct (EXACT_PRESETS key) as [e|]; cbn [eq_].
    + destruct (p_eq e); [exact I | apply sliderEq_gains].
    + apply sliderEq_gains.
Qed.

(** ** True peak *)

Section FoldBounds.
Context {A : Type} (g : R -> A -> R).
Hypothesis g_ge : forall p x, p <= g p x.

Lemma fold_step_ge (l : list A) (p : R) : p <= fold_left g l p.
Proof.
  revert p. induction l as [|x l IH]; intros p; simpl.
  - lra.
  - specialize (IH (g p x)). specialize (g_ge p x). lra.
Qed.

Lemma fold_step_reach (l : list A) (p v : R) (x : A) :
  In x l -> (forall q, v <= g q x) -> v <= fold_left g l p.
Proof.
  revert p. induction l as [|y l IH]; intros p Hin Hv; simpl.
  - destruct Hin.
  - destruct Hin as [-> | Hin].
    + pose proof (fold_step_ge l (g p x)). specialize (Hv p). lra.
    + apply IH; assumption.
Qed.
End FoldBounds.

Lemma fold_step_le {A : Type} (g : R -> A -> R) (u : R) (l : list A) (p : R) :
  p <= u -> (forall q x, In x l -> q <= u -> g q x <= u) ->
  fold_left g l p <= u.
Proof.
  revert p. induction l as [|y l IH]; intros p Hp Hg; simpl.
  - exact Hp.
  - apply IH.
    + apply Hg; [left; reflexivity | exact Hp].
    + intros q x Hin. apply Hg. right. exact Hin.
Qed.

Lemma ceiling_above (x : R) : x <= IZR (ceiling x) < x + 1.
Proof.
  unfold ceiling, floor. rewrite opp_IZR.
  destruct (base_Int_part (- x)) as [Hlo Hhi]. lra.
Qed.

(** The loop variable runs over exactly the whole numbers from 1 that are
    below the factor. *)
Lemma oversampleSteps_spec (oversample : R) (k : nat) :
  In k (oversampleSteps oversample) <-> (1 <= k)%nat /\ INR k < oversample.
Proof.
  unfold oversampleSteps. rewrite in_seq.
  destruct (ceiling_above oversample) as [Hlo Hhi].
  rewrite INR_IZR_INZ. split.
  - intros [H1 H2]. split; [exact H1|].
    assert (Hk : (Z.of_nat k <= ceiling oversample - 1)%Z) by lia.
    apply IZR_le in Hk. rewrite minus_IZR in Hk. lra.
  - intros [H1 H2]. split; [exact H1|].
    assert (Hk : (Z.of_nat k < ceiling oversample)%Z)
      by (apply lt_IZR; lra).
    lia.
Qed.

(** A point on the segment between two samples is no larger in magnitude
    than the larger end point. *)
Lemma interpolate_bound (oversample : R) (k : nat) (a b : R) :
  (1 <= k)%nat -> INR k < oversample ->
  Rabs (interpolate oversample a b k) <= Rmax (Rabs a) (Rabs b).
Proof.
  intros Hk1 Hlt. unfold interpolate.
  assert (Hk : 0 <= INR k) by apply pos_INR.
  assert (Hos : 0 < oversample) by lra.
  set (t := INR k / oversample).
  assert (Ht : 0 <= t <= 1).
  { unfold t. split.
    - apply Rmult_le_pos; [lra | left; apply Rinv_0_lt_compat; lra].
    - apply Rmult_le_reg_r with oversample; [lra|].
      unfold Rdiv. rewrite Rmult_assoc, Rinv_l; lra. }
  clearbody t.
  assert (Ha : Rabs a <= Rmax (Rabs a) (Rabs b)) by apply Rmax_l.
  assert (Hb : Rabs b <= Rmax (Rabs a) (Rabs b)) by apply Rmax_r.
  set (m := Rmax (Rabs a) (Rabs b)) in *. clearbody m.
  unfold Rabs in *.
  destruct (Rcase_abs a), (Rcase_abs b), (Rcase_abs (a + (b - a) * t)); nra.
Qed.

Lemma peakOversampled_ge (os a b p : R) :
  p <= peakOversampled os a b p.
Proof.
  unfold peakOversampled. apply fold_step_ge. intros; apply Rmax_l.
Qed.

Lemma peakOversampled_le (os a b p u : R) :
  p <= u -> Rabs a <= u -> Rabs b <= u -> peakOversampled os a b p <= u.
Proof.
  intros Hp Ha Hb. unfold peakOversampled. apply fold_step_le; [exact Hp|].
  intros q k Hin Hq. apply oversampleSteps_spec in Hin.
  destruct Hin as [Hk1 Hk2].
  apply Rmax_lub; [exact Hq|].
  eapply Rle_trans; [apply interpolate_bound; assumption|].
  apply Rmax_lub; assumption.
Qed.

Lemma peakPair_ge (os : R) (data : nat -> R) (p : R) (i : nat) :
  p <= peakPair os data p i /\
  Rabs (data i) <= peakPair os data p i /\
  Rabs (data (i + 1)%nat) <= peakPair os data p i.
Proof.
  unfold peakPair. cbv zeta.
  pose proof (peakOversampled_ge os (data i) (data (i + 1)%nat)
                (Rmax (Rmax p (Rabs (data i))) (Rabs (data (i + 1)%nat)))) as H.
  pose proof (Rmax_l (Rmax p (Rabs (data i))) (Rabs (data (i + 1)%nat))).
  pose proof (Rmax_r (Rmax p (Rabs (data i))) (Rabs (data (i + 1)%nat))).
  pose proof (Rmax_l p (Rabs (data i))).
  pose proof (Rmax_r p (Rabs (data i))).
  repeat split; lra.
Qed.

Lemma peakPair_le (os : R) (data : nat -> R) (p u : R) (i : nat) :
  p <= u -> Rabs (data i) <= u -> Rabs (data (i + 1)%nat) <= u ->
  peakPair os data p i <= u.
Proof.
  intros Hp Ha Hb. unfold peakPair. cbv zeta.
  apply peakOversampled_le; try assumption.
  repeat apply Rmax_lub; assumption.
Qed.

Lemma peakChannel_ge (os : R) (len : nat) (data : nat -> R) (p : R) :
  p <= peakChannel os len data p.
Proof.
  unfold peakChannel. apply fold_step_ge. intros q i. apply peakPair_ge.
Qed.

Lemma peakChannel_covers (os : R) (len : nat) (data : nat -> R) (p : R) (j : nat) :
  (2 <= len)%nat -> (j < len)%nat ->
  Rabs (data j) <= peakChannel os len data p.
Proof.
  intros Hlen Hj. unfold peakChannel.
  destruct (Nat.eq_dec j (len - 1)) as [Hlast | Hinner].
  - apply fold_step_reach with (x := (j - 1)%nat).
    + intros q i. apply peakPair_ge.
    + apply in_seq. lia.
    + intros q. replace j with (j - 1 + 1)%nat at 1 by lia. apply peakPair_ge.
  - apply fold_step_reach with (x := j).
    + intros q i. apply peakPair_ge.
    + apply in_seq. lia.
    + intros q. apply peakPair_ge.
Qed.

Lemma peakChannel_le (os : R) (len : nat) (data : nat -> R) (p u : R) :
  p <= u -> (forall j, (j < len)%nat -> Rabs (data j) <= u) ->
  peakChannel os len data p <= u.
Proof.
  intros Hp Hd. unfold peakChannel. apply fold_step_le; [exact Hp|].
  intros q i Hin Hq. apply in_seq in Hin.
  apply peakPair_le; [exact Hq | apply Hd; lia | apply Hd; lia].
Qed.

Lemma truePeakLinear_nonneg (buffer : AudioBuffer) (os : R) :
  0 <= truePeakLinear buffer os.
Proof.
  unfold truePeakLinear. cbv zeta. apply fold_step_ge.
  intros q c. apply peakChannel_ge.
Qed.

Lemma truePeakLinear_covers (buffer : AudioBuffer) (os : R) (c j : nat) :
  (2 <= length_ buffer)%nat ->
  (c < numberOfChannels buffer)%nat -> (j < length_ buffer)%nat ->
  Rabs (getChannelData buffer c j) <= truePeakLinear buffer os.
Proof.
  intros Hlen Hc Hj. unfold truePeakLinear. cbv zeta.
  apply fold_step_reach with (x := c).
  - intros q i. apply peakChannel_ge.
  - apply in_seq. lia.
  - intros q. apply peakChannel_covers; assumption.
Qed.

Lemma truePeakLinear_le (buffer : AudioBuffer) (os : R) (u : R) :
  0 <= u ->
  (forall c j, (c < numberOfChannels buffer)%nat -> (j < length_ buffer)%nat ->
               Rabs (getChannelData buffer c j) <= u) ->
  truePeakLinear buffer os <= u.
Proof.
  intros Hu Hd. unfold truePeakLinear. cbv zeta.
  apply fold_step_le; [exact Hu|].
  intros q c Hin Hq. apply in_seq in Hin.
  apply peakChannel_le; [exact Hq|]. intros j Hj. apply Hd; lia.
Qed.

Lemma Rmax_list_nonneg (l : list R) : 0 <= Rmax_list l.
Proof. unfold Rmax_list. apply fold_step_ge. intros; apply Rmax_l. Qed.

Lemma Rmax_list_ge (l : list R) (x : R) : In x l -> x <= Rmax_list l.
Proof.
  intros Hin. unfold Rmax_list. apply fold_step_reach with (x := x).
  - intros; apply Rmax_l.
  - exact Hin.
  - intros; apply Rmax_r.
Qed.

Lemma Rmax_list_le (l : list R) (u : R) :
  0 <= u -> (forall x, In x l -> x <= u) -> Rmax_list l <= u.
Proof.
  intros Hu Hl. unfold Rmax_list. apply fold_step_le; [exact Hu|].
  intros q x Hin Hq. apply Rmax_lub; [exact Hq | apply Hl; exact Hin].
Qed.

Lemma in_allSamples (buffer : AudioBuffer) (x : R) :
  In x (map Rabs (allSamples buffer)) <->
  exists c j, (c < numberOfChannels buffer)%nat /\ (j < length_ buffer)%nat /\
              x = Rabs (getChannelData buffer c j).
Proof.
  unfold allSamples. rewrite in_map_iff. split.
  - intros (y & Hy & Hin). apply in_flat_map in Hin.
    destruct Hin as (c & Hc & Hin). apply in_map_iff in Hin.
    destruct Hin as (j & Hj & Hin). apply in_seq in Hc. apply in_seq in Hin.
    exists c, j. subst. repeat split; lia.
  - intros (c & j & Hc & Hj & ->). exists (getChannelData buffer c j).
    split; [reflexivity|]. apply in_flat_map. exists c. split.
    + apply in_seq. lia.
    + apply in_map. apply in_seq. lia.
Qed.

Lemma truePeakLinear_is_samplePeak (buffer : AudioBuffer) (os : R) :
  (2 <= length_ buffer)%nat ->
  truePeakLinear buffer os = samplePeak buffer.
Proof.
  intros Hlen. apply Rle_antisym.
  - apply truePeakLinear_le; [apply Rmax_list_nonneg|].
    intros c j Hc Hj. apply Rmax_list_ge. apply in_allSamples.
    exists c, j. auto.
  - apply Rmax_list_le; [apply truePeakLinear_nonneg|].
    intros x Hin. apply in_allSamples in Hin.
    destruct Hin as (c & j & Hc & Hj & ->).
    apply truePeakLinear_covers; assumption.
Qed.

(** C9: on a buffer with at least two samples per channel the true-peak
    estimate is [20*log10(max(1e-12, m))] for [m] the plain sample peak,
    whatever the oversampling factor: interpolated points never raise it. *)
Theorem estimateTruePeakDbFS_is_sample_peak (buffer : AudioBuffer)
        (oversample : R) :
  (2 <= length_ buffer)%nat -> 1 <= oversample ->
  estimateTruePeakDbFS buffer oversample
  = 20 * log10 (Rmax 1e-12 (samplePeak buffer)).
Proof.
  intros Hlen _. unfold estimateTruePeakDbFS, linToDb.
  rewrite truePeakLinear_is_samplePeak by exact Hlen. reflexivity.
Qed.

Lemma estimateTruePeakDbFS_is_sample_peak_witness :
  (2 <= length_ twoSampleClip)%nat /\ 1 <= 4 /\
  estimateTruePeakDbFS twoSampleClip 4
  = 20 * log10 (Rmax 1e-12 (samplePeak twoSampleClip)).
Proof.
  split; [cbn; lia | split; [lra |]].
  apply (estimateTruePeakDbFS_is_sample_peak twoSampleClip 4);
    [cbn; lia | lra].
Defined.

Example twoSampleClip_peak : truePeakLinear twoSampleClip 4 = 1.
Proof.
  rewrite truePeakLinear_is_samplePeak by (cbn; lia).
  unfold samplePeak, Rmax_list, allSamples. cbn.
  rewrite (Rabs_right 0.5) by lra. rewrite (Rabs_left (-1)) by lra.
  rewrite (Rmax_right 0 0.5) by lra. rewrite Rmax_right by lra. lra.
Qed.

(** ** Integrated loudness *)

Lemma ln10_pos : 0 < ln 10.
Proof. rewrite <- ln_1. apply ln_increasing; lra. Qed.

Lemma log10_floor_value : log10 1e-12 = -12.
Proof.
  unfold log10.
  replace (1e-12) with (/ (10 ^ 12)) by lra.
  rewrite ln_Rinv by (apply pow_lt; lra).
  rewrite ln_pow by lra. simpl INR.
  pose proof ln10_pos. field. lra.
Qed.

Lemma blocksFrom_Forall (len blockLen step : nat) (Hs : (1 <= step)%nat)
      (lufsAt : nat -> R) (P : R -> Prop) (start : nat) :
  (forall s, (s + blockLen <= len)%nat -> P (lufsAt s)) ->
  Forall P (blocksFrom len blockLen step Hs lufsAt start).
Proof.
  intros HP. funelim (blocksFrom len blockLen step Hs lufsAt start).
  - constructor; auto.
  - constructor.
Qed.

Lemma blocksFrom_nonempty (len blockLen step : nat) (Hs : (1 <= step)%nat)
      (lufsAt : nat -> R) :
  (blockLen <= len)%nat ->
  blocksFrom len blockLen step Hs lufsAt 0 <> [].
Proof.
  intros Hle. simp blocksFrom.
  destruct (le_dec (0 + blockLen) len) as [Hd | Hd]; cbn.
  - discriminate.
  - exfalso. lia.
Qed.

Lemma blocksFrom_empty (len blockLen step : nat) (Hs : (1 <= step)%nat)
      (lufsAt : nat -> R) :
  (len < blockLen)%nat ->
  blocksFrom len blockLen step Hs lufsAt 0 = [].
Proof.
  intros Hlt. simp blocksFrom.
  destruct (le_dec (0 + blockLen) len) as [Hd | Hd]; cbn.
  - exfalso. lia.
  - reflexivity.
Qed.

Lemma sumSquares_zero (data : nat -> R) (start blockLen : nat) :
  (forall i, (start <= i < start + blockLen)%nat -> data i = 0) ->
  sumSquares data start blockLen = 0.
Proof.
  intros Hz. unfold sumSquares.
  assert (H : forall l acc, (forall i, In i l -> data i = 0) ->
                            fold_left (fun s i => let x := data i in s + x * x) l acc = acc).
  { induction l as [|i l IH]; intros acc Hl; simpl.
    - reflexivity.
    - rewrite IH by (intros; apply Hl; right; assumption).
      rewrite (Hl i) by (left; reflexivity). lra. }
  apply H. intros i Hin. apply in_seq in Hin. apply Hz. lia.
Qed.

Lemma zero_div (x : R) : 0 / x = 0.
Proof. unfold Rdiv. apply Rmult_0_l. Qed.

Lemma blockLUFS_silent (buffer : AudioBuffer) (blockLen start : nat) :
  allZero buffer -> (start + blockLen <= length_ buffer)%nat ->
  blockLUFS buffer blockLen start = -120.691.
Proof.
  intros Hz Hin. unfold blockLUFS. cbv zeta.
  assert (Hsum : forall l acc,
             (forall c, In c l -> (c < numberOfChannels buffer)%nat) ->
             fold_left (fun sum c =>
                          sum + sumSquares (getChannelData buffer c) start blockLen
                                / INR blockLen) l acc = acc).
  { induction l as [|c l IH]; intros acc Hl; simpl.
    - reflexivity.
    - rewrite IH by (intros; apply Hl; right; assumption).
      rewrite sumSquares_zero.
      + rewrite zero_div. lra.
      + intros i Hi. apply Hz; [apply Hl; left; reflexivity | lia]. }
  rewrite Hsum by (intros c Hc; apply in_seq in Hc; lia).
  rewrite zero_div.
  rewrite Rmax_left by lra. rewrite log10_floor_value. lra.
Qed.

Lemma absGated_all_out (blocks : list R) :
  Forall (fun l => l <= absGateLUFS) blocks -> absGatedBlocks blocks = [].
Proof.
  unfold absGatedBlocks. induction 1 as [|l blocks Hl _ IH]; simpl.
  - reflexivity.
  - unfold gtb at 1. destruct (Rgt_dec l absGateLUFS); [lra | exact IH].
Qed.

Lemma silent_blocks_gated_out (buffer : AudioBuffer) :
  allZero buffer -> absGatedBlocks (loudnessBlocks buffer) = [].
Proof.
  intros Hz. apply absGated_all_out. unfold loudnessBlocks. cbv zeta.
  apply blocksFrom_Forall. intros s Hs.
  rewrite blockLUFS_silent by assumption. unfold absGateLUFS. lra.
Qed.

(** C4: the gating cascade never fails.  Without a complete block the
    result is [-Infinity]; when the absolute gate removes every block it is
    the gate value -70; when the relative gate removes every remaining block
    it is the ungated estimate (in real arithmetic the loudest block always
    passes that gate, see [relative_gate_keeps_a_block]); a silent buffer
    holding at least one complete block yields -70. *)
Theorem integratedLUFS_R128Gated_cascade (buffer : AudioBuffer) :
  (loudnessBlocks buffer = [] ->
   integratedLUFS_R128Gated buffer = NegInfinity) /\
  (loudnessBlocks buffer <> [] ->
   absGatedBlocks (loudnessBlocks buffer) = [] ->
   integratedLUFS_R128Gated buffer = Finite (-70)) /\
  (absGatedBlocks (loudnessBlocks buffer) <> [] ->
   relGatedBlocks (absGatedBlocks (loudnessBlocks buffer)) = [] ->
   integratedLUFS_R128Gated buffer
   = Finite (ungatedLUFSOf (absGatedBlocks (loudnessBlocks buffer)))) /\
  (allZero buffer ->
   (blockLenOf (sampleRate buffer) <= length_ buffer)%nat ->
   integratedLUFS_R128Gated buffer = Finite (-70)).
Proof.
  assert (Habs : loudnessBlocks buffer <> [] ->
                 absGatedBlocks (loudnessBlocks buffer) = [] ->
                 integratedLUFS_R128Gated buffer = Finite (-70)).
  { unfold integratedLUFS_R128Gated, gateBlocks.
    intros Hne Hgate. destruct (loudnessBlocks buffer) as [|l ls] eqn:Hb.
    - contradiction.
    - cbv zeta. rewrite Hgate. unfold absGateLUFS. f_equal. lra. }
  repeat split.
  - unfold integratedLUFS_R128Gated. intros ->. reflexivity.
  - exact Habs.
  - unfold integratedLUFS_R128Gated, gateBlocks.
    intros Hne Hrel. destruct (loudnessBlocks buffer) as [|l ls] eqn:Hb.
    + exfalso. apply Hne. reflexivity.
    + cbv zeta. destruct (absGatedBlocks (l :: ls)) as [|a as_] eqn:Ha.
      * contradiction.
      * rewrite Hrel. reflexivity.
  - intros Hz Hlen. apply Habs.
    + unfold loudnessBlocks. cbv zeta. apply blocksFrom_nonempty. exact Hlen.
    + apply silent_blocks_gated_out. exact Hz.
Qed.

(** *** The relative gate always keeps a block

    In real arithmetic the loudest block is at least as loud as the
    ungated estimate, so the second fallback of the cascade is never
    taken. *)

Lemma log10_pow10 (x : R) : log10 (pow10 x) = x.
Proof.
  unfold log10, pow10. rewrite ln_exp. pose proof ln10_pos. field. lra.
Qed.

Lemma pow10_pos (x : R) : 0 < pow10 x.
Proof. unfold pow10. apply exp_pos. Qed.

Lemma pow10_mono (x y : R) : x <= y -> pow10 x <= pow10 y.
Proof.
  intros Hxy. unfold pow10. pose proof ln10_pos as Hl.
  destruct (Rle_lt_or_eq_dec x y Hxy) as [Hlt | ->]; [|lra].
  left. apply exp_increasing. nra.
Qed.

Lemma log10_mono (x y : R) : 0 < x -> x <= y -> log10 x <= log10 y.
Proof.
  intros Hx Hxy. unfold log10. pose proof ln10_pos as Hl.
  assert (Hln : ln x <= ln y).
  { destruct (Rle_lt_or_eq_dec x y Hxy) as [Hlt | ->]; [|lra].
    left. apply ln_increasing; assumption. }
  unfold Rdiv. apply Rmult_le_compat_r; [|exact Hln].
  left. apply Rinv_0_lt_compat. exact Hl.
Qed.

Lemma loudest_block (l : list R) :
  l <> [] -> exists m, In m l /\ forall x, In x l -> x <= m.
Proof.
  induction l as [|a l IH]; intros Hne; [contradiction|].
  destruct l as [|b l].
  - exists a. split; [left; reflexivity|].
    intros x [<- | []]. lra.
  - destruct IH as (m & Hin & Hmax); [discriminate|].
    destruct (Rle_dec a m) as [Ham | Ham].
    + exists m. split; [right; exact Hin|].
      intros x [<- | Hx]; [exact Ham | apply Hmax; exact Hx].
    + exists a. split; [left; reflexivity|].
      intros x [<- | Hx]; [lra | specialize (Hmax x Hx); lra].
Qed.

Lemma sum_bounded (l : list R) (u acc : R) :
  (forall x, In x l -> x <= u) ->
  fold_left Rplus l acc <= acc + INR (List.length l) * u.
Proof.
  revert acc. induction l as [|a l IH]; intros acc Hu.
  - cbn. lra.
  - cbn [fold_left]. change (List.length (a :: l)) with (S (List.length l)).
    rewrite S_INR.
    specialize (IH (acc + a) (fun x Hx => Hu x (or_intror Hx))).
    specialize (Hu a (or_introl eq_refl)). lra.
Qed.

Lemma meanSquare_below_loudest (l : list R) (m : R) :
  l <> [] -> (forall x, In x l -> x <= m) ->
  lufsBlocksToMeanSquare l <= pow10 ((m + 0.691) / 10).
Proof.
  intros Hne Hmax. unfold lufsBlocksToMeanSquare. cbv zeta.
  set (ms := map (fun x => pow10 ((x + 0.691) / 10)) l).
  assert (Hlen : 0 < INR (List.length ms)).
  { unfold ms. rewrite length_map. apply lt_0_INR.
    destruct l; [contradiction | cbn; lia]. }
  assert (Hsum : fold_left Rplus ms 0
                 <= 0 + INR (List.length ms) * pow10 ((m + 0.691) / 10)).
  { apply sum_bounded. intros x Hx. unfold ms in Hx.
    apply in_map_iff in Hx. destruct Hx as (y & <- & Hy).
    apply pow10_mono. specialize (Hmax y Hy). lra. }
  apply Rmult_le_reg_r with (INR (List.length ms)); [exact Hlen|].
  unfold Rdiv. rewrite Rmult_assoc, Rinv_l by lra. lra.
Qed.

Lemma relative_gate_keeps_a_block (blocks : list R) :
  absGatedBlocks blocks <> [] ->
  relGatedBlocks (absGatedBlocks blocks) <> [].
Proof.
  intros Hne.
  destruct (loudest_block _ Hne) as (m & Hin & Hmax).
  assert (Hm : m > absGateLUFS).
  { unfold absGatedBlocks in Hin. apply filter_In in Hin.
    destruct Hin as [_ Hg]. unfold gtb in Hg.
    destruct (Rgt_dec m absGateLUFS); [assumption | discriminate]. }
  pose proof (meanSquare_below_loudest _ m Hne Hmax) as Hmean.
  assert (Hgate : m > ungatedLUFSOf (absGatedBlocks blocks) - 10.0).
  { unfold ungatedLUFSOf, lufsOfMeanSquare.
    set (mean := lufsBlocksToMeanSquare (absGatedBlocks blocks)) in *.
    unfold Rmax. destruct (Rle_dec 1e-12 mean) as [Hbig | Hsmall].
    - assert (Hlog : log10 mean <= (m + 0.691) / 10).
      { rewrite <- (log10_pow10 ((m + 0.691) / 10)).
        apply log10_mono; [lra | exact Hmean]. }
      lra.
    - rewrite log10_floor_value. unfold absGateLUFS in Hm. lra. }
  intros Hempty.
  assert (Hkept : In m (relGatedBlocks (absGatedBlocks blocks))).
  { unfold relGatedBlocks. cbv zeta. apply filter_In. split; [exact Hin|].
    unfold gtb. destruct (Rgt_dec _ _); [reflexivity | contradiction]. }
  rewrite Hempty in Hkept. destruct Hkept.
Qed.

(** ** The trim rule of the two-pass processor *)

(** C1: whatever the preset and whatever pass 1 measured, the trim handed to
    pass 2 is the result of three steps in this order: first the difference
    of the target and the measured loudness; then, if the measured peak plus
    that difference is above the ceiling, the smaller of the difference and
    the ceiling minus the peak; finally the larger of the clamp minimum and
    (the smaller of the clamp maximum and that value).  For a loudness of
    [-Infinity] the first step gives [+Infinity], the condition holds and the
    second step gives the ceiling minus the peak; for [+Infinity] the first
    step gives [-Infinity] and the clamp gives its minimum.  This is the trim
    [processAudioPremium] renders the final pass with. *)
Theorem processAudioPremium_trim_order
        (startRendering : OfflineAudioContext -> AudioBuffer)
        (audioBuffer : AudioBuffer) (presetKey : PresetKey)
        (useAutoTune : bool) (measuredTruePeak : R) :
  let dsp := buildDSPForPreset presetKey in
  let target := targetIntegratedLUFS (output dsp) in
  let ceilingDb := ceilingDbFS (output dsp) in
  let lo := tc_min (trimClampDb (output dsp)) in
  let hi := tc_max (trimClampDb (output dsp)) in
  (forall measuredIntegratedLUFS : R,
      let first := target - measuredIntegratedLUFS in
      let second :=
        if Rgt_dec (measuredTruePeak + first) ceilingDb
        then Rmin first (ceilingDb - measuredTruePeak)
        else first in
      computeTrimDb (output dsp) (Finite measuredIntegratedLUFS)
                    measuredTruePeak
      = Rmax lo (Rmin hi second)) /\
  computeTrimDb (output dsp) NegInfinity measuredTruePeak
  = Rmax lo (Rmin hi (ceilingDb - measuredTruePeak)) /\
  computeTrimDb (output dsp) PosInfinity measuredTruePeak = lo /\
  processAudioPremium startRendering audioBuffer presetKey useAutoTune
  = renderPresetGraph startRendering audioBuffer dsp useAutoTune final
      (computeTrimDb (output dsp)
         (fst (analysisPass startRendering audioBuffer presetKey useAutoTune))
         (snd (analysisPass startRendering audioBuffer presetKey
                            useAutoTune))).
Proof.
  cbv zeta. split; [| split; [| split]].
  - intros measuredIntegratedLUFS.
    destruct (output (buildDSPForPreset presetKey))
      as [target ceilingDb lim [lo hi]].
    unfold computeTrimDb, xsub, xadd, xgt, xmin, xclamp, gtb, clamp.
    cbn [targetIntegratedLUFS ceilingDbFS trimClampDb tc_min tc_max].
    destruct (Rgt_dec (measuredTruePeak + (target - measuredIntegratedLUFS))
                      ceilingDb); reflexivity.
  - destruct (output (buildDSPForPreset presetKey))
      as [target ceilingDb lim [lo hi]].
    unfold computeTrimDb, xsub, xadd, xgt, xmin, xclamp, clamp.
    cbn [targetIntegratedLUFS ceilingDbFS trimClampDb tc_min tc_max].
    reflexivity.
  - destruct (output (buildDSPForPreset presetKey))
      as [target ceilingDb lim [lo hi]].
    unfold computeTrimDb, xsub, xadd, xgt, xmin, xclamp.
    cbn [targetIntegratedLUFS ceilingDbFS trimClampDb tc_min tc_max].
    reflexivity.
  - unfold processAudioPremium, premiumTrimDb.
    destruct (analysisPass startRendering audioBuffer presetKey useAutoTune)
      as [integrated tpPre].
    reflexivity.
Qed.

Ltac split_trim :=
  unfold computeTrimDb, peakSafetyTriggered, xsub, xadd, xgt, xmin, xclamp,
    gtb, clamp, Rmax, Rmin in *;
  cbn in *;
  repeat (match goal with
          | |- context [Rgt_dec ?a ?b] => destruct (Rgt_dec a b)
          | |- context [Rle_dec ?a ?b] => destruct (Rle_dec a b)
          | H : context [Rgt_dec ?a ?b] |- _ => destruct (Rgt_dec a b)
          | H : context [Rle_dec ?a ?b] |- _ => destruct (Rle_dec a b)
          end);
  try discriminate; try lra.

Lemma trim_below_ceiling (out : OutputSpec) (integrated : xnum) (tpPre : R) :
  tpPre + tc_min (trimClampDb out) <= ceilingDbFS out ->
  peakSafetyTriggered out integrated tpPre ->
  tpPre + computeTrimDb out integrated tpPre <= ceilingDbFS out.
Proof.
  destruct out as [target ceiling lim [lo hi]].
  intros Hmin Htrig. destruct integrated; split_trim.
Qed.

Lemma trim_pinned_at_clamp_minimum (out : OutputSpec) (integrated : xnum)
      (tpPre : R) :
  tc_min (trimClampDb out) <= tc_max (trimClampDb out) ->
  ceilingDbFS out < tpPre + tc_min (trimClampDb out) ->
  peakSafetyTriggered out integrated tpPre ->
  computeTrimDb out integrated tpPre = tc_min (trimClampDb out).
Proof.
  destruct out as [target ceiling lim [lo hi]].
  intros Hrange Hmin Htrig. destruct integrated; split_trim.
Qed.

(** C2, as amended: when the peak-safety condition fires and the attenuation
    it asks for is within the trim clamp (the measured peak lowered by the
    clamp minimum is at or below the ceiling), the predicted post-trim peak
    is at or below the ceiling. *)
Theorem trim_respects_ceiling_within_clamp (presetKey : PresetKey)
        (measuredIntegratedLUFS : xnum) (measuredTruePeak : R) :
  let out := output (buildDSPForPreset presetKey) in
  peakSafetyTriggered out measuredIntegratedLUFS measuredTruePeak ->
  measuredTruePeak + tc_min (trimClampDb out) <= ceilingDbFS out ->
  measuredTruePeak + computeTrimDb out measuredIntegratedLUFS measuredTruePeak
  <= ceilingDbFS out.
Proof.
  cbv zeta. intros Htrig Hmin. apply trim_below_ceiling; assumption.
Qed.

Lemma trim_respects_ceiling_within_clamp_witness :
  peakSafetyTriggered (output (buildDSPForPreset deharsh)) (Finite (-14)) 10 /\
  10 + tc_min (trimClampDb (output (buildDSPForPreset deharsh)))
  <= ceilingDbFS (output (buildDSPForPreset deharsh)) /\
  10 + computeTrimDb (output (buildDSPForPreset deharsh)) (Finite (-14)) 10
  <= ceilingDbFS (output (buildDSPForPreset deharsh)).
Proof.
  assert (Ht : peakSafetyTriggered (output (buildDSPForPreset deharsh))
                                   (Finite (-14)) 10).
  { unfold peakSafetyTriggered. cbn. unfold gtb.
    destruct (Rgt_dec _ _); [reflexivity | lra]. }
  assert (Hm : 10 + tc_min (trimClampDb (output (buildDSPForPreset deharsh)))
               <= ceilingDbFS (output (buildDSPForPreset deharsh))).
  { cbn. lra. }
  split; [exact Ht | split; [exact Hm |]].
  exact (trim_respects_ceiling_within_clamp deharsh (Finite (-14)) 10 Ht Hm).
Defined.

(** C2 as stated fails: with preset "deharsh", a measured loudness of
    -14 LUFS and a measured true peak of +30 dBFS the peak-safety condition
    fires, the override asks for -30.5 dB, the clamp raises it to -24 dB and
    the predicted peak is +6 dBFS, above the -0.5 dBFS ceiling. *)
Lemma trim_clamp_defeats_peak_safety :
  ~ (forall (presetKey : PresetKey) (measuredIntegratedLUFS : xnum)
            (measuredTruePeak : R),
        let out := output (buildDSPForPreset presetKey) in
        peakSafetyTriggered out measuredIntegratedLUFS measuredTruePeak ->
        measuredTruePeak
        + computeTrimDb out measuredIntegratedLUFS measuredTruePeak
        <= ceilingDbFS out).
Proof.
  intros H. specialize (H deharsh (Finite (-14)) 30). cbv zeta in H.
  assert (Ht : peakSafetyTriggered (output (buildDSPForPreset deharsh))
                                   (Finite (-14)) 30).
  { unfold peakSafetyTriggered. cbn. unfold gtb.
    destruct (Rgt_dec _ _); [reflexivity | lra]. }
  specialize (H Ht).
  assert (Hv : computeTrimDb (output (buildDSPForPreset deharsh))
                             (Finite (-14)) 30 = -24).
  { apply (trim_pinned_at_clamp_minimum (output (buildDSPForPreset deharsh)));
      [cbn; lra | cbn; lra | exact Ht]. }
  rewrite Hv in H. cbn in H. lra.
Qed.

Lemma floor_IZR (z : Z) (r : R) : r - 1 < IZR z <= r -> floor r = z.
Proof. intros H. unfold floor. symmetry. apply Int_part_spec. exact H. Qed.

Lemma silentClip_blockLen : blockLenOf (sampleRate silentClip) = Z.to_nat 17640.
Proof.
  unfold blockLenOf. cbn [sampleRate silentClip].
  rewrite (floor_IZR 17640) by lra. reflexivity.
Qed.

Lemma integratedLUFS_R128Gated_cascade_witness :
  allZero silentClip /\
  (blockLenOf (sampleRate silentClip) <= length_ silentClip)%nat /\
  integratedLUFS_R128Gated silentClip = Finite (-70).
Proof.
  assert (Hz : allZero silentClip) by (intros c i _ _; reflexivity).
  assert (Hl : (blockLenOf (sampleRate silentClip) <= length_ silentClip)%nat).
  { rewrite silentClip_blockLen. cbn [length_ silentClip].
    apply Z2Nat.inj_le; lia. }
  split; [exact Hz | split; [exact Hl |]].
  exact (proj2 (proj2 (proj2 (integratedLUFS_R128Gated_cascade silentClip)))
           Hz Hl).
Defined.

(** ** Graph construction *)

Lemma bind_run {A B : Type} (m : Build A) (k : A -> Build B)
      (ctx : OfflineAudioContext) :
  bind m k ctx = k (fst (m ctx)) (snd (m ctx)).
Proof. unfold bind. destruct (m ctx); reflexivity. Qed.

Lemma extends_refl (ctx : OfflineAudioContext) : extends ctx ctx.
Proof. split; apply incl_refl. Qed.

Lemma extends_trans (a b c : OfflineAudioContext) :
  extends a b -> extends b c -> extends a c.
Proof. intros [H1 H2] [H3 H4]. split; eapply incl_tran; eassumption. Qed.

Lemma connected_extends (ctx ctx' : OfflineAudioContext) (a b : NodeId) :
  extends ctx ctx' -> connected ctx a b -> connected ctx' a b.
Proof.
  intros [_ Hc] (o & i & Hin). exists o, i. apply Hc. exact Hin.
Qed.

Lemma reaches_extends (ctx ctx' : OfflineAudioContext) (a b : NodeId) :
  extends ctx ctx' -> reaches ctx a b -> reaches ctx' a b.
Proof.
  intros He Hr. induction Hr as [a | a b c Hab _ IH].
  - apply reaches_here.
  - eapply reaches_next; [eapply connected_extends; eassumption | exact IH].
Qed.

Lemma reaches_trans (ctx : OfflineAudioContext) (a b c : NodeId) :
  reaches ctx a b -> reaches ctx b c -> reaches ctx a c.
Proof.
  intros Hab Hbc. induction Hab as [a | a b' b Hab' _ IH].
  - exact Hbc.
  - eapply reaches_next; [exact Hab' | apply IH; exact Hbc].
Qed.

Lemma hasNode_extends (ctx ctx' : OfflineAudioContext) (id : NodeId)
      (n : AudioNode) :
  extends ctx ctx' -> hasNode ctx id n -> hasNode ctx' id n.
Proof. intros [Hn _] Hin. apply Hn. exact Hin. Qed.

Lemma reaches_edge (ctx : OfflineAudioContext) (a b : NodeId) :
  connected ctx a b -> reaches ctx a b.
Proof. intros H. eapply reaches_next; [exact H | apply reaches_here]. Qed.

Lemma wiresFrom_ret (input : NodeId) : wiresFrom input (ret input).
Proof. intros ctx. split; [apply extends_refl | apply reaches_here]. Qed.

Lemma wiresFrom_bind (input : NodeId) (m : Build NodeId)
      (k : NodeId -> Build NodeId) :
  wiresFrom input m -> (forall a, wiresFrom a (k a)) ->
  wiresFrom input (bind m k).
Proof.
  intros Hm Hk ctx. rewrite bind_run.
  destruct (Hm ctx) as [He Hr].
  destruct (Hk (fst (m ctx)) (snd (m ctx))) as [He' Hr'].
  split.
  - eapply extends_trans; eassumption.
  - eapply reaches_trans; [eapply reaches_extends; eassumption | exact Hr'].
Qed.

(** Goals about a graph that has been built out completely. *)
Ltac run_build :=
  cbv beta iota zeta delta
      [bind ret createNode connect connectAt createGain createBiquadFilter
       createDynamicsCompressor forEachBand compressBand fst snd
       nodes connections next_id ctx_numberOfChannels ctx_length
       ctx_sampleRate].
Ltac read_graph := cbn [In nodes connections fst snd].
Ltac pick := idtac; ((left; reflexivity) + (right; pick)).
Ltac kept := idtac; first [assumption | right; kept].
Ltac grown := split; intros x Hx; read_graph; kept.
Ltac hop := eapply reaches_next; [eexists; eexists; read_graph; pick | ].
Ltac path := idtac; solve [apply reaches_here | hop; path].

Lemma applyFilter_wires (chain : NodeId) (spec : EQNodeSpec) :
  wiresFrom chain (applyFilter chain spec).
Proof.
  intros ctx. destruct spec as [f [[|]|] q | f g q | f g q | f g q]; run_build;
    (split; [grown | path]).
Qed.

Lemma applyFilterChain_wires (eq : list EQNodeSpec) (input : NodeId) :
  wiresFrom input (applyFilterChain input eq).
Proof.
  revert input. induction eq as [|spec rest IH]; intros input; cbn.
  - apply wiresFrom_ret.
  - apply wiresFrom_bind; [apply applyFilter_wires | intros a; apply IH].
Qed.

Lemma applyWarmth_wires (eqOut : NodeId) (dsp : PresetDSP) (auto : bool) :
  wiresFrom eqOut (applyWarmth eqOut dsp auto).
Proof.
  intros ctx. unfold applyWarmth. destruct (wantsWarmth dsp auto); run_build.
  - split; [grown | path].
  - split; [apply extends_refl | apply reaches_here].
Qed.

Lemma applyWarmth_node (eqOut : NodeId) (dsp : PresetDSP) (auto : bool)
      (ctx : OfflineAudioContext) :
  wantsWarmth dsp auto = true ->
  hasNode (snd (applyWarmth eqOut dsp auto ctx))
          (fst (applyWarmth eqOut dsp auto ctx)) warmthTrim /\
  connected (snd (applyWarmth eqOut dsp auto ctx)) eqOut
            (fst (applyWarmth eqOut dsp auto ctx)).
Proof.
  intros Hw. unfold applyWarmth. rewrite Hw. run_build. split.
  - left. reflexivity.
  - exists 0%nat, 0%nat. left. reflexivity.
Qed.

Lemma applyWarmth_skipped (eqOut : NodeId) (dsp : PresetDSP) (auto : bool)
      (ctx : OfflineAudioContext) :
  wantsWarmth dsp auto = false ->
  applyWarmth eqOut dsp auto ctx = (eqOut, ctx).
Proof. intros Hw. unfold applyWarmth. rewrite Hw. reflexivity. Qed.

Lemma applyBusComp_wires (input : NodeId) (spec : option BusCompSpec) :
  wiresFrom input (applyBusComp input spec).
Proof.
  intros ctx. unfold applyBusComp.
  destruct spec as [spec|]; [destruct (enabled spec);
                             [destruct (truthy (sidechainHpfHz spec))|] |];
    run_build; (split; [grown | path]).
Qed.

Lemma applyMultiband_wires (input : NodeId) (spec : MultibandSpec) :
  wiresFrom input (applyMultiband input spec).
Proof.
  intros ctx. unfold applyMultiband, createBandSplit, bandList.
  destruct spec as [[[[x1 x2] x3] x4] [[[[b1 b2] b3] b4] b5]].
  cbn [xoversHz bands]. run_build.
  split; [grown | path].
Qed.

Lemma applyStereoShaping_wires (input : NodeId) (stereo : StereoSpec)
      (numChannels : nat) :
  wiresFrom input (applyStereoShaping input stereo numChannels).
Proof.
  intros ctx. unfold applyStereoShaping.
  destruct (numChannels <? 2)%nat.
  - split; [apply extends_refl | apply reaches_here].
  - destruct (truthy (monoBelowHz stereo)), (widthHighOnly stereo) as [w|];
      run_build; try destruct (gtb _ _); run_build; (split; [grown | path]).
Qed.

Lemma applyLimiterAndCeiling_wires (input : NodeId) (out : OutputSpec)
      (trimDb : R) :
  wiresFrom input (applyLimiterAndCeiling input out trimDb).
Proof.
  intros ctx. unfold applyLimiterAndCeiling. run_build.
  split; [grown | path].
Qed.

Lemma output_stage_wires (stereoOut : NodeId) (out : OutputSpec)
      (mode : RenderMode) (trimDb : R) (ctx : OfflineAudioContext) :
  let m := match mode with
           | preOutput => connect stereoOut destination
           | final =>
               finalOut <- applyLimiterAndCeiling stereoOut out trimDb ;;
               connect finalOut destination
           end in
  extends ctx (snd (m ctx)) /\ reaches (snd (m ctx)) stereoOut destination.
Proof.
  cbv zeta. destruct mode; unfold applyLimiterAndCeiling; run_build;
    (split; [grown | path]).
Qed.

Lemma buildPresetGraph_warmth (audioBuffer : AudioBuffer) (dsp : PresetDSP)
      (useAutoTune : bool) (mode : RenderMode) (trimDb : R)
      (ctx0 : OfflineAudioContext) :
  wantsWarmth dsp useAutoTune = true ->
  warmthInChain (buildPresetGraph audioBuffer dsp useAutoTune mode trimDb ctx0).
Proof.
  intros Hw. unfold warmthInChain, buildPresetGraph.
  rewrite bind_run.
  set (src := fst (createNode (BufferSourceNode audioBuffer) ctx0)).
  set (c1 := snd (createNode (BufferSourceNode audioBuffer) ctx0)).
  rewrite bind_run.
  set (hpf := fst (createBiquadFilter highpass 30 0.707 0 c1)).
  set (c2 := snd (createBiquadFilter highpass 30 0.707 0 c1)).
  rewrite bind_run.
  set (c3 := snd (connect src hpf c2)).
  assert (H3 : connected c3 src hpf).
  { exists 0%nat, 0%nat. left. reflexivity. }
  rewrite bind_run.
  destruct (applyFilterChain_wires (eq_ dsp) hpf c3) as [E4 R4].
  set (eqOut := fst (applyFilterChain hpf (eq_ dsp) c3)) in *.
  set (c4 := snd (applyFilterChain hpf (eq_ dsp) c3)) in *.
  rewrite bind_run.
  destruct (applyWarmth_wires eqOut dsp useAutoTune c4) as [E5 R5].
  destruct (applyWarmth_node eqOut dsp useAutoTune c4 Hw) as [N5 _].
  set (tuned := fst (applyWarmth eqOut dsp useAutoTune c4)) in *.
  set (c5 := snd (applyWarmth eqOut dsp useAutoTune c4)) in *.
  rewrite bind_run.
  destruct (applyBusComp_wires tuned (busComp dsp) c5) as [E6 R6].
  set (busOut := fst (applyBusComp tuned (busComp dsp) c5)) in *.
  set (c6 := snd (applyBusComp tuned (busComp dsp) c5)) in *.
  rewrite bind_run.
  destruct (applyMultiband_wires busOut (multiband dsp) c6) as [E7 R7].
  set (mbOut := fst (applyMultiband busOut (multiband dsp) c6)) in *.
  set (c7 := snd (applyMultiband busOut (multiband dsp) c6)) in *.
  rewrite bind_run.
  destruct (applyStereoShaping_wires mbOut (stereo dsp)
              (numberOfChannels audioBuffer) c7) as [E8 R8].
  set (stereoOut := fst (applyStereoShaping mbOut (stereo dsp)
                           (numberOfChannels audioBuffer) c7)) in *.
  set (c8 := snd (applyStereoShaping mbOut (stereo dsp)
                    (numberOfChannels audioBuffer) c7)) in *.
  rewrite bind_run.
  destruct (output_stage_wires stereoOut (output dsp) mode trimDb c8)
    as [E9 R9].
  match type of E9 with extends _ ?c => set (c9 := c) in * end.
  unfold ret. cbn [fst snd].
  assert (E59 : extends c5 c9).
  { repeat (eapply extends_trans; [eassumption|]). apply extends_refl. }
  exists tuned. repeat split.
  - eapply hasNode_extends; [exact E59 | exact N5].
  - eapply reaches_extends; [exact E59|].
    eapply reaches_next.
    + eapply connected_extends; [|exact H3].
      eapply extends_trans; eassumption.
    + eapply reaches_trans; [eapply reaches_extends; [exact E5 | exact R4]|].
      exact R5.
  - eapply reaches_trans.
    { eapply reaches_extends; [|exact R6].
      repeat (eapply extends_trans; [eassumption|]). apply extends_refl. }
    eapply reaches_trans.
    { eapply reaches_extends; [|exact R7].
      repeat (eapply extends_trans; [eassumption|]). apply extends_refl. }
    eapply reaches_trans.
    { eapply reaches_extends; [exact E9 | exact R8]. }
    exact R9.
Qed.

(** C10: whichever the preset, with the auto-tune flag set the wired graph
    of either pass carries a peaking filter at 400 Hz with Q 1.2 and a gain
    of -2 dB, the warmth node, on the path from the source to the
    destination; in general the node is there whenever the spec is tagged
    "bigcappo" or the flag is set. *)
Theorem renderPresetGraph_warmth (audioBuffer : AudioBuffer)
        (mode : RenderMode) (trimDb : R) :
  (forall presetKey : PresetKey,
      let r := presetContext audioBuffer (buildDSPForPreset presetKey) true
                             mode trimDb in
      exists w,
        hasNode (snd r) w (BiquadFilterNode peaking 400 1.2 (-2))
        /\ reaches (snd r) (fst r) w
        /\ reaches (snd r) w destination) /\
  (forall (dsp : PresetDSP) (useAutoTune : bool),
      special dsp = Some "bigcappo"%string \/ useAutoTune = true ->
      let r := presetContext audioBuffer dsp useAutoTune mode trimDb in
      exists w,
        hasNode (snd r) w (BiquadFilterNode peaking 400 1.2 (-2))
        /\ reaches (snd r) (fst r) w
        /\ reaches (snd r) w destination).
Proof.
  assert (H : forall dsp useAutoTune,
             special dsp = Some "bigcappo"%string \/ useAutoTune = true ->
             warmthInChain
               (presetContext audioBuffer dsp useAutoTune mode trimDb)).
  { intros dsp useAutoTune Hcond. unfold presetContext.
    apply buildPresetGraph_warmth. unfold wantsWarmth.
    destruct Hcond as [Hs | Ha].
    - rewrite Hs. reflexivity.
    - rewrite Ha. apply orb_true_r. }
  split.
  - intros presetKey. cbv zeta.
    destruct (H (buildDSPForPreset presetKey) true (or_intror eq_refl))
      as [w [Hnode [Hin Hout]]].
    exists w. split; [exact Hnode | split; [exact Hin | exact Hout]].
  - intros dsp useAutoTune Hcond. cbv zeta.
    destruct (H dsp useAutoTune Hcond) as [w [Hnode [Hin Hout]]].
    exists w. split; [exact Hnode | split; [exact Hin | exact Hout]].
Qed.

Lemma renderPresetGraph_warmth_witness :
  (special (buildDSPForPreset bigcappo) = Some "bigcappo"%string
   \/ false = true) /\
  exists w,
    hasNode (snd (presetContext twoSampleClip (buildDSPForPreset bigcappo)
                                false final 0))
            w (BiquadFilterNode peaking 400 1.2 (-2))
    /\ reaches (snd (presetContext twoSampleClip (buildDSPForPreset bigcappo)
                                   false final 0))
               (fst (presetContext twoSampleClip (buildDSPForPreset bigcappo)
                                   false final 0)) w
    /\ reaches (snd (presetContext twoSampleClip (buildDSPForPreset bigcappo)
                                   false final 0)) w destination.
Proof.
  assert (Hs : special (buildDSPForPreset bigcappo) = Some "bigcappo"%string
               \/ false = true) by (left; reflexivity).
  split; [exact Hs |].
  exact (proj2 (renderPresetGraph_warmth twoSampleClip final 0)
               (buildDSPForPreset bigcappo) false Hs).
Defined.

(** Without the tag and without the flag no node is added at this point:
    the EQ output feeds the next stage directly. *)
Lemma warmth_absent_otherwise (eqOut : NodeId) (dsp : PresetDSP)
      (ctx : OfflineAudioContext) :
  special dsp <> Some "bigcappo"%string ->
  applyWarmth eqOut dsp false ctx = (eqOut, ctx).
Proof.
  intros Hs. apply applyWarmth_skipped. unfold wantsWarmth.
  destruct (special dsp) as [t|]; [|reflexivity].
  rewrite orb_false_r. apply String.eqb_neq. intros ->. apply Hs. reflexivity.
Qed.

(** ** WAV export *)

Lemma store_at_end (pre suf : list Z) (x v : Z) :
  store (pre ++ x :: suf) (List.length pre) v = Some (pre ++ v :: suf).
Proof.
  induction pre as [|p pre IH]; cbn.
  - reflexivity.
  - rewrite IH. reflexivity.
Qed.

Lemma setUint16_at_end (pre suf : list Z) (a b v : Z) :
  setUint16 (pre ++ a :: b :: suf) (List.length pre) v
  = Some (pre ++ le16 v ++ suf).
Proof.
  unfold setUint16, le16. cbv zeta. rewrite store_at_end. cbn [obind].
  replace (List.length pre + 1)%nat with (List.length (pre ++ [(v mod 65536 mod 256)%Z]))
    by (rewrite length_app; reflexivity).
  replace (pre ++ (v mod 65536 mod 256)%Z :: b :: suf)
    with ((pre ++ [(v mod 65536 mod 256)%Z]) ++ b :: suf)
    by (rewrite <- app_assoc; reflexivity).
  rewrite store_at_end. rewrite <- app_assoc. reflexivity.
Qed.

Lemma le16_length (v : Z) : List.length (le16 v) = 2%nat.
Proof. reflexivity. Qed.

Lemma writeFrame_channels (buffer : AudioBuffer) (i : nat) (chs : list nat)
      (pre : list Z) (rest : nat) :
  fold_left (writeSample buffer i) chs
            (Some (pre ++ repeat 0%Z (2 * List.length chs + rest),
                   List.length pre))
  = Some (pre ++ flat_map (fun channel =>
                             le16 (pcm16 (getChannelData buffer channel i))) chs
              ++ repeat 0%Z rest,
          (List.length pre + 2 * List.length chs)%nat).
Proof.
  revert pre. induction chs as [|ch chs IH]; intros pre.
  - cbn. rewrite Nat.add_0_r. reflexivity.
  - cbn [fold_left List.length flat_map].
    replace (2 * S (List.length chs) + rest)%nat
      with (S (S (2 * List.length chs + rest))) by lia.
    cbn [repeat]. unfold writeSample at 2. cbn [obind].
    unfold setInt16. rewrite setUint16_at_end. cbn [obind].
    fold (pcm16 (getChannelData buffer ch i)).
    replace (List.length pre + 2)%nat
      with (List.length (pre ++ le16 (pcm16 (getChannelData buffer ch i))))
      by (rewrite length_app, le16_length; reflexivity).
    rewrite app_assoc. rewrite IH.
    rewrite length_app, le16_length, <- !app_assoc.
    f_equal. f_equal. lia.
Qed.

Lemma le16_run_length (f : nat -> Z) (chs : list nat) :
  List.length (flat_map (fun channel => le16 (f channel)) chs)
  = (2 * List.length chs)%nat.
Proof.
  induction chs as [|ch chs IH].
  - reflexivity.
  - cbn [flat_map]. rewrite length_app, le16_length, IH. cbn [List.length]. lia.
Qed.

Lemma frameBytes_length (buffer : AudioBuffer) (i : nat) :
  List.length (frameBytes buffer i) = (2 * numberOfChannels buffer)%nat.
Proof.
  unfold frameBytes.
  rewrite (le16_run_length (fun channel => pcm16 (getChannelData buffer channel i))).
  rewrite length_seq. reflexivity.
Qed.

Lemma frames_length (buffer : AudioBuffer) (frames : list nat) :
  List.length (flat_map (frameBytes buffer) frames)
  = (2 * numberOfChannels buffer * List.length frames)%nat.
Proof.
  induction frames as [|i frames IH].
  - cbn. lia.
  - cbn [flat_map]. rewrite length_app, frameBytes_length, IH.
    cbn [List.length]. lia.
Qed.

Lemma writeFrame_frames (buffer : AudioBuffer) (frames : list nat)
      (pre : list Z) (rest : nat) :
  fold_left (writeFrame buffer) frames
            (Some (pre ++ repeat 0%Z (2 * numberOfChannels buffer
                                      * List.length frames + rest),
                   List.length pre))
  = Some (pre ++ flat_map (frameBytes buffer) frames ++ repeat 0%Z rest,
          (List.length pre
           + 2 * numberOfChannels buffer * List.length frames)%nat).
Proof.
  revert pre. induction frames as [|i frames IH]; intros pre.
  - cbn. rewrite Nat.mul_0_r, Nat.add_0_r. reflexivity.
  - cbn [fold_left List.length flat_map]. unfold writeFrame at 2.
    replace (2 * numberOfChannels buffer * S (List.length frames) + rest)%nat
      with (2 * List.length (seq 0 (numberOfChannels buffer))
            + (2 * numberOfChannels buffer * List.length frames + rest))%nat
      by (rewrite length_seq; lia).
    rewrite writeFrame_channels. fold (frameBytes buffer i).
    rewrite length_seq.
    replace (List.length pre + 2 * numberOfChannels buffer)%nat
      with (List.length (pre ++ frameBytes buffer i))
      by (rewrite length_app, frameBytes_length; reflexivity).
    rewrite app_assoc. rewrite IH.
    rewrite length_app, frameBytes_length, <- !app_assoc.
    f_equal. f_equal. lia.
Qed.

Lemma wavHeader_length (buffer : AudioBuffer) :
  List.length (wavHeader buffer) = 44%nat.
Proof. reflexivity. Qed.

Lemma wavData_length (buffer : AudioBuffer) :
  List.length (wavData buffer)
  = (2 * numberOfChannels buffer * length_ buffer)%nat.
Proof. unfold wavData. rewrite frames_length, length_seq. reflexivity. Qed.

Lemma charCodes :
  tagOf "RIFF" = [82; 73; 70; 70]%Z /\ tagOf "WAVE" = [87; 65; 86; 69]%Z /\
  tagOf "fmt " = [102; 109; 116; 32]%Z /\ tagOf "data" = [100; 97; 116; 97]%Z.
Proof. repeat split; reflexivity. Qed.

(** The writer never leaves the buffer, and what it writes is the header
    followed by the interleaved samples. *)
Lemma bufferToWav_closed_form (buffer : AudioBuffer) :
  bufferToWav buffer = Some (wavHeader buffer ++ wavData buffer).
Proof.
  unfold bufferToWav. cbv zeta.
  set (n := (length_ buffer * numberOfChannels buffer * 2)%nat).
  replace (repeat 0%Z (44 + n)) with (repeat 0%Z 44 ++ repeat 0%Z n)
    by (rewrite <- repeat_app; reflexivity).
  cbn [repeat app].
  cbv beta iota zeta delta [writeString setUint8 setUint16 setUint32 store
                            obind option_map Nat.add].
  repeat match goal with
         | |- context [(charCodeAt ?c mod 256)%Z] =>
             let v := eval vm_compute in (charCodeAt c mod 256)%Z in
             change (charCodeAt c mod 256)%Z with v
         end.
  match goal with
  | |- context [fold_left _ _ (Some (?v, _))] =>
      replace v with (wavHeader buffer ++ repeat 0%Z n)
  end.
  2:{ unfold wavHeader, le32, le16. fold n.
      destruct charCodes as (-> & -> & -> & ->). reflexivity. }
  change 44%nat with (List.length (wavHeader buffer)).
  replace n with (2 * numberOfChannels buffer
                  * List.length (seq 0 (length_ buffer)) + 0)%nat
    by (rewrite length_seq; unfold n; lia).
  rewrite writeFrame_frames. cbn [fst repeat]. rewrite app_nil_r.
  reflexivity.
Qed.

Lemma truncate_bounds_pos (x : R) (n : Z) :
  0 <= x <= IZR n -> (0 <= truncate x <= n)%Z.
Proof.
  intros [H0 Hn]. unfold truncate. destruct (Rle_dec 0 x) as [_|Hneg]; [|lra].
  destruct (base_Int_part x) as [Hlo Hhi]. split.
  - assert (H : IZR (-1) < IZR (Int_part x)) by (simpl; lra).
    apply lt_IZR in H. lia.
  - apply le_IZR. lra.
Qed.

Lemma truncate_bounds_neg (x : R) (n : Z) :
  IZR (- n) <= x < 0 -> (- n <= truncate x <= 0)%Z.
Proof.
  intros [Hn H0]. unfold truncate. destruct (Rle_dec 0 x) as [Hpos|_]; [lra|].
  rewrite opp_IZR in Hn.
  destruct (base_Int_part (- x)) as [Hlo Hhi].
  assert (H1 : IZR (-1) < IZR (Int_part (- x))) by (simpl; lra).
  apply lt_IZR in H1.
  assert (H2 : (Int_part (- x) <= n)%Z) by (apply le_IZR; lra).
  lia.
Qed.

Lemma truncate_zero : truncate 0 = 0%Z.
Proof.
  pose proof (truncate_bounds_pos 0 0) as H.
  assert (0 <= 0 <= IZR 0) by lra. specialize (H H0). lia.
Qed.

Lemma scaleSample_range (x : R) :
  (-32768 <= scaleSample x < 0) \/ (0 <= scaleSample x <= 32767).
Proof.
  unfold scaleSample. cbv zeta.
  assert (Hc : -1 <= Rmax (-1) (Rmin 1 x) <= 1).
  { unfold Rmax, Rmin. repeat (destruct (Rle_dec _ _)); lra. }
  destruct (Rlt_dec (Rmax (-1) (Rmin 1 x)) 0); [left | right]; lra.
Qed.

Lemma pcm16_range (x : R) : (-32768 <= pcm16 x <= 32767)%Z.
Proof.
  unfold pcm16. destruct (scaleSample_range x) as [Hneg | Hpos].
  - pose proof (truncate_bounds_neg (scaleSample x) 32768) as H.
    assert (Hh : IZR (- 32768) <= scaleSample x < 0) by (simpl; lra).
    specialize (H Hh). lia.
  - pose proof (truncate_bounds_pos (scaleSample x) 32767) as H.
    assert (Hh : 0 <= scaleSample x <= IZR 32767) by lra.
    specialize (H Hh). lia.
Qed.

Lemma pcm16_silence : pcm16 0 = 0%Z.
Proof.
  unfold pcm16, scaleSample. cbv zeta.
  rewrite Rmin_right by lra. rewrite Rmax_right by lra.
  destruct (Rlt_dec 0 0); [lra|].
  rewrite Rmult_0_l. apply truncate_zero.
Qed.

Lemma pcm16_full_scale (x : R) :
  (x <= -1 -> pcm16 x = (-32768)%Z) /\ (1 <= x -> pcm16 x = 32767%Z).
Proof.
  unfold pcm16, scaleSample, truncate. cbv zeta. split; intros Hx.
  - rewrite Rmin_right by lra. rewrite Rmax_left by lra.
    destruct (Rlt_dec (-1) 0); [|lra].
    destruct (Rle_dec 0 (-1 * 32768)); [lra|].
    replace (- (-1 * 32768)) with (IZR 32768) by lra.
    rewrite <- (Int_part_spec (IZR 32768) 32768) by lra. reflexivity.
  - rewrite Rmin_left by lra. rewrite Rmax_right by lra.
    destruct (Rlt_dec 1 0); [lra|].
    destruct (Rle_dec 0 (1 * 32767)); [|lra].
    replace (1 * 32767) with (IZR 32767) by lra.
    rewrite <- (Int_part_spec (IZR 32767) 32767) by lra. reflexivity.
Qed.

Lemma truncate_IZR (z : Z) : (0 <= z)%Z -> truncate (IZR z) = z.
Proof.
  intros Hz. unfold truncate.
  destruct (Rle_dec 0 (IZR z)) as [_|Hn]; [| exfalso; apply Hn; apply IZR_le; lia].
  symmetry. apply Int_part_spec. lra.
Qed.

Lemma le32_value (v : Z) :
  (nth 0 (le32 v) 0 + 256 * nth 1 (le32 v) 0 + 65536 * nth 2 (le32 v) 0
   + 16777216 * nth 3 (le32 v) 0 = v mod 4294967296)%Z.
Proof.
  unfold le32. cbv zeta. cbn [nth].
  pose proof (Z.mod_pos_bound v 4294967296 ltac:(lia)) as Hu.
  set (u := (v mod 4294967296)%Z) in *. clearbody u.
  Z.div_mod_to_equations. lia.
Qed.

Lemma le16_value (v : Z) :
  (nth 0 (le16 v) 0 + 256 * nth 1 (le16 v) 0 = v mod 65536)%Z.
Proof.
  unfold le16. cbv zeta. cbn [nth].
  pose proof (Z.mod_pos_bound v 65536 ltac:(lia)) as Hu.
  set (u := (v mod 65536)%Z) in *. clearbody u.
  Z.div_mod_to_equations. lia.
Qed.

Ltac header_field :=
  unfold getUint32, getUint16, byteAt; cbn [Nat.add];
  rewrite !app_nth1 by (rewrite wavHeader_length; lia);
  unfold wavHeader, tagOf;
  cbn [app map list_ascii_of_string nth].

Lemma field_riff_size (buffer : AudioBuffer) (data : list Z) :
  getUint32 (wavHeader buffer ++ data) 4
  = ((36 + Z.of_nat (length_ buffer * numberOfChannels buffer * 2))
     mod 4294967296)%Z.
Proof. header_field. apply le32_value. Qed.

Lemma field_data_length (buffer : AudioBuffer) (data : list Z) :
  getUint32 (wavHeader buffer ++ data) 40
  = (Z.of_nat (length_ buffer * numberOfChannels buffer * 2)
     mod 4294967296)%Z.
Proof. header_field. apply le32_value. Qed.

Lemma field_fmt_length (buffer : AudioBuffer) (data : list Z) :
  getUint32 (wavHeader buffer ++ data) 16 = 16%Z.
Proof. header_field. reflexivity. Qed.

Lemma field_format_tag (buffer : AudioBuffer) (data : list Z) :
  getUint16 (wavHeader buffer ++ data) 20 = 1%Z.
Proof. header_field. reflexivity. Qed.

Lemma field_channels (buffer : AudioBuffer) (data : list Z) :
  getUint16 (wavHeader buffer ++ data) 22
  = (Z.of_nat (numberOfChannels buffer) mod 65536)%Z.
Proof. header_field. apply le16_value. Qed.

Lemma field_sample_rate (buffer : AudioBuffer) (data : list Z) :
  getUint32 (wavHeader buffer ++ data) 24
  = (truncate (sampleRate buffer) mod 4294967296)%Z.
Proof. header_field. apply le32_value. Qed.

Lemma field_block_align (buffer : AudioBuffer) (data : list Z) :
  getUint16 (wavHeader buffer ++ data) 32
  = (Z.of_nat (numberOfChannels buffer * 2) mod 65536)%Z.
Proof. header_field. apply le16_value. Qed.

Lemma field_bits_per_sample (buffer : AudioBuffer) (data : list Z) :
  getUint16 (wavHeader buffer ++ data) 34 = 16%Z.
Proof. header_field. reflexivity. Qed.

Lemma field_tags (buffer : AudioBuffer) (data : list Z) :
  getTag (wavHeader buffer ++ data) 0 = tagOf "RIFF" /\
  getTag (wavHeader buffer ++ data) 8 = tagOf "WAVE" /\
  getTag (wavHeader buffer ++ data) 12 = tagOf "fmt " /\
  getTag (wavHeader buffer ++ data) 36 = tagOf "data".
Proof. repeat split; reflexivity. Qed.

(** Indexing into a concatenation of equally long chunks. *)
Lemma nth_chunks (w : nat) (f : nat -> list Z) :
  (forall j, List.length (f j) = w) ->
  forall (m a j d : nat), (j < m)%nat -> (d < w)%nat ->
    nth (w * j + d) (flat_map f (seq a m)) 0%Z = nth d (f (a + j)%nat) 0%Z.
Proof.
  intros Hw. induction m as [|m IH]; intros a j d Hj Hd.
  - lia.
  - cbn [seq flat_map]. destruct j as [|j].
    + rewrite Nat.mul_0_r, Nat.add_0_l, Nat.add_0_r.
      apply app_nth1. rewrite Hw. exact Hd.
    + rewrite app_nth2 by (rewrite Hw; lia). rewrite Hw.
      replace (w * S j + d - w)%nat with (w * j + d)%nat by lia.
      rewrite IH by lia. f_equal. f_equal. lia.
Qed.

Lemma wavData_byte (buffer : AudioBuffer) (i channel e : nat) :
  (i < length_ buffer)%nat -> (channel < numberOfChannels buffer)%nat ->
  (e < 2)%nat ->
  nth (2 * (i * numberOfChannels buffer + channel) + e) (wavData buffer) 0%Z
  = nth e (le16 (pcm16 (getChannelData buffer channel i))) 0%Z.
Proof.
  intros Hi Hc He. unfold wavData.
  replace (2 * (i * numberOfChannels buffer + channel) + e)%nat
    with (2 * numberOfChannels buffer * i + (2 * channel + e))%nat by lia.
  rewrite (nth_chunks (2 * numberOfChannels buffer) (frameBytes buffer)
                      (frameBytes_length buffer)) by lia.
  unfold frameBytes. cbn [Nat.add].
  rewrite (nth_chunks 2 (fun channel0 =>
                           le16 (pcm16 (getChannelData buffer channel0 i))))
    by (try lia; intros; apply le16_length).
  reflexivity.
Qed.

Lemma le16_signed (v : Z) :
  (-32768 <= v <= 32767)%Z ->
  (let u := (nth 0 (le16 v) 0 + 256 * nth 1 (le16 v) 0)%Z in
   if (u <? 32768)%Z then u else (u - 65536)%Z) = v.
Proof.
  intros Hv. cbv zeta. rewrite le16_value.
  destruct (Z.ltb_spec (v mod 65536) 32768) as [Hlt | Hge];
    Z.div_mod_to_equations; lia.
Qed.

Lemma sample_read (buffer : AudioBuffer) (i channel : nat) :
  (i < length_ buffer)%nat -> (channel < numberOfChannels buffer)%nat ->
  getInt16 (wavHeader buffer ++ wavData buffer) (sampleOffset buffer i channel)
  = pcm16 (getChannelData buffer channel i).
Proof.
  intros Hi Hc. unfold getInt16, getUint16, byteAt, sampleOffset.
  rewrite !app_nth2 by (rewrite wavHeader_length; lia).
  rewrite wavHeader_length.
  replace (44 + 2 * (i * numberOfChannels buffer + channel) - 44)%nat
    with (2 * (i * numberOfChannels buffer + channel) + 0)%nat by lia.
  replace (44 + 2 * (i * numberOfChannels buffer + channel) + 1 - 44)%nat
    with (2 * (i * numberOfChannels buffer + channel) + 1)%nat by lia.
  rewrite !wavData_byte by lia.
  apply le16_signed. apply pcm16_range.
Qed.

Lemma bufferToWav_length (buffer : AudioBuffer) :
  Z.of_nat (List.length (wavHeader buffer ++ wavData buffer))
  = (44 + dataLength buffer)%Z.
Proof.
  rewrite length_app, wavHeader_length, wavData_length. unfold dataLength. lia.
Qed.

Lemma dataLength_nat (buffer : AudioBuffer) :
  Z.of_nat (length_ buffer * numberOfChannels buffer * 2) = dataLength buffer.
Proof. unfold dataLength. lia. Qed.

Lemma pcm16_written_out (x : R) :
  pcm16 x
  = if Rlt_dec (Rmax (-1) (Rmin 1 x)) 0
    then (- Int_part (- (Rmax (-1) (Rmin 1 x) * 32768)))%Z
    else Int_part (Rmax (-1) (Rmin 1 x) * 32767).
Proof.
  unfold pcm16, scaleSample, truncate. cbv zeta.
  destruct (Rlt_dec (Rmax (-1) (Rmin 1 x)) 0) as [Hneg | Hpos].
  - destruct (Rle_dec 0 (Rmax (-1) (Rmin 1 x) * 32768)); [lra | reflexivity].
  - destruct (Rle_dec 0 (Rmax (-1) (Rmin 1 x) * 32767)); [reflexivity | lra].
Qed.

(** C6, as amended: for every buffer the writer returns [44 + S*C*2] bytes
    with the four chunk tags in place; every sample is stored, interleaved
    and little-endian, as the 16-bit integer obtained by clamping to
    [-1, 1], multiplying by 32768 below zero and by 32767 otherwise and
    dropping the fraction toward zero, which always fits sixteen bits; every
    header field holds its value, the sample rate with its fraction dropped,
    reduced modulo the width of the field; and when the values fit their
    fields (a whole sample rate below 2^32, block align [C*2] below 2^16,
    RIFF size [36 + S*C*2] below 2^32) the header holds exactly those
    values. *)
Theorem bufferToWav_layout (buffer : AudioBuffer) :
  exists bytes,
    bufferToWav buffer = Some bytes /\
    Z.of_nat (List.length bytes) = (44 + dataLength buffer)%Z /\
    getTag bytes 0 = tagOf "RIFF" /\
    getTag bytes 8 = tagOf "WAVE" /\
    getTag bytes 12 = tagOf "fmt " /\
    getTag bytes 36 = tagOf "data" /\
    getUint32 bytes 4 = ((36 + dataLength buffer) mod 4294967296)%Z /\
    getUint32 bytes 16 = 16%Z /\
    getUint16 bytes 20 = 1%Z /\
    getUint16 bytes 22 = (Z.of_nat (numberOfChannels buffer) mod 65536)%Z /\
    getUint32 bytes 24
    = ((if Rle_dec 0 (sampleRate buffer)
        then Int_part (sampleRate buffer)
        else - Int_part (- sampleRate buffer)) mod 4294967296)%Z /\
    getUint16 bytes 32
    = ((Z.of_nat (numberOfChannels buffer) * 2) mod 65536)%Z /\
    getUint16 bytes 34 = 16%Z /\
    getUint32 bytes 40 = (dataLength buffer mod 4294967296)%Z /\
    (forall i channel,
        (i < length_ buffer)%nat -> (channel < numberOfChannels buffer)%nat ->
        let s := Rmax (-1) (Rmin 1 (getChannelData buffer channel i)) in
        getInt16 bytes (sampleOffset buffer i channel)
        = if Rlt_dec s 0 then (- Int_part (- (s * 32768)))%Z
          else Int_part (s * 32767)) /\
    (forall x,
        let s := Rmax (-1) (Rmin 1 x) in
        (-32768 <= (if Rlt_dec s 0 then - Int_part (- (s * 32768))
                    else Int_part (s * 32767)) <= 32767)%Z) /\
    (forall rate,
        sampleRate buffer = IZR rate -> (0 <= rate < 4294967296)%Z ->
        (Z.of_nat (numberOfChannels buffer) * 2 < 65536)%Z ->
        (36 + dataLength buffer < 4294967296)%Z ->
        getUint32 bytes 4 = (36 + dataLength buffer)%Z /\
        getUint16 bytes 22 = Z.of_nat (numberOfChannels buffer) /\
        getUint32 bytes 24 = rate /\
        getUint16 bytes 32 = (Z.of_nat (numberOfChannels buffer) * 2)%Z /\
        getUint32 bytes 40 = dataLength buffer).
Proof.
  assert (Hd : (0 <= dataLength buffer)%Z) by (unfold dataLength; lia).
  exists (wavHeader buffer ++ wavData buffer).
  destruct (field_tags buffer (wavData buffer)) as (T0 & T8 & T12 & T36).
  assert (Hriff : getUint32 (wavHeader buffer ++ wavData buffer) 4
                  = ((36 + dataLength buffer) mod 4294967296)%Z)
    by (rewrite field_riff_size, dataLength_nat; reflexivity).
  assert (Hch : getUint16 (wavHeader buffer ++ wavData buffer) 22
                = (Z.of_nat (numberOfChannels buffer) mod 65536)%Z)
    by apply field_channels.
  assert (Hsr : getUint32 (wavHeader buffer ++ wavData buffer) 24
                = (truncate (sampleRate buffer) mod 4294967296)%Z)
    by apply field_sample_rate.
  assert (Hba : getUint16 (wavHeader buffer ++ wavData buffer) 32
                = ((Z.of_nat (numberOfChannels buffer) * 2) mod 65536)%Z).
  { rewrite field_block_align. f_equal. lia. }
  assert (Hdl : getUint32 (wavHeader buffer ++ wavData buffer) 40
                = (dataLength buffer mod 4294967296)%Z)
    by (rewrite field_data_length, dataLength_nat; reflexivity).
  split; [apply bufferToWav_closed_form |].
  split; [apply bufferToWav_length |].
  split; [exact T0 |]. split; [exact T8 |]. split; [exact T12 |].
  split; [exact T36 |].
  split; [exact Hriff |].
  split; [apply field_fmt_length |]. split; [apply field_format_tag |].
  split; [exact Hch |].
  split; [exact Hsr |].
  split; [exact Hba |].
  split; [apply field_bits_per_sample |].
  split; [exact Hdl |].
  split.
  { intros i channel Hi Hc. cbv zeta. rewrite sample_read by assumption.
    apply pcm16_written_out. }
  split.
  { intros x. cbv zeta. rewrite <- pcm16_written_out. apply pcm16_range. }
  intros rate Hrate Hr Hc Hlen.
  rewrite Hriff, Hch, Hsr, Hba, Hdl, Hrate, truncate_IZR by lia.
  rewrite !Z.mod_small by lia. repeat split.
Qed.

Lemma bufferToWav_layout_witness :
  sampleRate twoSampleClip = IZR 44100 /\ (0 <= 44100 < 4294967296)%Z /\
  (Z.of_nat (numberOfChannels twoSampleClip) * 2 < 65536)%Z /\
  (36 + dataLength twoSampleClip < 4294967296)%Z /\
  exists bytes,
    bufferToWav twoSampleClip = Some bytes /\
    getUint32 bytes 4 = (36 + dataLength twoSampleClip)%Z /\
    getUint32 bytes 24 = 44100%Z /\
    getUint32 bytes 40 = dataLength twoSampleClip.
Proof.
  assert (H1 : sampleRate twoSampleClip = IZR 44100) by reflexivity.
  assert (H2 : (0 <= 44100 < 4294967296)%Z) by lia.
  assert (H3 : (Z.of_nat (numberOfChannels twoSampleClip) * 2 < 65536)%Z)
    by (cbn; lia).
  assert (H4 : (36 + dataLength twoSampleClip < 4294967296)%Z)
    by (unfold dataLength; cbn; lia).
  repeat (split; [assumption|]).
  destruct (bufferToWav_layout twoSampleClip)
    as (bytes & Hb & _ & _ & _ & _ & _ & _ & _ & _ & _ & _ & _ & _ & _ & _
        & _ & Hfit).
  destruct (Hfit 44100%Z H1 H2 H3 H4) as (Hriff & _ & Hsr & _ & Hdata).
  exists bytes. repeat split; assumption.
Defined.

Lemma hugeSilence_dataLength : dataLength hugeSilence = 4294967296%Z.
Proof.
  unfold dataLength, hugeSilence. cbn [length_ numberOfChannels].
  rewrite Z2Nat.id by lia. reflexivity.
Qed.

(** C6 as stated fails on a buffer of 4 GiB of PCM: for 2^30 stereo frames
    the RIFF size is 36 + 2^32, and [setUint32] stores it modulo 2^32,
    that is 36. *)
Lemma riff_size_wraps_at_4GiB :
  exists bytes,
    bufferToWav hugeSilence = Some bytes /\
    getUint32 bytes 4 = 36%Z /\
    getUint32 bytes 4 <> (36 + dataLength hugeSilence)%Z.
Proof.
  exists (wavHeader hugeSilence ++ wavData hugeSilence).
  split; [apply bufferToWav_closed_form|].
  assert (H : getUint32 (wavHeader hugeSilence ++ wavData hugeSilence) 4
              = 36%Z).
  { rewrite field_riff_size, dataLength_nat, hugeSilence_dataLength.
    reflexivity. }
  split; [exact H|]. rewrite H, hugeSilence_dataLength. lia.
Qed.

Lemma le16_zero : le16 0 = [0%Z; 0%Z].
Proof. reflexivity. Qed.

Lemma silent_data (buffer : AudioBuffer) :
  allZero buffer -> Forall (fun byte => byte = 0%Z) (wavData buffer).
Proof.
  intros Hz. unfold wavData. apply Forall_flat_map. apply Forall_forall.
  intros i Hi. apply in_seq in Hi. unfold frameBytes.
  apply Forall_flat_map. apply Forall_forall. intros ch Hch.
  apply in_seq in Hch. rewrite Hz by lia. rewrite pcm16_silence, le16_zero.
  repeat constructor.
Qed.

Lemma skip_header (buffer : AudioBuffer) (data : list Z) :
  skipn 44 (wavHeader buffer ++ data) = data.
Proof. reflexivity. Qed.

(** C7, as amended: every buffer of zeros is written as a data chunk of zero
    bytes, two per sample, so every 16-bit sample read back is zero; the
    data length field holds [samples * channels * 2] reduced modulo 2^32,
    hence that very number whenever it is below 2^32. *)
Theorem silent_buffer_roundtrip (buffer : AudioBuffer) :
  allZero buffer ->
  exists bytes,
    bufferToWav buffer = Some bytes /\
    Forall (fun byte => byte = 0%Z) (skipn 44 bytes) /\
    Z.of_nat (List.length (skipn 44 bytes)) = dataLength buffer /\
    (forall i channel,
        (i < length_ buffer)%nat -> (channel < numberOfChannels buffer)%nat ->
        getInt16 bytes (sampleOffset buffer i channel) = 0%Z) /\
    getUint32 bytes 40 = (dataLength buffer mod 4294967296)%Z /\
    ((dataLength buffer < 4294967296)%Z ->
     getUint32 bytes 40 = dataLength buffer).
Proof.
  intros Hz.
  assert (Hd : (0 <= dataLength buffer)%Z) by (unfold dataLength; lia).
  exists (wavHeader buffer ++ wavData buffer).
  split; [apply bufferToWav_closed_form|].
  rewrite skip_header.
  split; [apply silent_data; exact Hz|].
  split; [rewrite wavData_length; unfold dataLength; lia|].
  split.
  { intros i channel Hi Hc. rewrite sample_read by assumption.
    rewrite Hz by assumption. apply pcm16_silence. }
  split.
  - rewrite field_data_length, dataLength_nat. reflexivity.
  - intros Hlen. rewrite field_data_length, dataLength_nat.
    apply Z.mod_small. lia.
Qed.

Lemma silent_buffer_roundtrip_witness :
  allZero silentClip /\ (dataLength silentClip < 4294967296)%Z /\
  exists bytes,
    bufferToWav silentClip = Some bytes /\
    getUint32 bytes 40 = 176400%Z.
Proof.
  assert (Hz : allZero silentClip) by (intros c i _ _; reflexivity).
  assert (Hd : dataLength silentClip = 176400%Z).
  { unfold dataLength, silentClip. cbn [length_ numberOfChannels].
    rewrite Z2Nat.id by lia. reflexivity. }
  assert (Hl : (dataLength silentClip < 4294967296)%Z) by (rewrite Hd; lia).
  split; [exact Hz | split; [exact Hl |]].
  destruct (silent_buffer_roundtrip silentClip Hz)
    as (bytes & Hb & _ & _ & _ & _ & Hf).
  exists bytes. split; [exact Hb | rewrite (Hf Hl); exact Hd].
Defined.

(** C7 as stated fails on the same 4 GiB buffer of silence: its data length
    is 2^32 and the field written holds 0. *)
Lemma data_length_wraps_at_4GiB :
  allZero hugeSilence /\
  exists bytes,
    bufferToWav hugeSilence = Some bytes /\
    getUint32 bytes 40 = 0%Z /\
    getUint32 bytes 40 <> dataLength hugeSilence.
Proof.
  split; [intros c i _ _; reflexivity|].
  exists (wavHeader hugeSilence ++ wavData hugeSilence).
  split; [apply bufferToWav_closed_form|].
  assert (H : getUint32 (wavHeader hugeSilence ++ wavData hugeSilence) 40
              = 0%Z).
  { rewrite field_data_length, dataLength_nat, hugeSilence_dataLength.
    reflexivity. }
  split; [exact H|]. rewrite H, hugeSilence_dataLength. lia.
Qed.

(** ** The bus compressor and its "sidechain" filter *)

Lemma maximpact_busComp :
  busComp (buildDSPForPreset maximpact)
  = Some (mkBusComp true 4.0 (-18) 6 0.03 0.10 (Some 100)).
Proof. reflexivity. Qed.

Lemma truthy_nonzero (v : R) : v <> 0 -> truthy (Some v) = Some v.
Proof.
  intros Hv. unfold truthy. destruct (Req_dec_T v 0); [contradiction|].
  reflexivity.
Qed.

Lemma applyBusComp_series (input : NodeId) (spec : BusCompSpec) (hz : R)
      (ctx : OfflineAudioContext) :
  enabled spec = true -> truthy (sidechainHpfHz spec) = Some hz ->
  let r := applyBusComp input (Some spec) ctx in
  let hp := next_id ctx in
  let comp := S (next_id ctx) in
  fst r = comp /\
  nodes (snd r)
  = (comp, DynamicsCompressorNode (bc_thresholdDb spec) (bc_kneeDb spec)
             (clamp (bc_ratio spec) 1.0 20.0)
             (clamp (bc_attackSec spec) 0.001 0.25)
             (clamp (bc_releaseSec spec) 0.03 0.5))
    :: (hp, BiquadFilterNode highpass hz 0.707 0) :: nodes ctx /\
  connections (snd r)
  = mkConnection hp comp 0 0 :: mkConnection input hp 0 0 :: connections ctx.
Proof.
  intros He Ht. unfold applyBusComp. rewrite He, Ht. cbn [negb].
  run_build. repeat split.
Qed.

(** C5 on the code: for the bus compressor of preset "maximpact"
    (sidechain high-pass at 100 Hz) the stage returns the compressor, the
    only connection into the compressor comes from the high-pass, and the
    stage input is connected to the high-pass alone.  The audible output is
    the compressed high-passed signal. *)
Theorem busComp_highpass_in_signal_path (input : NodeId)
        (ctx : OfflineAudioContext) :
  let r := applyBusComp input (busComp (buildDSPForPreset maximpact)) ctx in
  let hp := next_id ctx in
  let comp := S (next_id ctx) in
  fst r = comp /\
  nodes (snd r)
  = (comp, DynamicsCompressorNode (-18) 6 (clamp 4.0 1.0 20.0)
             (clamp 0.03 0.001 0.25) (clamp 0.10 0.03 0.5))
    :: (hp, BiquadFilterNode highpass 100 0.707 0) :: nodes ctx /\
  connections (snd r)
  = mkConnection hp comp 0 0 :: mkConnection input hp 0 0 :: connections ctx.
Proof.
  rewrite maximpact_busComp.
  apply (applyBusComp_series input
           (mkBusComp true 4.0 (-18) 6 0.03 0.10 (Some 100)) 100 ctx).
  - reflexivity.
  - apply truthy_nonzero. lra.
Qed.

(** In a graph whose connections all end at existing nodes, the compressor
    hears nothing but the high-pass. *)
Lemma busComp_fed_only_by_highpass (input : NodeId) (spec : BusCompSpec)
      (hz : R) (ctx : OfflineAudioContext) :
  enabled spec = true -> truthy (sidechainHpfHz spec) = Some hz ->
  (forall c, In c (connections ctx) -> (conn_to c < next_id ctx)%nat) ->
  let r := applyBusComp input (Some spec) ctx in
  onlyFedBy (snd r) (fst r) (next_id ctx) /\
  onlyFedBy (snd r) (next_id ctx) input.
Proof.
  intros He Ht Hwf.
  destruct (applyBusComp_series input spec hz ctx He Ht) as (Hout & _ & Hc).
  cbv zeta in *. unfold onlyFedBy. rewrite Hout, Hc. split.
  - intros c [<- | [<- | Hin]] Hto; cbn in *; try reflexivity; try lia.
    apply Hwf in Hin. lia.
  - intros c [<- | [<- | Hin]] Hto; cbn in *; try reflexivity; try lia.
    apply Hwf in Hin. lia.
Qed.

(** ** Worked examples *)

(** The two-sample clip as a WAV file: 0.5 becomes 16383 ([FF 3F]) and -1
    becomes -32768 ([00 80]). *)
Example twoSampleClip_wav :
  bufferToWav twoSampleClip
  = Some [ 82; 73; 70; 70;   40; 0; 0; 0;   87; 65; 86; 69;
           102; 109; 116; 32;   16; 0; 0; 0;   1; 0;   1; 0;
           68; 172; 0; 0;   136; 88; 1; 0;   2; 0;   16; 0;
           100; 97; 116; 97;   4; 0; 0; 0;
           255; 63;   0; 128 ]%Z.
Proof.
  rewrite bufferToWav_closed_form. f_equal.
  assert (Hrate : truncate (sampleRate twoSampleClip) = 44100%Z)
    by (apply (truncate_IZR 44100); lia).
  assert (Hbyte : truncate (sampleRate twoSampleClip
                            * INR (numberOfChannels twoSampleClip) * 2)
                  = 88200%Z).
  { replace (sampleRate twoSampleClip
             * INR (numberOfChannels twoSampleClip) * 2)
      with (IZR 88200) by (cbn; lra).
    apply truncate_IZR. lia. }
  assert (Hhalf : pcm16 0.5 = 16383%Z).
  { unfold pcm16, scaleSample, truncate. cbv zeta.
    rewrite Rmin_right by lra. rewrite Rmax_right by lra.
    destruct (Rlt_dec 0.5 0); [lra|].
    destruct (Rle_dec 0 (0.5 * 32767)); [|lra].
    symmetry. apply Int_part_spec. lra. }
  assert (Hfull : pcm16 (-1) = (-32768)%Z)
    by (apply (proj1 (pcm16_full_scale (-1))); lra).
  unfold wavHeader, wavData, frameBytes. rewrite Hrate, Hbyte.
  cbn [numberOfChannels length_ getChannelData twoSampleClip seq flat_map app].
  rewrite Hhalf, Hfull. reflexivity.
Qed.

(** A quiet take peaking at -6 dBFS: the loudness trim of +6 dB would put
    the peak at 0 dBFS, so the override lowers it to +5.5 dB. *)
Example trim_of_quiet_take :
  computeTrimDb UNIVERSAL_OUTPUT (Finite (-20)) (-6) = 5.5.
Proof.
  unfold UNIVERSAL_OUTPUT. split_trim.
Qed.

(** A clip too short to hold one loudness block measures [-Infinity]; the
    trim is then decided by the peak alone. *)
Example trim_without_loudness :
  computeTrimDb UNIVERSAL_OUTPUT NegInfinity (-6) = 5.5.
Proof.
  unfold UNIVERSAL_OUTPUT. split_trim.
Qed.

Lemma short_buffer_has_no_loudness (buffer : AudioBuffer) :
  (length_ buffer < blockLenOf (sampleRate buffer))%nat ->
  integratedLUFS_R128Gated buffer = NegInfinity.
Proof.
  intros Hshort. unfold integratedLUFS_R128Gated, loudnessBlocks. cbv zeta.
  rewrite blocksFrom_empty by exact Hshort. reflexivity.
Qed.

(** With at least one block above the absolute gate the result is always the
    gated loudness: the ungated fallback is never needed. *)
Lemma integratedLUFS_R128Gated_gated (buffer : AudioBuffer) :
  absGatedBlocks (loudnessBlocks buffer) <> [] ->
  integratedLUFS_R128Gated buffer
  = Finite (lufsOfMeanSquare
              (lufsBlocksToMeanSquare
                 (relGatedBlocks (absGatedBlocks (loudnessBlocks buffer))))).
Proof.
  intros Hne. pose proof (relative_gate_keeps_a_block _ Hne) as Hrel.
  unfold integratedLUFS_R128Gated, gateBlocks.
  destruct (loudnessBlocks buffer) as [|l ls] eqn:Hb.
  - exfalso. apply Hne. reflexivity.
  - cbv zeta. destruct (absGatedBlocks (l :: ls)) as [|a as_] eqn:Ha.
    + contradiction.
    + destruct (relGatedBlocks (a :: as_)) as [|g gs] eqn:Hg.
      * contradiction.
      * reflexivity.
Qed.

(** ** Reads stay inside the buffer

    The meter reads [getChannelData(c)[i]] only for [c < numberOfChannels]
    and [i < length]: two buffers that agree there measure the same. *)

Lemma fold_left_agree {A B : Type} (f g : A -> B -> A) (l : list B) (a : A) :
  (forall acc x, In x l -> f acc x = g acc x) ->
  fold_left f l a = fold_left g l a.
Proof.
  revert a. induction l as [|x l IH]; intros a H; cbn.
  - reflexivity.
  - rewrite (H a x) by (left; reflexivity).
    apply IH. intros acc y Hy. apply H. right. exact Hy.
Qed.

Lemma sumSquares_agree (d1 d2 : nat -> R) (start blockLen : nat) :
  (forall i, (start <= i < start + blockLen)%nat -> d1 i = d2 i) ->
  sumSquares d1 start blockLen = sumSquares d2 start blockLen.
Proof.
  intros H. unfold sumSquares. apply fold_left_agree.
  intros acc i Hi. apply in_seq in Hi. cbv zeta. rewrite H by lia. reflexivity.
Qed.

Lemma blockLUFS_agree (b1 b2 : AudioBuffer) (blockLen start : nat) :
  sameAudio b1 b2 -> (start + blockLen <= length_ b1)%nat ->
  blockLUFS b1 blockLen start = blockLUFS b2 blockLen start.
Proof.
  intros (_ & Hc & _ & Hd) Hin. unfold blockLUFS. cbv zeta. rewrite <- Hc.
  f_equal. f_equal. f_equal. f_equal. f_equal.
  apply fold_left_agree. intros acc c Hcin. apply in_seq in Hcin.
  f_equal. f_equal. apply sumSquares_agree. intros i Hi. apply Hd; lia.
Qed.

Lemma blocksFrom_agree (len blockLen step : nat) (Hs : (1 <= step)%nat)
      (f g : nat -> R) (start : nat) :
  (forall s, (s + blockLen <= len)%nat -> f s = g s) ->
  blocksFrom len blockLen step Hs f start
  = blocksFrom len blockLen step Hs g start.
Proof.
  intros Hfg. funelim (blocksFrom len blockLen step Hs f start).
  - rewrite (blocksFrom_equation_1 len blockLen step Hs g start), Heq.
    cbn. rewrite Hfg by assumption. f_equal. apply H. exact Hfg.
  - rewrite (blocksFrom_equation_1 len blockLen step Hs g start), Heq.
    reflexivity.
Qed.

Lemma integratedLUFS_reads_in_range (b1 b2 : AudioBuffer) :
  sameAudio b1 b2 ->
  integratedLUFS_R128Gated b1 = integratedLUFS_R128Gated b2.
Proof.
  intros Hsame. pose proof Hsame as (Hsr & Hc & Hl & Hd).
  unfold integratedLUFS_R128Gated, loudnessBlocks. cbv zeta.
  rewrite <- Hsr, <- Hl. f_equal.
  apply blocksFrom_agree. intros s Hs.
  apply blockLUFS_agree; assumption.
Qed.

(** The call site oversamples by 4: three points between two samples. *)
Example oversampleSteps_4 : oversampleSteps 4 = [1; 2; 3]%nat.
Proof.
  unfold oversampleSteps, ceiling.
  rewrite (floor_IZR (-4)) by lra. reflexivity.
Qed.

Example oversampleSteps_fractional : oversampleSteps 2.5 = [1; 2]%nat.
Proof.
  unfold oversampleSteps, ceiling.
  rewrite (floor_IZR (-3)) by lra. reflexivity.
Qed.

(* ================================================================= *)
(** * Further properties of the engine *)

(** ** Decibels *)

Lemma pow10_log10 (x : R) : 0 < x -> pow10 (log10 x) = x.
Proof.
  intros Hx. unfold pow10, log10. pose proof ln10_pos as Hl.
  replace (ln x / ln 10 * ln 10) with (ln x) by (field; lra).
  apply exp_ln. exact Hx.
Qed.

Lemma pow10_floor_value : pow10 (-12) = 1e-12.
Proof.
  rewrite <- log10_floor_value. apply pow10_log10. lra.
Qed.

Lemma pow10_add (x y : R) : pow10 (x + y) = pow10 x * pow10 y.
Proof.
  unfold pow10. rewrite Rmult_plus_distr_r. apply exp_plus.
Qed.

Lemma log10_mult (x y : R) :
  0 < x -> 0 < y -> log10 (x * y) = log10 x + log10 y.
Proof.
  intros Hx Hy. unfold log10. rewrite ln_mult by assumption.
  pose proof ln10_pos. field. lra.
Qed.

Lemma dbToLin_floor (db : R) : -240 <= db -> 1e-12 <= dbToLin db.
Proof.
  intros Hdb. unfold dbToLin. rewrite <- pow10_floor_value.
  apply pow10_mono. lra.
Qed.

Lemma dbToLin_pos (db : R) : 0 < dbToLin db.
Proof. unfold dbToLin. apply pow10_pos. Qed.

Lemma dbToLin_zero : dbToLin 0 = 1.
Proof.
  unfold dbToLin, pow10. replace (0 / 20 * ln 10) with 0 by lra. apply exp_0.
Qed.

Lemma linToDb_at_floor (lin : R) : lin <= 1e-12 -> linToDb lin = -240.
Proof.
  intros Hlow. unfold linToDb. rewrite Rmax_left by exact Hlow.
  rewrite log10_floor_value. lra.
Qed.

(** X1: Converting decibels to a linear gain and back, or a linear level to
    decibels and back, returns the value one started with, as long as the
    level is not below the floor of 1e-12 (-240 dB). *)
Theorem db_lin_round_trip (db lin : R) :
  -240 <= db -> 1e-12 <= lin ->
  linToDb (dbToLin db) = db /\ dbToLin (linToDb lin) = lin.
Proof.
  intros Hdb Hlin. split.
  - unfold linToDb. rewrite Rmax_right by (apply dbToLin_floor; exact Hdb).
    unfold dbToLin. rewrite log10_pow10. lra.
  - unfold linToDb, dbToLin. rewrite Rmax_right by exact Hlin.
    replace (20 * log10 lin / 20) with (log10 lin) by lra.
    apply pow10_log10. lra.
Qed.

Lemma db_lin_round_trip_witness :
  -240 <= -6 /\ 1e-12 <= 0.5 /\
  linToDb (dbToLin (-6)) = -6 /\ dbToLin (linToDb 0.5) = 0.5.
Proof.
  assert (H1 : -240 <= -6) by lra.
  assert (H2 : 1e-12 <= 0.5) by lra.
  split; [exact H1 | split; [exact H2 |]].
  exact (db_lin_round_trip (-6) 0.5 H1 H2).
Defined.

(** X2: [linToDb] never reports less than -240 dB, and reports exactly -240 dB
    for every level at or below 1e-12, zero and negative levels included. *)
Theorem linToDb_floor (lin : R) :
  -240 <= linToDb lin /\ (lin <= 1e-12 -> linToDb lin = -240).
Proof.
  unfold linToDb. split.
  - assert (H : log10 1e-12 <= log10 (Rmax 1e-12 lin)).
    { apply log10_mono; [lra | apply Rmax_l]. }
    rewrite log10_floor_value in H. lra.
  - fold (linToDb lin). apply linToDb_at_floor.
Qed.

(** X3: A gain in decibels is a positive factor; gains in decibels add where
    their factors multiply, and 0 dB is the factor 1. *)
Theorem dbToLin_gain_law (a b : R) :
  0 < dbToLin a /\ dbToLin (a + b) = dbToLin a * dbToLin b /\ dbToLin 0 = 1.
Proof.
  repeat split.
  - apply dbToLin_pos.
  - unfold dbToLin.
    replace ((a + b) / 20) with (a / 20 + b / 20) by lra. apply pow10_add.
  - apply dbToLin_zero.
Qed.

(** ** The trim rule in closed form *)

Lemma computeTrimDb_finite (out : OutputSpec) (integrated tpPre : R) :
  computeTrimDb out (Finite integrated) tpPre
  = clamp (Rmin (targetIntegratedLUFS out - integrated)
                (ceilingDbFS out - tpPre))
          (tc_min (trimClampDb out)) (tc_max (trimClampDb out)).
Proof. destruct out as [target ceiling lim [lo hi]]. split_trim. Qed.

(** X4: The trim is the smaller of the loudness trim and the headroom left
    under the ceiling, clamped; without a loudness measurement it is the
    clamped headroom. *)
Theorem computeTrimDb_closed_form (out : OutputSpec) (tpPre : R) :
  (forall integrated : R,
      computeTrimDb out (Finite integrated) tpPre
      = clamp (Rmin (targetIntegratedLUFS out - integrated)
                    (ceilingDbFS out - tpPre))
              (tc_min (trimClampDb out)) (tc_max (trimClampDb out))) /\
  computeTrimDb out NegInfinity tpPre
  = clamp (ceilingDbFS out - tpPre)
          (tc_min (trimClampDb out)) (tc_max (trimClampDb out)).
Proof.
  split.
  - intros integrated. apply computeTrimDb_finite.
  - destruct out as [target ceiling lim [lo hi]]. split_trim.
Qed.

(** X5: Whatever was measured, the trim handed to the final pass lies within
    the configured trim clamp. *)
Theorem computeTrimDb_within_clamp (out : OutputSpec) (integrated : xnum)
        (tpPre : R) :
  tc_min (trimClampDb out) <= tc_max (trimClampDb out) ->
  tc_min (trimClampDb out) <= computeTrimDb out integrated tpPre
  <= tc_max (trimClampDb out).
Proof.
  destruct out as [target ceiling lim [lo hi]]. cbn [trimClampDb tc_min tc_max].
  intros Hrange. destruct integrated; split_trim.
Qed.

Lemma computeTrimDb_within_clamp_witness :
  tc_min (trimClampDb UNIVERSAL_OUTPUT) <= tc_max (trimClampDb UNIVERSAL_OUTPUT)
  /\ tc_min (trimClampDb UNIVERSAL_OUTPUT)
     <= computeTrimDb UNIVERSAL_OUTPUT PosInfinity 0
     <= tc_max (trimClampDb UNIVERSAL_OUTPUT).
Proof.
  assert (H : tc_min (trimClampDb UNIVERSAL_OUTPUT)
              <= tc_max (trimClampDb UNIVERSAL_OUTPUT)) by (cbn; lra).
  split; [exact H |].
  exact (computeTrimDb_within_clamp UNIVERSAL_OUTPUT PosInfinity 0 H).
Defined.

(** X6: A louder or a peakier analysis render never gets more trim. *)
Theorem computeTrimDb_antitone (out : OutputSpec) (l1 l2 tp1 tp2 : R) :
  l1 <= l2 -> tp1 <= tp2 ->
  computeTrimDb out (Finite l2) tp2 <= computeTrimDb out (Finite l1) tp1.
Proof.
  intros Hl Htp.
  rewrite !computeTrimDb_finite. apply clamp_mono.
  unfold Rmin. repeat (destruct (Rle_dec _ _)); lra.
Qed.

Lemma computeTrimDb_antitone_witness :
  -20 <= -16 /\ -6 <= -3 /\
  computeTrimDb UNIVERSAL_OUTPUT (Finite (-16)) (-3)
  <= computeTrimDb UNIVERSAL_OUTPUT (Finite (-20)) (-6).
Proof.
  assert (H1 : -20 <= -16) by lra. assert (H2 : -6 <= -3) by lra.
  split; [exact H1 | split; [exact H2 |]].
  exact (computeTrimDb_antitone UNIVERSAL_OUTPUT (-20) (-16) (-6) (-3) H1 H2).
Defined.

(** X7: When the loudness trim fits the clamp and leaves the predicted peak at
    or below the ceiling, the trim is exactly the distance to the loudness
    target. *)
Theorem computeTrimDb_hits_target (out : OutputSpec) (integrated tpPre : R) :
  tc_min (trimClampDb out) <= targetIntegratedLUFS out - integrated
  <= tc_max (trimClampDb out) ->
  tpPre + (targetIntegratedLUFS out - integrated) <= ceilingDbFS out ->
  computeTrimDb out (Finite integrated) tpPre
  = targetIntegratedLUFS out - integrated.
Proof.
  intros Hclamp Hpeak.
  rewrite computeTrimDb_finite.
  rewrite Rmin_left by lra. apply clamp_id. exact Hclamp.
Qed.

Lemma computeTrimDb_hits_target_witness :
  tc_min (trimClampDb UNIVERSAL_OUTPUT)
  <= targetIntegratedLUFS UNIVERSAL_OUTPUT - (-20)
  <= tc_max (trimClampDb UNIVERSAL_OUTPUT) /\
  -12 + (targetIntegratedLUFS UNIVERSAL_OUTPUT - (-20))
  <= ceilingDbFS UNIVERSAL_OUTPUT /\
  computeTrimDb UNIVERSAL_OUTPUT (Finite (-20)) (-12)
  = targetIntegratedLUFS UNIVERSAL_OUTPUT - (-20).
Proof.
  assert (H1 : tc_min (trimClampDb UNIVERSAL_OUTPUT)
               <= targetIntegratedLUFS UNIVERSAL_OUTPUT - (-20)
               <= tc_max (trimClampDb UNIVERSAL_OUTPUT)) by (cbn; lra).
  assert (H2 : -12 + (targetIntegratedLUFS UNIVERSAL_OUTPUT - (-20))
               <= ceilingDbFS UNIVERSAL_OUTPUT) by (cbn; lra).
  split; [exact H1 | split; [exact H2 |]].
  exact (computeTrimDb_hits_target UNIVERSAL_OUTPUT (-20) (-12) H1 H2).
Defined.

(** ** True peak under gain and at the edges *)

Lemma fold_left_scaled {A : Type} (f g : R -> A -> R) (k : R) (l : list A)
      (p : R) :
  (forall q x, In x l -> g (k * q) x = k * f q x) ->
  fold_left g l (k * p) = k * fold_left f l p.
Proof.
  revert p. induction l as [|x l IH]; intros p H; cbn.
  - reflexivity.
  - rewrite H by (left; reflexivity).
    apply IH. intros q y Hy. apply H. right. exact Hy.
Qed.

Lemma Rmax_scaled (k p q : R) : 0 <= k -> Rmax (k * p) (k * q) = k * Rmax p q.
Proof. intros Hk. apply RmaxRmult. exact Hk. Qed.

Lemma truePeakLinear_gain (g : R) (buffer : AudioBuffer) (oversample : R) :
  truePeakLinear (applyGain g buffer) oversample
  = Rabs g * truePeakLinear buffer oversample.
Proof.
  pose proof (Rabs_pos g) as Hg.
  unfold truePeakLinear. cbn [numberOfChannels length_ applyGain getChannelData].
  rewrite <- (Rmult_0_r (Rabs g)) at 1.
  apply fold_left_scaled. intros q c _.
  unfold peakChannel. apply fold_left_scaled. intros q' i _.
  unfold peakPair. cbv zeta. unfold peakOversampled.
  rewrite !Rabs_mult, !Rmax_scaled by exact Hg.
  apply fold_left_scaled. intros q'' k _.
  unfold interpolate. cbv zeta.
  replace (g * getChannelData buffer c i
           + (g * getChannelData buffer c (i + 1)%nat
              - g * getChannelData buffer c i) * (INR k / oversample))
    with (g * (getChannelData buffer c i
               + (getChannelData buffer c (i + 1)%nat
                  - getChannelData buffer c i) * (INR k / oversample)))
    by ring.
  rewrite Rabs_mult. apply Rmax_scaled. exact Hg.
Qed.

(** X8: A gain of [d] decibels moves the true-peak estimate by exactly [d]
    decibels, as long as neither level falls below the -240 dB floor: this
    is the prediction [tpPre + trimDb] of the two-pass processor. *)
Theorem estimateTruePeakDbFS_gain (buffer : AudioBuffer) (oversample d : R) :
  1e-12 <= truePeakLinear buffer oversample ->
  1e-12 <= dbToLin d * truePeakLinear buffer oversample ->
  estimateTruePeakDbFS (applyGain (dbToLin d) buffer) oversample
  = estimateTruePeakDbFS buffer oversample + d.
Proof.
  intros Hp Hs. unfold estimateTruePeakDbFS.
  rewrite truePeakLinear_gain.
  pose proof (dbToLin_pos d) as Hpos.
  rewrite Rabs_right by lra.
  unfold linToDb. rewrite !Rmax_right by assumption.
  rewrite log10_mult by lra.
  unfold dbToLin. rewrite log10_pow10. lra.
Qed.

Lemma twoSampleClip_peak_above_floor :
  1e-12 <= truePeakLinear twoSampleClip 4.
Proof. rewrite twoSampleClip_peak. lra. Qed.

Lemma estimateTruePeakDbFS_gain_witness :
  1e-12 <= truePeakLinear twoSampleClip 4 /\
  1e-12 <= dbToLin (-6) * truePeakLinear twoSampleClip 4 /\
  estimateTruePeakDbFS (applyGain (dbToLin (-6)) twoSampleClip) 4
  = estimateTruePeakDbFS twoSampleClip 4 + -6.
Proof.
  assert (H1 : 1e-12 <= truePeakLinear twoSampleClip 4)
    by exact twoSampleClip_peak_above_floor.
  assert (H2 : 1e-12 <= dbToLin (-6) * truePeakLinear twoSampleClip 4).
  { rewrite twoSampleClip_peak, Rmult_1_r. apply dbToLin_floor. lra. }
  split; [exact H1 | split; [exact H2 |]].
  exact (estimateTruePeakDbFS_gain twoSampleClip 4 (-6) H1 H2).
Defined.

(** X9: The peak loops look at pairs of neighbouring samples: a buffer with
    fewer than two frames has no pair, so whatever its one sample is the
    estimate is the floor, -240 dBFS. *)
Theorem estimateTruePeakDbFS_short_buffer (buffer : AudioBuffer)
        (oversample : R) :
  (length_ buffer < 2)%nat ->
  estimateTruePeakDbFS buffer oversample = -240.
Proof.
  intros Hshort. unfold estimateTruePeakDbFS.
  assert (Hzero : truePeakLinear buffer oversample = 0).
  { unfold truePeakLinear, peakChannel. cbv zeta.
    replace (length_ buffer - 1)%nat with 0%nat by lia. cbn [seq fold_left].
    induction (seq 0 (numberOfChannels buffer)) as [|c cs IH]; cbn.
    - reflexivity.
    - exact IH. }
  rewrite Hzero. apply linToDb_at_floor. lra.
Qed.

Lemma estimateTruePeakDbFS_short_buffer_witness :
  (length_ oneSampleClip < 2)%nat /\
  estimateTruePeakDbFS oneSampleClip 4 = -240.
Proof.
  assert (H : (length_ oneSampleClip < 2)%nat) by (cbn; lia).
  split; [exact H |].
  exact (estimateTruePeakDbFS_short_buffer oneSampleClip 4 H).
Defined.

(** ** Integrated loudness: bounds and block count *)

Lemma sum_bounded_below (l : list R) (u acc : R) :
  (forall x, In x l -> u <= x) ->
  acc + INR (List.length l) * u <= fold_left Rplus l acc.
Proof.
  revert acc. induction l as [|a l IH]; intros acc Hu.
  - cbn. lra.
  - cbn [fold_left]. change (List.length (a :: l)) with (S (List.length l)).
    rewrite S_INR.
    specialize (IH (acc + a) (fun x Hx => Hu x (or_intror Hx))).
    specialize (Hu a (or_introl eq_refl)). lra.
Qed.

Lemma meanSquare_above_quietest (l : list R) (m : R) :
  l <> [] -> (forall x, In x l -> m <= x) ->
  pow10 ((m + 0.691) / 10) <= lufsBlocksToMeanSquare l.
Proof.
  intros Hne Hmin. unfold lufsBlocksToMeanSquare. cbv zeta.
  set (ms := map (fun x => pow10 ((x + 0.691) / 10)) l).
  assert (Hlen : 0 < INR (List.length ms)).
  { unfold ms. rewrite length_map. apply lt_0_INR.
    destruct l; [contradiction | cbn; lia]. }
  assert (Hsum : 0 + INR (List.length ms) * pow10 ((m + 0.691) / 10)
                 <= fold_left Rplus ms 0).
  { apply sum_bounded_below. intros x Hx. unfold ms in Hx.
    apply in_map_iff in Hx. destruct Hx as (y & <- & Hy).
    apply pow10_mono. specialize (Hmin y Hy). lra. }
  apply Rmult_le_reg_r with (INR (List.length ms)); [exact Hlen|].
  unfold Rdiv. rewrite Rmult_assoc, Rinv_l by lra. lra.
Qed.

(** The loudness of a non-empty set of blocks lies between its quietest and
    its loudest block, provided the quietest is not below the floor. *)
Lemma gated_loudness_between (l : list R) (lo hi : R) :
  l <> [] -> -120.691 <= lo -> (forall x, In x l -> lo <= x <= hi) ->
  lo <= lufsOfMeanSquare (lufsBlocksToMeanSquare l) <= hi.
Proof.
  intros Hne Hlo Hin.
  pose proof (meanSquare_above_quietest l lo Hne
                (fun x Hx => proj1 (Hin x Hx))) as Hlow.
  pose proof (meanSquare_below_loudest l hi Hne
                (fun x Hx => proj2 (Hin x Hx))) as Hhigh.
  assert (Hfloor : 1e-12 <= pow10 ((lo + 0.691) / 10)).
  { rewrite <- pow10_floor_value. apply pow10_mono. lra. }
  unfold lufsOfMeanSquare.
  set (mean := lufsBlocksToMeanSquare l) in *.
  rewrite Rmax_right by lra.
  assert (H1 : log10 (pow10 ((lo + 0.691) / 10)) <= log10 mean)
    by (apply log10_mono; [apply pow10_pos | exact Hlow]).
  assert (H2 : log10 mean <= log10 (pow10 ((hi + 0.691) / 10)))
    by (apply log10_mono; [lra | exact Hhigh]).
  rewrite log10_pow10 in H1, H2. lra.
Qed.

Lemma filter_keeps_all {A : Type} (f : A -> bool) (l : list A) :
  (forall x, In x l -> f x = true) -> filter f l = l.
Proof.
  induction l as [|a l IH]; intros H; cbn.
  - reflexivity.
  - rewrite (H a) by (left; reflexivity).
    rewrite IH by (intros x Hx; apply H; right; exact Hx). reflexivity.
Qed.

Lemma gtb_true (x y : R) : x > y -> gtb x y = true.
Proof. intros H. unfold gtb. destruct (Rgt_dec x y); [reflexivity | lra]. Qed.

Lemma gtb_false (x y : R) : x <= y -> gtb x y = false.
Proof. intros H. unfold gtb. destruct (Rgt_dec x y); [lra | reflexivity]. Qed.

Lemma gateBlocks_between (blocks : list R) (lo hi : R) :
  blocks <> [] -> -70 < lo -> (forall l, In l blocks -> lo <= l <= hi) ->
  exists v, gateBlocks blocks = Finite v /\ lo <= v <= hi.
Proof.
  intros Hne Hlo Hin.
  assert (Habs : absGatedBlocks blocks = blocks).
  { unfold absGatedBlocks. apply filter_keeps_all. intros x Hx.
    apply gtb_true. unfold absGateLUFS. specialize (Hin x Hx). lra. }
  assert (Hrel : relGatedBlocks blocks <> []).
  { rewrite <- Habs at 1. apply relative_gate_keeps_a_block.
    rewrite Habs. exact Hne. }
  assert (Hsub : forall x, In x (relGatedBlocks blocks) -> lo <= x <= hi).
  { intros x Hx. unfold relGatedBlocks in Hx. cbv zeta in Hx.
    apply filter_In in Hx. apply Hin. apply Hx. }
  exists (lufsOfMeanSquare (lufsBlocksToMeanSquare (relGatedBlocks blocks))).
  split.
  - unfold gateBlocks. destruct blocks as [|b bs]; [contradiction|].
    cbv zeta. rewrite Habs.
    destruct (relGatedBlocks (b :: bs)) as [|g gs] eqn:Hg; [contradiction|].
    reflexivity.
  - apply gated_loudness_between; [exact Hrel | lra | exact Hsub].
Qed.

(** X10: When every analysed block of a buffer is louder than the absolute gate,
    the integrated loudness is a number between the quietest and the
    loudest block; for a steady signal (all blocks equally loud) it is that
    loudness. *)
Theorem integratedLUFS_between_blocks (buffer : AudioBuffer) (lo hi : R) :
  loudnessBlocks buffer <> [] -> -70 < lo ->
  (forall l, In l (loudnessBlocks buffer) -> lo <= l <= hi) ->
  exists v, integratedLUFS_R128Gated buffer = Finite v /\ lo <= v <= hi.
Proof.
  intros Hne Hlo Hin. unfold integratedLUFS_R128Gated.
  apply gateBlocks_between; assumption.
Qed.

(** X11: Whatever the buffer, a finite integrated loudness is never below the
    absolute gate of -70 LUFS. *)
Theorem integratedLUFS_not_below_gate (buffer : AudioBuffer) (v : R) :
  integratedLUFS_R128Gated buffer = Finite v -> -70 <= v.
Proof.
  unfold integratedLUFS_R128Gated, gateBlocks.
  destruct (loudnessBlocks buffer) as [|b bs]; [discriminate|].
  cbv zeta.
  destruct (absGatedBlocks (b :: bs)) as [|a as_] eqn:Ha.
  - intros H. inversion H. unfold absGateLUFS. lra.
  - assert (Hne : absGatedBlocks (b :: bs) <> [])
      by (rewrite Ha; discriminate).
    pose proof (relative_gate_keeps_a_block _ Hne) as Hrel.
    rewrite Ha in Hrel.
    destruct (relGatedBlocks (a :: as_)) as [|g gs] eqn:Hg; [contradiction|].
    intros H. inversion H. subst v. clear H.
    destruct (loudest_block (g :: gs)) as (m & _ & Hmax); [discriminate|].
    assert (Hall : forall x, In x (g :: gs) -> -70 <= x <= m).
    { intros x Hx. split; [|apply Hmax; exact Hx].
      rewrite <- Hg in Hx. unfold relGatedBlocks in Hx. cbv zeta in Hx.
      apply filter_In in Hx. destruct Hx as [Hx _].
      rewrite <- Ha in Hx. unfold absGatedBlocks in Hx.
      apply filter_In in Hx. destruct Hx as [_ Hx].
      unfold gtb, absGateLUFS in Hx.
      destruct (Rgt_dec x (-70.0)); [lra | discriminate]. }
    apply (gated_loudness_between (g :: gs) (-70) m);
      [discriminate | lra | exact Hall].
Qed.

Lemma blocksFrom_length (len blockLen step : nat) (Hs : (1 <= step)%nat)
      (lufsAt : nat -> R) (start : nat) :
  List.length (blocksFrom len blockLen step Hs lufsAt start)
  = if le_dec (start + blockLen) len
    then S ((len - blockLen - start) / step)
    else 0%nat.
Proof.
  funelim (blocksFrom len blockLen step Hs lufsAt start).
  - rewrite Heq. cbn [List.length]. rewrite H. f_equal.
    destruct (le_dec (start + step + blockLen) len) as [Hin | Hout].
    + replace (len - blockLen - start)%nat
        with (1 * step + (len - blockLen - (start + step)))%nat by lia.
      rewrite Nat.div_add_l by lia. reflexivity.
    + rewrite Nat.div_small by lia. reflexivity.
  - rewrite Heq. reflexivity.
Qed.

(** X12: A buffer shorter than one 400 ms block has no loudness block; a longer
    one has one block per 100 ms hop that still fits. *)
Theorem loudnessBlocks_count (buffer : AudioBuffer) :
  let blockLen := blockLenOf (sampleRate buffer) in
  let step := stepOf (sampleRate buffer) in
  List.length (loudnessBlocks buffer)
  = if (length_ buffer <? blockLen)%nat then 0%nat
    else S ((length_ buffer - blockLen) / step).
Proof.
  cbv zeta. unfold loudnessBlocks. cbv zeta. rewrite blocksFrom_length.
  destruct (Nat.ltb_spec (length_ buffer) (blockLenOf (sampleRate buffer)));
    destruct (le_dec (0 + blockLenOf (sampleRate buffer)) (length_ buffer));
    try lia; rewrite ?Nat.sub_0_r; reflexivity.
Qed.

(** ** Integrated loudness under gain *)

Lemma blockLUFS_meanSquare (buffer : AudioBuffer) (blockLen start : nat) :
  blockLUFS buffer blockLen start
  = lufsOfMeanSquare (blockMeanSquare buffer blockLen start).
Proof. reflexivity. Qed.

Lemma sumSquares_gain (g : R) (data : nat -> R) (start blockLen : nat) :
  sumSquares (fun i => g * data i) start blockLen
  = g * g * sumSquares data start blockLen.
Proof.
  unfold sumSquares. rewrite <- (Rmult_0_r (g * g)) at 1.
  apply fold_left_scaled. intros q i _. cbv zeta. ring.
Qed.

Lemma blockMeanSquare_gain (g : R) (buffer : AudioBuffer)
      (blockLen start : nat) :
  blockMeanSquare (applyGain g buffer) blockLen start
  = g * g * blockMeanSquare buffer blockLen start.
Proof.
  unfold blockMeanSquare.
  cbn [numberOfChannels applyGain getChannelData].
  unfold Rdiv at 1 3. rewrite <- Rmult_assoc. f_equal.
  rewrite <- (Rmult_0_r (g * g)) at 1.
  apply fold_left_scaled. intros q c _.
  rewrite sumSquares_gain. unfold Rdiv. ring.
Qed.

Lemma lufs_above_gate_meanSquare (ms : R) :
  lufsOfMeanSquare ms > -70 -> 1e-12 < ms.
Proof.
  unfold lufsOfMeanSquare. intros H.
  destruct (Rlt_le_dec 1e-12 ms) as [Hlt | Hle]; [exact Hlt|].
  rewrite Rmax_left in H by exact Hle.
  rewrite log10_floor_value in H. lra.
Qed.

Lemma lufsOfMeanSquare_gain (d ms : R) :
  lufsOfMeanSquare ms > -70 -> lufsOfMeanSquare ms + d > -70 ->
  lufsOfMeanSquare (pow10 (d / 10) * ms) = lufsOfMeanSquare ms + d.
Proof.
  intros H1 H2. pose proof (lufs_above_gate_meanSquare ms H1) as Hms.
  pose proof (pow10_pos (d / 10)) as Hk.
  assert (Hprod : 0 < pow10 (d / 10) * ms) by (apply Rmult_lt_0_compat; lra).
  assert (Hlog : log10 (pow10 (d / 10) * ms) = d / 10 + log10 ms).
  { rewrite log10_mult by lra. rewrite log10_pow10. reflexivity. }
  unfold lufsOfMeanSquare in *.
  rewrite (Rmax_right 1e-12 ms) in * by lra.
  destruct (Rlt_le_dec 1e-12 (pow10 (d / 10) * ms)) as [Hlt | Hle].
  - rewrite Rmax_right by lra. rewrite Hlog. lra.
  - exfalso.
    assert (Hle' : log10 (pow10 (d / 10) * ms) <= log10 1e-12)
      by (apply log10_mono; assumption).
    rewrite Hlog, log10_floor_value in Hle'. lra.
Qed.

Lemma dbToLin_squared (d : R) : dbToLin d * dbToLin d = pow10 (d / 10).
Proof.
  unfold dbToLin. rewrite <- pow10_add. f_equal. lra.
Qed.

Lemma blockLUFS_gain (d : R) (buffer : AudioBuffer) (blockLen start : nat) :
  blockLUFS buffer blockLen start > -70 ->
  blockLUFS buffer blockLen start + d > -70 ->
  blockLUFS (applyGain (dbToLin d) buffer) blockLen start
  = blockLUFS buffer blockLen start + d.
Proof.
  rewrite !blockLUFS_meanSquare, blockMeanSquare_gain, dbToLin_squared.
  apply lufsOfMeanSquare_gain.
Qed.

Lemma blocksFrom_map (len blockLen step : nat) (Hs : (1 <= step)%nat)
      (f g : nat -> R) (h : R -> R) (P : R -> Prop) (start : nat) :
  (forall s, P (f s) -> g s = h (f s)) ->
  Forall P (blocksFrom len blockLen step Hs f start) ->
  blocksFrom len blockLen step Hs g start
  = map h (blocksFrom len blockLen step Hs f start).
Proof.
  intros Hfg. funelim (blocksFrom len blockLen step Hs f start).
  - intros Hall. inversion Hall as [|x xs Hx Hxs]. subst.
    rewrite (blocksFrom_equation_1 len blockLen step Hs g start), Heq.
    cbn. rewrite Hfg by exact Hx. f_equal. eapply H; eassumption.
  - intros _.
    rewrite (blocksFrom_equation_1 len blockLen step Hs g start), Heq.
    reflexivity.
Qed.

Lemma sum_scaled (k : R) (l : list R) (acc : R) :
  fold_left Rplus (map (fun x => k * x) l) (k * acc)
  = k * fold_left Rplus l acc.
Proof.
  revert acc. induction l as [|a l IH]; intros acc; cbn.
  - reflexivity.
  - rewrite <- Rmult_plus_distr_l. apply IH.
Qed.

Lemma meanSquare_shift (d : R) (l : list R) :
  lufsBlocksToMeanSquare (map (fun x => x + d) l)
  = pow10 (d / 10) * lufsBlocksToMeanSquare l.
Proof.
  unfold lufsBlocksToMeanSquare. cbv zeta. rewrite !length_map, map_map.
  rewrite (map_ext (fun x => pow10 ((x + d + 0.691) / 10))
                   (fun x => pow10 (d / 10) * pow10 ((x + 0.691) / 10))).
  2:{ intros x. rewrite <- pow10_add. f_equal. lra. }
  rewrite <- (map_map (fun x => pow10 ((x + 0.691) / 10))
                      (fun y => pow10 (d / 10) * y)).
  rewrite <- (Rmult_0_r (pow10 (d / 10))) at 1.
  rewrite sum_scaled. unfold Rdiv. ring.
Qed.

Lemma loudness_shift (d : R) (l : list R) :
  l <> [] -> (forall x, In x l -> x > -70) ->
  (forall x, In x l -> x + d > -70) ->
  lufsOfMeanSquare (lufsBlocksToMeanSquare (map (fun x => x + d) l))
  = lufsOfMeanSquare (lufsBlocksToMeanSquare l) + d.
Proof.
  intros Hne H1 H2. rewrite meanSquare_shift.
  destruct (loudest_block l Hne) as (m & Hm & Hmax).
  assert (Hb : -70 <= lufsOfMeanSquare (lufsBlocksToMeanSquare l) <= m).
  { apply gated_loudness_between; [exact Hne | lra |].
    intros x Hx. split; [specialize (H1 x Hx); lra | apply Hmax; exact Hx]. }
  (* the quietest block bounds the loudness strictly above the gate *)
  assert (Hq : exists q, q > -70 /\ q + d > -70 /\ forall x, In x l -> q <= x).
  { clear Hb Hm Hmax m. induction l as [|a l IH]; [contradiction|].
    destruct l as [|b l].
    - exists a. repeat split; [apply H1 | apply H2 |]; try (left; reflexivity).
      intros x [<- | []]. lra.
    - destruct IH as (q & Hq1 & Hq2 & Hq3); [discriminate | | |].
      + intros x Hx. apply H1. right. exact Hx.
      + intros x Hx. apply H2. right. exact Hx.
      + destruct (Rle_dec a q) as [Haq | Haq].
        * exists a. repeat split;
            [apply H1; left; reflexivity | apply H2; left; reflexivity |].
          intros x [<- | Hx]; [lra | specialize (Hq3 x Hx); lra].
        * exists q. repeat split; [exact Hq1 | exact Hq2 |].
          intros x [<- | Hx]; [lra | apply Hq3; exact Hx]. }
  destruct Hq as (q & Hq1 & Hq2 & Hq3).
  assert (Hlow : q <= lufsOfMeanSquare (lufsBlocksToMeanSquare l) <= m).
  { apply gated_loudness_between; [exact Hne | lra |].
    intros x Hx. split; [apply Hq3 | apply Hmax]; exact Hx. }
  apply lufsOfMeanSquare_gain; lra.
Qed.

Lemma filter_map_commute {A B : Type} (f : B -> bool) (h : A -> B)
      (l : list A) :
  filter f (map h l) = map h (filter (fun x => f (h x)) l).
Proof.
  induction l as [|a l IH]; cbn.
  - reflexivity.
  - destruct (f (h a)); cbn; rewrite IH; reflexivity.
Qed.

Lemma gtb_shift (x y d : R) : gtb (x + d) (y + d - 10.0) = gtb x (y - 10.0).
Proof.
  unfold gtb. destruct (Rgt_dec (x + d) (y + d - 10.0)),
                (Rgt_dec x (y - 10.0)); try reflexivity; lra.
Qed.

Lemma gateBlocks_all_above (l : list R) :
  l <> [] -> (forall x, In x l -> x > -70) ->
  relGatedBlocks l <> [] /\
  gateBlocks l
  = Finite (lufsOfMeanSquare (lufsBlocksToMeanSquare (relGatedBlocks l))).
Proof.
  intros Hne H1.
  assert (Habs : absGatedBlocks l = l).
  { unfold absGatedBlocks. apply filter_keeps_all. intros x Hx.
    apply gtb_true. unfold absGateLUFS. specialize (H1 x Hx). lra. }
  assert (Hrel : relGatedBlocks l <> []).
  { rewrite <- Habs at 1. apply relative_gate_keeps_a_block.
    rewrite Habs. exact Hne. }
  split; [exact Hrel|].
  unfold gateBlocks. destruct l as [|b bs]; [contradiction|].
  cbv zeta. rewrite Habs.
  destruct (relGatedBlocks (b :: bs)) as [|g gs]; [contradiction|].
  reflexivity.
Qed.

Lemma gateBlocks_shift (d : R) (blocks : list R) :
  (forall x, In x blocks -> x > -70) ->
  (forall x, In x blocks -> x + d > -70) ->
  gateBlocks (map (fun x => x + d) blocks)
  = shiftLoudness d (gateBlocks blocks).
Proof.
  intros H1 H2. destruct blocks as [|b bs]; [reflexivity|].
  set (l := b :: bs) in *.
  assert (Hne : l <> []) by discriminate.
  assert (Hne' : map (fun x => x + d) l <> []) by discriminate.
  assert (H1' : forall x, In x (map (fun x => x + d) l) -> x > -70).
  { intros x Hx. apply in_map_iff in Hx. destruct Hx as (y & <- & Hy).
    apply H2. exact Hy. }
  destruct (gateBlocks_all_above l Hne H1) as [Hrel ->].
  destruct (gateBlocks_all_above _ Hne' H1') as [_ ->].
  assert (Hrel' : relGatedBlocks (map (fun x => x + d) l)
                  = map (fun x => x + d) (relGatedBlocks l)).
  { unfold relGatedBlocks. cbv zeta. unfold ungatedLUFSOf.
    rewrite loudness_shift by assumption.
    rewrite filter_map_commute. f_equal.
    apply filter_ext. intros x. apply gtb_shift. }
  assert (Hsub : forall x, In x (relGatedBlocks l) -> In x l).
  { intros x Hx. unfold relGatedBlocks in Hx. cbv zeta in Hx.
    apply filter_In in Hx. apply Hx. }
  rewrite Hrel'. cbn [shiftLoudness]. f_equal.
  apply loudness_shift.
  - exact Hrel.
  - intros x Hx. apply H1. apply Hsub. exact Hx.
  - intros x Hx. apply H2. apply Hsub. exact Hx.
Qed.

Lemma loudnessBlocks_gain (buffer : AudioBuffer) (d : R) :
  (forall l, In l (loudnessBlocks buffer) -> l > -70) ->
  (forall l, In l (loudnessBlocks buffer) -> l + d > -70) ->
  loudnessBlocks (applyGain (dbToLin d) buffer)
  = map (fun x => x + d) (loudnessBlocks buffer).
Proof.
  intros H1 H2.
  unfold loudnessBlocks. cbv zeta. cbn [sampleRate length_ applyGain].
  apply (blocksFrom_map _ _ _ _ _ _ _
           (fun l => l > -70 /\ l + d > -70)).
  - intros s [Ha Hb]. apply blockLUFS_gain; assumption.
  - apply Forall_forall. intros l Hl. split; [apply H1 | apply H2];
      exact Hl.
Qed.

(** X13: A gain of [d] decibels moves the integrated loudness by exactly [d]
    decibels, as long as every block stays above the absolute gate before
    and after the gain: this is what the trim
    [targetIntegratedLUFS - integrated] relies on. *)
Theorem integratedLUFS_gain (buffer : AudioBuffer) (d : R) :
  (forall l, In l (loudnessBlocks buffer) -> l > -70) ->
  (forall l, In l (loudnessBlocks buffer) -> l + d > -70) ->
  integratedLUFS_R128Gated (applyGain (dbToLin d) buffer)
  = shiftLoudness d (integratedLUFS_R128Gated buffer).
Proof.
  intros H1 H2. unfold integratedLUFS_R128Gated.
  rewrite loudnessBlocks_gain by assumption.
  apply gateBlocks_shift; assumption.
Qed.

(** *** A steady signal: two seconds of full-scale DC *)

Lemma sumSquares_ones (start blockLen : nat) :
  sumSquares (fun _ => 1) start blockLen = INR blockLen.
Proof.
  unfold sumSquares.
  assert (H : forall l acc,
             fold_left (fun (s : R) (_ : nat) => let x := 1 in s + x * x) l acc
             = acc + INR (List.length l)).
  { induction l as [|i l IH]; intros acc.
    - cbn. lra.
    - cbn [fold_left]. rewrite IH.
      change (List.length (i :: l)) with (S (List.length l)).
      rewrite S_INR. cbv zeta. lra. }
  rewrite H, length_seq. lra.
Qed.

Lemma blockLenOf_pos (sr : R) : (1 <= blockLenOf sr)%nat.
Proof. unfold blockLenOf. lia. Qed.

Lemma dcClip_block (start : nat) :
  blockLUFS dcClip (blockLenOf (sampleRate dcClip)) start = -0.691.
Proof.
  rewrite blockLUFS_meanSquare. unfold blockMeanSquare.
  cbn [numberOfChannels getChannelData dcClip seq fold_left].
  rewrite sumSquares_ones.
  assert (Hn : 0 < INR (blockLenOf (sampleRate dcClip))).
  { apply lt_0_INR. pose proof (blockLenOf_pos (sampleRate dcClip)). lia. }
  replace ((0 + INR (blockLenOf (sampleRate dcClip))
                / INR (blockLenOf (sampleRate dcClip))) / INR 1)
    with 1 by (cbn [INR]; field; lra).
  unfold lufsOfMeanSquare. rewrite Rmax_right by lra.
  unfold log10. rewrite ln_1. lra.
Qed.

Lemma dcClip_blocks :
  loudnessBlocks dcClip <> [] /\
  forall l, In l (loudnessBlocks dcClip) -> l = -0.691.
Proof.
  split.
  - unfold loudnessBlocks. cbv zeta. apply blocksFrom_nonempty.
    change (sampleRate dcClip) with (sampleRate silentClip).
    rewrite silentClip_blockLen. cbn [length_ dcClip].
    apply Z2Nat.inj_le; lia.
  - assert (H : Forall (fun l => l = -0.691) (loudnessBlocks dcClip)).
    { unfold loudnessBlocks. cbv zeta. apply blocksFrom_Forall.
      intros s _. apply dcClip_block. }
    intros l Hl. rewrite Forall_forall in H. apply H. exact Hl.
Qed.

Lemma integratedLUFS_between_blocks_witness :
  loudnessBlocks dcClip <> [] /\ -70 < -0.691 /\
  (forall l, In l (loudnessBlocks dcClip) -> -0.691 <= l <= -0.691) /\
  exists v, integratedLUFS_R128Gated dcClip = Finite v
            /\ -0.691 <= v <= -0.691.
Proof.
  destruct dcClip_blocks as [Hne Hall].
  assert (H2 : -70 < -0.691) by lra.
  assert (H3 : forall l, In l (loudnessBlocks dcClip)
                         -> -0.691 <= l <= -0.691).
  { intros l Hl. rewrite (Hall l Hl). lra. }
  split; [exact Hne | split; [exact H2 | split; [exact H3 |]]].
  exact (integratedLUFS_between_blocks dcClip (-0.691) (-0.691) Hne H2 H3).
Defined.

Lemma integratedLUFS_gain_witness :
  (forall l, In l (loudnessBlocks dcClip) -> l > -70) /\
  (forall l, In l (loudnessBlocks dcClip) -> l + -3 > -70) /\
  integratedLUFS_R128Gated (applyGain (dbToLin (-3)) dcClip)
  = shiftLoudness (-3) (integratedLUFS_R128Gated dcClip).
Proof.
  destruct dcClip_blocks as [_ Hall].
  assert (H1 : forall l, In l (loudnessBlocks dcClip) -> l > -70)
    by (intros l Hl; rewrite (Hall l Hl); lra).
  assert (H2 : forall l, In l (loudnessBlocks dcClip) -> l + -3 > -70)
    by (intros l Hl; rewrite (Hall l Hl); lra).
  split; [exact H1 | split; [exact H2 |]].
  exact (integratedLUFS_gain dcClip (-3) H1 H2).
Defined.

Lemma silentClip_loudness : integratedLUFS_R128Gated silentClip = Finite (-70).
Proof.
  assert (Hz : allZero silentClip) by (intros c i _ _; reflexivity).
  unfold integratedLUFS_R128Gated, gateBlocks.
  rewrite (silent_blocks_gated_out silentClip Hz).
  destruct (loudnessBlocks silentClip) as [|l ls] eqn:Hb.
  - exfalso. revert Hb. unfold loudnessBlocks. cbv zeta.
    apply blocksFrom_nonempty. rewrite silentClip_blockLen.
    cbn [length_ silentClip]. apply Z2Nat.inj_le; lia.
  - unfold absGateLUFS. f_equal. lra.
Qed.

Lemma integratedLUFS_not_below_gate_witness :
  integratedLUFS_R128Gated silentClip = Finite (-70) /\ -70 <= -70.
Proof.
  split; [exact silentClip_loudness |].
  exact (integratedLUFS_not_below_gate silentClip (-70) silentClip_loudness).
Defined.

(** Full-scale DC measures -0.691 LUFS, and -3.691 LUFS after a gain of
    -3 dB. *)
Example dcClip_loudness :
  integratedLUFS_R128Gated dcClip = Finite (-0.691) /\
  integratedLUFS_R128Gated (applyGain (dbToLin (-3)) dcClip)
  = Finite (-3.691).
Proof.
  destruct dcClip_blocks as [Hne Hall].
  assert (Hv : integratedLUFS_R128Gated dcClip = Finite (-0.691)).
  { destruct (gateBlocks_between (loudnessBlocks dcClip) (-0.691) (-0.691))
      as (v & Hv & Hb).
    - exact Hne.
    - lra.
    - intros l Hl. rewrite (Hall l Hl). lra.
    - unfold integratedLUFS_R128Gated. rewrite Hv. f_equal. lra. }
  split; [exact Hv|].
  assert (H1 : forall l, In l (loudnessBlocks dcClip) -> l > -70)
    by (intros l Hl; rewrite (Hall l Hl); lra).
  assert (H2 : forall l, In l (loudnessBlocks dcClip) -> l + -3 > -70)
    by (intros l Hl; rewrite (Hall l Hl); lra).
  unfold integratedLUFS_R128Gated in *.
  rewrite loudnessBlocks_gain, gateBlocks_shift, Hv by assumption.
  cbn [shiftLoudness]. f_equal. lra.
Qed.

(* ================================================================= *)
(** ** Track storage in memory *)

Lemma assignFirst_ids (p : Storage.Track -> bool)
      (f : Storage.Track -> Storage.Track) (l : list Storage.Track) :
  (forall t, Storage.id (f t) = Storage.id t) ->
  map Storage.id (Storage.assignFirst p f l) = map Storage.id l.
Proof.
  intros Hf. induction l as [|x rest IH]; cbn.
  - reflexivity.
  - destruct (p x); cbn; [rewrite Hf | rewrite IH]; reflexivity.
Qed.

Lemma call_ids (this : Storage.MemoryStorage) (c : Storage.Call) :
  map Storage.id (Storage.data (Storage.call this c))
  = (if Storage.isCreate c then [Storage.nextId this] else [])
    ++ map Storage.id (Storage.data this)
  /\ Storage.nextId (Storage.call this c)
     = (Storage.nextId this + (if Storage.isCreate c then 1 else 0))%Z.
Proof.
  destruct c as [now ins | | i s u]; cbn.
  - split; reflexivity.
  - split; [reflexivity | lia].
  - unfold Storage.updateVideoStatus.
    destruct (find _ (Storage.data this)) as [t|]; cbn.
    + split; [| lia]. apply assignFirst_ids. reflexivity.
    + split; [reflexivity | lia].
Qed.

Lemma history_ids (calls : list Storage.Call) :
  let this := fold_left Storage.call calls Storage.newStorage in
  let n := List.length (filter Storage.isCreate calls) in
  map Storage.id (Storage.data this) = map Z.of_nat (rev (seq 1 n))
  /\ Storage.nextId this = (Z.of_nat n + 1)%Z.
Proof.
  induction calls as [|c calls IH] using rev_ind; cbv zeta.
  - split; reflexivity.
  - cbv zeta in IH. destruct IH as [IHd IHn].
    rewrite fold_left_app, filter_app, length_app. cbn [fold_left filter].
    destruct (call_ids (fold_left Storage.call calls Storage.newStorage) c)
      as [Hd Hn].
    rewrite Hd, Hn, IHd, IHn.
    destruct (Storage.isCreate c); cbn [List.length app].
    + rewrite Nat.add_1_r, seq_S, rev_app_distr. cbn. split.
      * f_equal. lia.
      * lia.
    + rewrite Nat.add_0_r. split; [reflexivity | lia].
Qed.

Lemma handed_out_distinct (n : nat) :
  NoDup (map Z.of_nat (rev (seq 1 n))).
Proof.
  assert (H : forall l : list nat, NoDup l -> NoDup (map Z.of_nat l)).
  { induction l as [|a l IH]; intros Hnd; cbn; [constructor |].
    inversion Hnd as [|? ? Hnotin Hrest]; subst. constructor.
    - rewrite in_map_iff. intros [b [Hb Hin]].
      apply Nat2Z.inj in Hb. subst b. exact (Hnotin Hin).
    - apply IH. exact Hrest. }
  apply H, NoDup_rev, seq_NoDup.
Qed.

(** X14: Whatever calls were made on a fresh store, the list it returns carries
    the identifiers [n, ..., 2, 1], newest first, where [n] is the number
    of tracks created; the next identifier is [n + 1]. *)
Theorem storage_ids_newest_first (calls : list Storage.Call) :
  let this := fold_left Storage.call calls Storage.newStorage in
  let n := List.length (filter Storage.isCreate calls) in
  map Storage.id (Storage.getTracks this) = map Z.of_nat (rev (seq 1 n))
  /\ NoDup (map Storage.id (Storage.getTracks this))
  /\ Storage.nextId this = (Z.of_nat n + 1)%Z.
Proof.
  cbv zeta. destruct (history_ids calls) as [Hd Hn]. cbv zeta in Hd, Hn.
  unfold Storage.getTracks. rewrite Hd, Hn. repeat split.
  apply handed_out_distinct.
Qed.

Lemma map_unchanged {A : Type} (g : A -> A) (l : list A) :
  (forall t, In t l -> g t = t) -> map g l = l.
Proof.
  induction l as [|a l IH]; intros H; cbn.
  - reflexivity.
  - rewrite (H a) by (left; reflexivity). f_equal.
    apply IH. intros t Ht. apply H. right. exact Ht.
Qed.

Lemma assignFirst_unique (i : Z) (f : Storage.Track -> Storage.Track)
      (l : list Storage.Track) :
  NoDup (map Storage.id l) ->
  Storage.assignFirst (fun x => Z.eqb (Storage.id x) i) f l
  = map (fun t => if Z.eqb (Storage.id t) i then f t else t) l.
Proof.
  induction l as [|x rest IH]; intros Hnd; cbn.
  - reflexivity.
  - cbn in Hnd. inversion Hnd as [|? ? Hnotin Hrest]; subst.
    destruct (Z.eqb_spec (Storage.id x) i) as [Heq | Hne].
    + f_equal. symmetry. apply map_unchanged. intros t Ht.
      destruct (Z.eqb_spec (Storage.id t) i) as [Hti | _]; [| reflexivity].
      exfalso. apply Hnotin. rewrite Heq, <- Hti. apply in_map. exact Ht.
    + f_equal. apply IH. exact Hrest.
Qed.

Lemma find_id_none (i : Z) (l : list Storage.Track) :
  find (fun x => Z.eqb (Storage.id x) i) l = None
  <-> ~ In i (map Storage.id l).
Proof.
  induction l as [|x rest IH]; cbn.
  - split; [intros _ [] | reflexivity].
  - destruct (Z.eqb_spec (Storage.id x) i) as [Heq | Hne].
    + split; [discriminate | intros H; exfalso; apply H; left; exact Heq].
    + rewrite IH. split.
      * intros H [Hx | Hin]; [exact (Hne Hx) | exact (H Hin)].
      * intros H Hin. apply H. right. exact Hin.
Qed.

(** X15: After any history of calls, [updateVideoStatus] rewrites the status and
    the link of the track that carries the identifier and leaves every other
    track, the order of the list and the identifier counter as they were;
    it answers [undefined] exactly when the identifier was never handed
    out, and then changes nothing. *)
Theorem updateVideoStatus_touches_only_its_track
        (calls : list Storage.Call) (i : Z) (status : string)
        (url : option string) :
  let this := fold_left Storage.call calls Storage.newStorage in
  let n := List.length (filter Storage.isCreate calls) in
  let assign := fun t =>
    Storage.mkTrack (Storage.id t) (Storage.title t) (Storage.artist t)
                    (Storage.createdAt t) status url in
  let result := Storage.updateVideoStatus i status url this in
  Storage.getTracks (snd result)
  = map (fun t => if Z.eqb (Storage.id t) i then assign t else t)
        (Storage.getTracks this)
  /\ Storage.nextId (snd result) = Storage.nextId this
  /\ (fst result = None <-> ~ (1 <= i <= Z.of_nat n)%Z)
  /\ (fst result = None -> snd result = this)
  /\ (forall t, fst result = Some t ->
                In t (Storage.getTracks (snd result))
                /\ Storage.id t = i
                /\ Storage.videoStatus t = status
                /\ Storage.videoUrl t = url).
Proof.
  cbv zeta. destruct (history_ids calls) as [Hd Hn]. cbv zeta in Hd, Hn.
  set (this := fold_left Storage.call calls Storage.newStorage) in *.
  set (n := List.length (filter Storage.isCreate calls)) in *.
  assert (Hnd : NoDup (map Storage.id (Storage.data this))).
  { rewrite Hd. apply handed_out_distinct. }
  assert (Hin : In i (map Storage.id (Storage.data this))
                <-> (1 <= i <= Z.of_nat n)%Z).
  { rewrite Hd, in_map_iff. split.
    - intros [k [Hk Hink]]. apply in_rev, in_seq in Hink. lia.
    - intros Hi. exists (Z.to_nat i). split; [lia |].
      apply -> in_rev. apply in_seq. lia. }
  unfold Storage.updateVideoStatus, Storage.getTracks.
  destruct (find (fun x => Z.eqb (Storage.id x) i) (Storage.data this))
    as [t|] eqn:Hfind; cbn [fst snd Storage.data Storage.nextId].
  - repeat split.
    + apply assignFirst_unique. exact Hnd.
    + discriminate.
    + intros Hout. exfalso. apply Hout, Hin.
      destruct (find_id_none i (Storage.data this)) as [_ Hback].
      destruct (in_dec Z.eq_dec i (map Storage.id (Storage.data this)))
        as [Hyes | Hno]; [exact Hyes |].
      rewrite (Hback Hno) in Hfind. discriminate.
    + discriminate.
    + injection H as <-. rewrite assignFirst_unique by exact Hnd.
      apply find_some in Hfind. destruct Hfind as [Hmem Hid].
      apply in_map_iff. exists t. rewrite Hid. split; [reflexivity | exact Hmem].
    + injection H as <-. apply find_some in Hfind. cbn.
      destruct Hfind as [_ Hid]. apply Z.eqb_eq. exact Hid.
    + injection H as <-. reflexivity.
    + injection H as <-. reflexivity.
  - apply find_id_none in Hfind. repeat split.
    + symmetry. apply map_unchanged. intros t Ht.
      destruct (Z.eqb_spec (Storage.id t) i) as [Hti | _]; [| reflexivity].
      exfalso. apply Hfind. rewrite <- Hti. apply in_map. exact Ht.
    + intros _ Hi. apply Hfind, Hin. exact Hi.
    + discriminate.
    + discriminate.
    + discriminate.
    + discriminate.
Qed.

(** X16: A track that has just been created is found by its identifier: the
    update answers the track as it was created (title, artist, date) with
    the new status and link, and the list begins with that track. *)
Theorem createTrack_then_updateVideoStatus
        (now : Z) (insertTrack : Storage.InsertTrack)
        (this : Storage.MemoryStorage) (status : string)
        (url : option string) :
  let created := Storage.createTrack now insertTrack this in
  let updated :=
    Storage.mkTrack (Storage.nextId this) (Storage.insertTitle insertTrack)
                    (Storage.insertArtist insertTrack) now status url in
  Storage.updateVideoStatus (Storage.id (fst created)) status url (snd created)
  = (Some updated,
     Storage.mkStorage (updated :: Storage.getTracks this)
                       (Storage.nextId this + 1)).
Proof.
  cbv zeta. unfold Storage.createTrack, Storage.updateVideoStatus.
  cbn [fst snd Storage.id Storage.data Storage.nextId find
       Storage.assignFirst Storage.title Storage.artist Storage.createdAt].
  rewrite Z.eqb_refl. reflexivity.
Qed.

(* ================================================================= *)
(** ** The clock of the player *)

Lemma Int_part_whole_plus (z : Z) (r : R) :
  0 <= r < 1 -> Int_part (IZR z + r) = z.
Proof.
  intros Hr. symmetry. apply Int_part_spec. lra.
Qed.

Lemma clock_split (m s : nat) (frac : R) :
  (s < 60)%nat -> 0 <= frac < 1 ->
  let seconds := INR (60 * m + s) + frac in
  floor (seconds / 60) = Z.of_nat m
  /\ floor (remainder seconds 60) = Z.of_nat s.
Proof.
  intros Hs Hfrac. cbv zeta.
  assert (HS : 0 <= IZR (Z.of_nat s) <= 59).
  { split; [apply IZR_le; lia |].
    replace 59 with (IZR 59) by reflexivity. apply IZR_le. lia. }
  assert (Hx : INR (60 * m + s) + frac
               = 60 * IZR (Z.of_nat m) + IZR (Z.of_nat s) + frac).
  { rewrite INR_IZR_INZ, Nat2Z.inj_add, Nat2Z.inj_mul, plus_IZR, mult_IZR.
    reflexivity. }
  assert (Hq : (INR (60 * m + s) + frac) / 60
               = IZR (Z.of_nat m) + (IZR (Z.of_nat s) + frac) / 60).
  { rewrite Hx. field. }
  assert (Hm : Int_part ((INR (60 * m + s) + frac) / 60) = Z.of_nat m).
  { rewrite Hq. apply Int_part_whole_plus. lra. }
  split.
  - unfold floor. exact Hm.
  - unfold floor, remainder, truncate.
    destruct (Rle_dec 0 ((INR (60 * m + s) + frac) / 60)) as [_ | Hneg].
    + rewrite Hm, Hx.
      replace (60 * IZR (Z.of_nat m) + IZR (Z.of_nat s) + frac
               - 60 * IZR (Z.of_nat m))
        with (IZR (Z.of_nat s) + frac) by ring.
      apply Int_part_whole_plus. exact Hfrac.
    + exfalso. apply Hneg. rewrite Hq.
      assert (0 <= IZR (Z.of_nat m)) by (apply IZR_le; lia). lra.
Qed.

Lemma seconds_field (beyond : Z -> string) (s : nat) :
  (s < 60)%nat ->
  padStart 2 (numberToString beyond (Z.of_nat s))
  = String (ascii_of_nat (48 + s / 10))
           (String (ascii_of_nat (48 + s mod 10)) EmptyString).
Proof.
  intros Hs.
  do 60 (destruct s as [|s]; [vm_compute; reflexivity |]).
  lia.
Qed.

(** X17: For a time of [m] minutes, [s < 60] whole seconds and a fraction of
    a second, with fewer than [2^53] whole seconds in all, the clock shows
    the decimal numeral of [m], a colon and the seconds as exactly two
    digits, the fraction dropped. *)
Theorem formatTime_minutes_seconds (beyond : Z -> string) (m s : nat)
        (frac : R) :
  (s < 60)%nat -> 0 <= frac < 1 -> (Z.of_nat (60 * m + s) < 2 ^ 53)%Z ->
  formatTime beyond (INR (60 * m + s) + frac)
  = (NilZero.string_of_int (Z.to_int (Z.of_nat m)) ++ ":"
     ++ String (ascii_of_nat (48 + s / 10))
               (String (ascii_of_nat (48 + s mod 10)) EmptyString))%string.
Proof.
  intros Hs Hfrac Hm. unfold formatTime. cbv zeta.
  destruct (clock_split m s frac Hs Hfrac) as [Hmins Hsecs].
  cbv zeta in Hmins, Hsecs. rewrite Hmins, Hsecs.
  rewrite seconds_field by exact Hs.
  unfold numberToString.
  replace (Z.abs (Z.of_nat m) <? 2 ^ 53)%Z with true
    by (symmetry; apply Z.ltb_lt; lia).
  reflexivity.
Qed.

Lemma formatTime_minutes_seconds_witness :
  (7 < 60)%nat /\ 0 <= 0.5 < 1 /\ (Z.of_nat (60 * 3 + 7) < 2 ^ 53)%Z /\
  formatTime (fun _ => EmptyString) (INR (60 * 3 + 7) + 0.5) = "3:07"%string.
Proof.
  assert (H1 : (7 < 60)%nat) by lia.
  assert (H2 : 0 <= 0.5 < 1) by lra.
  assert (H3 : (Z.of_nat (60 * 3 + 7) < 2 ^ 53)%Z) by (vm_compute; reflexivity).
  split; [exact H1 | split; [exact H2 | split; [exact H3 |]]].
  exact (formatTime_minutes_seconds (fun _ => EmptyString) 3 7 0.5 H1 H2 H3).
Defined.

(* ================================================================= *)
(** ** Sample conversion of the two exporters *)






Lemma storeInt16_in_range (x : R) :
  (-32768 <= truncate x <= 32767)%Z -> storeInt16 x = truncate x.
Proof.
  intros H. unfold storeInt16. rewrite Z.mod_small by lia. lia.
Qed.

Lemma toInt16_nth (buffer : AudioBuffer) (channel i : nat) :
  (i < length_ buffer)%nat ->
  nth i (toInt16 (channelData buffer channel)) 0%Z
  = pcm16 (getChannelData buffer channel i).
Proof.
  intros Hi. unfold toInt16, channelData. rewrite map_map.
  rewrite (nth_indep _ 0%Z
             ((fun k => storeInt16 (scaleSample (getChannelData buffer channel k)))
                O))
    by (rewrite length_map, length_seq; exact Hi).
  rewrite (map_nth (fun k => storeInt16 (scaleSample (getChannelData buffer channel k)))).
  rewrite seq_nth by exact Hi. cbn [Nat.add].
  apply storeInt16_in_range. apply pcm16_range.
Qed.

(** X19: The MP3 exporter hands the encoder the very sixteen-bit samples the WAV
    exporter writes: sample [i] of channel [channel] of [toInt16] is the
    number a reader finds at that frame and channel of the WAV file. *)
Theorem mp3_and_wav_share_samples (buffer : AudioBuffer) (i channel : nat) :
  (i < length_ buffer)%nat -> (channel < numberOfChannels buffer)%nat ->
  exists bytes,
    bufferToWav buffer = Some bytes
    /\ nth i (toInt16 (channelData buffer channel)) 0%Z
       = getInt16 bytes (sampleOffset buffer i channel).
Proof.
  intros Hi Hc. exists (wavHeader buffer ++ wavData buffer). split.
  - apply bufferToWav_closed_form.
  - rewrite sample_read by assumption. apply toInt16_nth. exact Hi.
Qed.

Lemma mp3_and_wav_share_samples_witness :
  (1 < length_ twoSampleClip)%nat /\
  (0 < numberOfChannels twoSampleClip)%nat /\
  exists bytes,
    bufferToWav twoSampleClip = Some bytes
    /\ nth 1 (toInt16 (channelData twoSampleClip 0)) 0%Z
       = getInt16 bytes (sampleOffset twoSampleClip 1 0).
Proof.
  assert (H1 : (1 < length_ twoSampleClip)%nat) by (cbn; lia).
  assert (H2 : (0 < numberOfChannels twoSampleClip)%nat) by (cbn; lia).
  split; [exact H1 | split; [exact H2 |]].
  exact (mp3_and_wav_share_samples twoSampleClip 1 0 H1 H2).
Defined.

(* ================================================================= *)
(** ** The chunks handed to the MP3 encoder *)

Lemma subarray_chunk {A : Type} (a : list A) (i : nat) :
  subarray a i (i + chunkSize) = firstn chunkSize (skipn i a).
Proof.
  unfold subarray. replace (i + chunkSize - i)%nat with chunkSize by lia.
  reflexivity.
Qed.

Lemma chunk_then_rest {A : Type} (a : list A) (i : nat) :
  subarray a i (i + chunkSize) ++ skipn (i + chunkSize) a = skipn i a.
Proof.
  rewrite subarray_chunk.
  replace (i + chunkSize)%nat with (chunkSize + i)%nat by lia.
  rewrite <- skipn_skipn. apply firstn_skipn.
Qed.

Lemma chunk_length {A : Type} (a : list A) (i : nat) :
  List.length (subarray a i (i + chunkSize))
  = Nat.min chunkSize (List.length a - i).
Proof.
  rewrite subarray_chunk, length_firstn, length_skipn. reflexivity.
Qed.

(** The loop from offset [i] on is a run of calls whose left arguments
    make up the rest of the left channel. *)
Lemma encodeFrom_calls (lame : LameJs) (numChannels : nat) (left_ : list Z)
      (right_ : option (list Z)) (i : nat)
      (st : list (list Z) * Encoder lame) :
  exists calls,
    encodeFrom lame numChannels left_ right_ i st
    = fold_left (encodeCall lame) calls st
    /\ List.concat (map fst calls) = skipn i left_
    /\ Forall (fun c => (1 <= List.length (fst c) <= chunkSize)%nat) calls
    /\ (forall r, numChannels = 2%nat -> right_ = Some r ->
                  List.length r = List.length left_ ->
                  Forall (fun c => exists rc, snd c = Some rc
                                    /\ List.length rc = List.length (fst c))
                         calls
                  /\ List.concat (map (fun c => match snd c with
                                           | Some rc => rc
                                           | None => []
                                           end) calls) = skipn i r)
    /\ (numChannels <> 2%nat \/ right_ = None ->
        Forall (fun c => snd c = None) calls).
Proof.
  funelim (encodeFrom lame numChannels left_ right_ i st).
  - destruct H as [calls [Hrun [Hleft [Hsize [Hstereo Hmono]]]]].
    exists (chunkAt numChannels left_ right_ i :: calls).
    cbn [fold_left map List.concat].
    assert (Hfst : fst (chunkAt numChannels left_ right_ i)
                   = subarray left_ i (i + chunkSize)).
    { unfold chunkAt. cbv zeta.
      destruct (Nat.eqb numChannels 2); [destruct right_ |]; reflexivity. }
    split; [exact Hrun |].
    split; [rewrite Hfst, Hleft; apply chunk_then_rest |].
    split.
    { constructor; [| exact Hsize].
      rewrite Hfst, chunk_length. unfold chunkSize. lia. }
    split.
    + intros r Hnc Hr Hlen. destruct (Hstereo r Hnc Hr Hlen) as [Hall Hcat].
      assert (Hsnd : snd (chunkAt numChannels left_ right_ i)
                     = Some (subarray r i (i + chunkSize))).
      { unfold chunkAt. cbv zeta. rewrite Hnc, Hr. reflexivity. }
      split.
      * constructor; [| exact Hall].
        exists (subarray r i (i + chunkSize)). split; [exact Hsnd |].
        rewrite Hfst, !chunk_length, Hlen. reflexivity.
      * rewrite Hsnd, Hcat. apply chunk_then_rest.
    + intros Hnot. constructor; [| apply Hmono; exact Hnot].
      unfold chunkAt. cbv zeta. destruct Hnot as [Hnc | Hr].
      * apply Nat.eqb_neq in Hnc. rewrite Hnc. reflexivity.
      * rewrite Hr. destruct (Nat.eqb numChannels 2); reflexivity.
  - exists []. cbn [fold_left map List.concat].
    split; [reflexivity |].
    split; [symmetry; apply skipn_all2; lia |].
    split; [constructor |].
    split.
    + intros r _ _ Hlen. split; [constructor |].
      symmetry. apply skipn_all2. lia.
    + intros _. constructor.
Qed.

(** X20: Whatever the encoder is, the exporter feeds it the left channel in
    order and in full, in chunks of 1 to 1152 samples, then flushes it.
    For a two-channel buffer each call also carries the chunk of the right
    channel of the same length, and together they are the right channel;
    for any other channel count the encoder is handed the left channel
    alone. *)
Theorem bufferToMp3_feeds_every_sample (lame : LameJs) (buffer : AudioBuffer)
        (kbps : R) :
  exists calls,
    bufferToMp3IfAvailable (Some lame) buffer kbps
    = Some (let (mp3Data, enc) :=
              fold_left (encodeCall lame) calls
                        ([], Mp3Encoder lame (numberOfChannels buffer)
                                        (sampleRate buffer) kbps) in
            pushNonEmpty mp3Data (flush lame enc))
    /\ List.concat (map fst calls) = toInt16 (channelData buffer 0)
    /\ Forall (fun c => (1 <= List.length (fst c) <= 1152)%nat) calls
    /\ (numberOfChannels buffer = 2%nat ->
        Forall (fun c => exists rc, snd c = Some rc
                          /\ List.length rc = List.length (fst c)) calls
        /\ List.concat (map (fun c => match snd c with
                                 | Some rc => rc
                                 | None => []
                                 end) calls)
           = toInt16 (channelData buffer 1))
    /\ (numberOfChannels buffer <> 2%nat ->
        Forall (fun c => snd c = None) calls).
Proof.
  destruct (encodeFrom_calls lame (numberOfChannels buffer)
              (toInt16 (channelData buffer 0))
              (if (1 <? numberOfChannels buffer)%nat
               then Some (toInt16 (channelData buffer 1)) else None)
              0 ([], Mp3Encoder lame (numberOfChannels buffer)
                                (sampleRate buffer) kbps))
    as [calls [Hrun [Hleft [Hsize [Hstereo Hmono]]]]].
  exists calls. unfold bufferToMp3IfAvailable. cbv zeta.
  rewrite Hrun. split.
  { destruct (fold_left (encodeCall lame) calls _) as [mp3Data enc].
    reflexivity. }
  split; [exact Hleft |].
  split; [exact Hsize |].
  split.
  - intros Hnc.
    assert (Hr : (if (1 <? numberOfChannels buffer)%nat
                  then Some (toInt16 (channelData buffer 1)) else None)
                 = Some (toInt16 (channelData buffer 1)))
      by (rewrite Hnc; reflexivity).
    assert (Hlen : List.length (toInt16 (channelData buffer 1))
                   = List.length (toInt16 (channelData buffer 0)))
      by (unfold toInt16, channelData; rewrite !length_map; reflexivity).
    destruct (Hstereo _ Hnc Hr Hlen) as [Hall Hcat].
    split; [exact Hall | exact Hcat].
  - intros Hnc. apply Hmono. left. exact Hnc.
Qed.

(* ================================================================= *)
(** ** What a stage adds to the graph *)

Lemma prefix_nil {A : Type} (P : A -> Prop) (base : list A) :
  exists added, base = added ++ base /\ Forall P added.
Proof. exists []. split; [reflexivity | constructor]. Qed.

Lemma prefix_cons {A : Type} (P : A -> Prop) (base l : list A) (c : A) :
  P c ->
  (exists added, l = added ++ base /\ Forall P added) ->
  exists added, c :: l = added ++ base /\ Forall P added.
Proof.
  intros Hc [added [Hl Hall]]. exists (c :: added). split.
  - rewrite Hl. reflexivity.
  - constructor; assumption.
Qed.

Lemma prefix_trans {A : Type} (P Q R_ : A -> Prop) (base l l' : list A) :
  (forall c, P c -> R_ c) -> (forall c, Q c -> R_ c) ->
  (exists added, l = added ++ base /\ Forall P added) ->
  (exists added, l' = added ++ l /\ Forall Q added) ->
  exists added, l' = added ++ base /\ Forall R_ added.
Proof.
  intros HP HQ [a1 [H1 F1]] [a2 [H2 F2]]. exists (a2 ++ a1). split.
  - rewrite H2, H1, app_assoc. reflexivity.
  - apply Forall_app. split.
    + eapply Forall_impl; [exact HQ | exact F2].
    + eapply Forall_impl; [exact HP | exact F1].
Qed.

(** *** The nodes a builder creates *)

Lemma creates_ret {A : Type} (P : AudioNode -> Prop) (a : A) :
  creates P (ret a).
Proof. intros ctx. apply prefix_nil. Qed.

Lemma creates_connectAt (P : AudioNode -> Prop) (a b : NodeId) (o i : nat) :
  creates P (connectAt a b o i).
Proof. intros ctx. apply prefix_nil. Qed.

Lemma creates_connect (P : AudioNode -> Prop) (a b : NodeId) :
  creates P (connect a b).
Proof. apply creates_connectAt. Qed.

Lemma creates_createNode (P : AudioNode -> Prop) (n : AudioNode) :
  P n -> creates P (createNode n).
Proof.
  intros Hn ctx. cbn. apply prefix_cons; [exact Hn | apply prefix_nil].
Qed.

Lemma creates_bind {A B : Type} (P : AudioNode -> Prop) (m : Build A)
      (k : A -> Build B) :
  creates P m -> (forall a, creates P (k a)) -> creates P (bind m k).
Proof.
  intros Hm Hk ctx. rewrite bind_run.
  apply (prefix_trans (fun p => P (snd p)) (fun p => P (snd p))
                      (fun p => P (snd p)) (nodes ctx) (nodes (snd (m ctx))));
    [tauto | tauto | apply Hm | apply Hk].
Qed.

Lemma clamped_compressor (threshold knee ratio attack release : R) :
  withinCompressorRanges
    (DynamicsCompressorNode threshold knee (clamp ratio 1.0 20.0)
                            (clamp attack 0.001 0.25)
                            (clamp release 0.03 0.5)).
Proof.
  unfold withinCompressorRanges.
  pose proof (clamp_range ratio 1.0 20.0).
  pose proof (clamp_range attack 0.001 0.25).
  pose proof (clamp_range release 0.03 0.5).
  lra.
Qed.

(** Builders made of node creations, connections and sequencing. *)
Ltac creation :=
  idtac;
  lazymatch goal with
  | |- creates _ (ret _) => apply creates_ret
  | |- creates _ (connect _ _) => apply creates_connect
  | |- creates _ (connectAt _ _ _ _) => apply creates_connectAt
  | |- creates _ (createNode _) =>
      apply creates_createNode; first [exact I | apply clamped_compressor]
  | |- creates _ (bind _ _) =>
      apply creates_bind; [creation | intros ?; creation]
  end.

Lemma applyFilter_creates (chain : NodeId) (spec : EQNodeSpec) :
  creates withinCompressorRanges (applyFilter chain spec).
Proof.
  destruct spec as [f [[|]|] q | f g q | f g q | f g q];
    unfold applyFilter, createBiquadFilter; creation.
Qed.

Lemma applyFilterChain_creates (eq : list EQNodeSpec) (input : NodeId) :
  creates withinCompressorRanges (applyFilterChain input eq).
Proof.
  revert input. induction eq as [|spec rest IH]; intros input; cbn.
  - apply creates_ret.
  - apply creates_bind; [apply applyFilter_creates | intros a; apply IH].
Qed.

Lemma applyWarmth_creates (eqOut : NodeId) (dsp : PresetDSP) (auto : bool) :
  creates withinCompressorRanges (applyWarmth eqOut dsp auto).
Proof.
  unfold applyWarmth, warmthTrim. destruct (wantsWarmth dsp auto); creation.
Qed.

Lemma applyBusComp_creates (input : NodeId) (spec : option BusCompSpec) :
  creates withinCompressorRanges (applyBusComp input spec).
Proof.
  unfold applyBusComp, createBiquadFilter, createDynamicsCompressor.
  destruct spec as [spec|]; [| creation].
  destruct (negb (enabled spec)); [creation |].
  destruct (truthy (sidechainHpfHz spec)); creation.
Qed.

Lemma forEachBand_creates (sum : NodeId) (bandNodes : list NodeId)
      (specs : list MultibandBandSpec) :
  creates withinCompressorRanges (forEachBand sum bandNodes specs).
Proof.
  revert specs. induction bandNodes as [|bandNode rest IH]; intros specs.
  - apply creates_ret.
  - destruct specs as [|b specs]; cbn [forEachBand].
    + apply creates_ret.
    + apply creates_bind; [| intros _; apply IH].
      unfold compressBand, createDynamicsCompressor. creation.
Qed.

Lemma applyMultiband_creates (input : NodeId) (spec : MultibandSpec) :
  creates withinCompressorRanges (applyMultiband input spec).
Proof.
  unfold applyMultiband, createBandSplit, createBiquadFilter, createGain.
  destruct (xoversHz spec) as [[[x1 x2] x3] x4].
  apply creates_bind; [creation | intros bandNodes].
  apply creates_bind; [creation | intros sum].
  apply creates_bind; [apply forEachBand_creates | intros _; creation].
Qed.

Lemma applyStereoShaping_creates (input : NodeId) (stereo : StereoSpec)
      (numChannels : nat) :
  creates withinCompressorRanges (applyStereoShaping input stereo numChannels).
Proof.
  unfold applyStereoShaping, createBiquadFilter, createGain.
  destruct (numChannels <? 2)%nat; [creation |].
  destruct (truthy (monoBelowHz stereo)), (widthHighOnly stereo) as [w|];
    try destruct (gtb _ _); creation.
Qed.

(** *** The connections a stage makes *)

Lemma stage_ret (input : NodeId) : stage input (ret input).
Proof.
  intros ctx Hin. cbn. split; [lia |]. split; [left; reflexivity |].
  apply prefix_nil.
Qed.

Lemma stage_bind (input : NodeId) (m : Build NodeId)
      (k : NodeId -> Build NodeId) :
  stage input m -> (forall a, stage a (k a)) -> stage input (bind m k).
Proof.
  intros Hm Hk ctx Hin. rewrite bind_run.
  destruct (Hm ctx Hin) as [Hn [Ha Hc]].
  set (a := fst (m ctx)) in *. set (c1 := snd (m ctx)) in *.
  assert (Ha1 : (a < next_id c1)%nat) by (unfold ownNode in Ha; lia).
  destruct (Hk a c1 Ha1) as [Hn' [Hb Hc']].
  set (b := fst (k a c1)) in *. set (c2 := snd (k a c1)) in *.
  unfold ownNode in *.
  split; [lia |]. split; [lia |].
  eapply prefix_trans; [ | | exact Hc | exact Hc'];
    intros c; cbv beta; lia.
Qed.

(** A stage given by a finite wiring, built out on a context. *)
Ltac staged :=
  unfold ownNode; run_build;
  split; [lia |]; split; [lia |];
  repeat (apply prefix_cons; [cbn [conn_from conn_to]; lia |]);
  apply prefix_nil.

Lemma applyFilter_stage (chain : NodeId) (spec : EQNodeSpec) :
  stage chain (applyFilter chain spec).
Proof.
  intros [nc len sr nid ns cs] Hin. cbn [next_id] in Hin.
  destruct spec as [f [[|]|] q | f g q | f g q | f g q];
    unfold applyFilter; staged.
Qed.

Lemma applyFilterChain_stage (eq : list EQNodeSpec) (input : NodeId) :
  stage input (applyFilterChain input eq).
Proof.
  revert input. induction eq as [|spec rest IH]; intros input; cbn.
  - apply stage_ret.
  - apply stage_bind; [apply applyFilter_stage | intros a; apply IH].
Qed.

Lemma applyWarmth_stage (eqOut : NodeId) (dsp : PresetDSP) (auto : bool) :
  stage eqOut (applyWarmth eqOut dsp auto).
Proof.
  intros [nc len sr nid ns cs] Hin. cbn [next_id] in Hin.
  unfold applyWarmth. destruct (wantsWarmth dsp auto); staged.
Qed.

Lemma applyBusComp_stage (input : NodeId) (spec : option BusCompSpec) :
  stage input (applyBusComp input spec).
Proof.
  intros [nc len sr nid ns cs] Hin. cbn [next_id] in Hin.
  unfold applyBusComp. destruct spec as [spec|]; [| staged].
  destruct (negb (enabled spec)); [staged |].
  destruct (truthy (sidechainHpfHz spec)); staged.
Qed.

Lemma applyMultiband_stage (input : NodeId) (spec : MultibandSpec) :
  stage input (applyMultiband input spec).
Proof.
  intros [nc len sr nid ns cs] Hin. cbn [next_id] in Hin.
  unfold applyMultiband, createBandSplit, bandList.
  destruct spec as [[[[x1 x2] x3] x4] [[[[b1 b2] b3] b4] b5]].
  cbn [xoversHz bands]. staged.
Qed.

Lemma applyStereoShaping_stage (input : NodeId) (stereo : StereoSpec)
      (numChannels : nat) :
  stage input (applyStereoShaping input stereo numChannels).
Proof.
  intros [nc len sr nid ns cs] Hin. cbn [next_id] in Hin.
  unfold applyStereoShaping.
  destruct (numChannels <? 2)%nat; [staged |].
  destruct (truthy (monoBelowHz stereo)), (widthHighOnly stereo) as [w|];
    run_build; try destruct (gtb _ _); staged.
Qed.

Lemma applyLimiterAndCeiling_stage (input : NodeId) (out : OutputSpec)
      (trimDb : R) :
  stage input (applyLimiterAndCeiling input out trimDb).
Proof.
  intros [nc len sr nid ns cs] Hin. cbn [next_id] in Hin.
  unfold applyLimiterAndCeiling. staged.
Qed.

Lemma masteringChain_stage (safetyHPF : NodeId) (dsp : PresetDSP)
      (auto : bool) (numChannels : nat) (mode : RenderMode) (trimDb : R) :
  stage safetyHPF
        (masteringChain safetyHPF dsp auto numChannels mode trimDb).
Proof.
  unfold masteringChain.
  apply stage_bind; [apply applyFilterChain_stage | intros eqOut].
  apply stage_bind; [apply applyWarmth_stage | intros tuned].
  apply stage_bind; [apply applyBusComp_stage | intros busOut].
  apply stage_bind; [apply applyMultiband_stage | intros mbOut].
  apply stage_bind; [apply applyStereoShaping_stage | intros stereoOut].
  destruct mode; [apply stage_ret | apply applyLimiterAndCeiling_stage].
Qed.

Lemma masteringChain_wires (safetyHPF : NodeId) (dsp : PresetDSP)
      (auto : bool) (numChannels : nat) (mode : RenderMode) (trimDb : R) :
  wiresFrom safetyHPF
            (masteringChain safetyHPF dsp auto numChannels mode trimDb).
Proof.
  unfold masteringChain.
  apply wiresFrom_bind; [apply applyFilterChain_wires | intros eqOut].
  apply wiresFrom_bind; [apply applyWarmth_wires | intros tuned].
  apply wiresFrom_bind; [apply applyBusComp_wires | intros busOut].
  apply wiresFrom_bind; [apply applyMultiband_wires | intros mbOut].
  apply wiresFrom_bind; [apply applyStereoShaping_wires | intros stereoOut].
  destruct mode; [apply wiresFrom_ret | apply applyLimiterAndCeiling_wires].
Qed.

(** [buildPresetGraph] is the source, the safety filter, the chain and the
    connection to the destination. *)
Lemma buildPresetGraph_chain (audioBuffer : AudioBuffer) (dsp : PresetDSP)
      (auto : bool) (mode : RenderMode) (trimDb : R)
      (ctx : OfflineAudioContext) :
  let src := next_id ctx in
  let safetyHPF := S (next_id ctx) in
  let wired :=
    mkContext (ctx_numberOfChannels ctx) (ctx_length ctx) (ctx_sampleRate ctx)
              (S (S (next_id ctx)))
              ((safetyHPF, BiquadFilterNode highpass 30 0.707 0)
               :: (src, BufferSourceNode audioBuffer) :: nodes ctx)
              (mkConnection src safetyHPF 0 0 :: connections ctx) in
  let chain :=
    masteringChain safetyHPF dsp auto (numberOfChannels audioBuffer) mode
                   trimDb wired in
  buildPresetGraph audioBuffer dsp auto mode trimDb ctx
  = (src, snd (connect (fst chain) destination (snd chain))).
Proof.
  cbv zeta. unfold buildPresetGraph, masteringChain.
  cbv beta iota zeta delta
      [bind ret createNode connect connectAt createBiquadFilter fst snd
       nodes connections next_id ctx_numberOfChannels ctx_length
       ctx_sampleRate].
  destruct ctx as [nc len sr nid ns cs].
  destruct (applyFilterChain _ _ _) as [eqOut c4].
  destruct (applyWarmth _ _ _ _) as [tuned c5].
  destruct (applyBusComp _ _ _) as [busOut c6].
  destruct (applyMultiband _ _ _) as [mbOut c7].
  destruct (applyStereoShaping _ _ _ _) as [stereoOut c8].
  destruct mode.
  - reflexivity.
  - destruct (applyLimiterAndCeiling _ _ _ _) as [finalOut c9]. reflexivity.
Qed.

(* ================================================================= *)
(** ** The wired graph as a whole *)

(** X21: In both passes and for any DSP spec, the graph has one way in and one
    way out: the source feeds the 30 Hz safety high-pass and nothing else,
    the safety high-pass is fed by the source alone, and the destination
    is fed by a single node. *)
Theorem safety_filter_is_the_only_way_in
        (audioBuffer : AudioBuffer) (dsp : PresetDSP) (useAutoTune : bool)
        (mode : RenderMode) (trimDb : R) :
  let r := presetContext audioBuffer dsp useAutoTune mode trimDb in
  exists safetyHPF last,
    hasNode (snd r) (fst r) (BufferSourceNode audioBuffer)
    /\ hasNode (snd r) safetyHPF (BiquadFilterNode highpass 30 0.707 0)
    /\ connected (snd r) (fst r) safetyHPF
    /\ (forall c, In c (connections (snd r)) ->
                  conn_from c = fst r -> conn_to c = safetyHPF)
    /\ onlyFedBy (snd r) safetyHPF (fst r)
    /\ connected (snd r) last destination
    /\ onlyFedBy (snd r) destination last.
Proof.
  cbv zeta. unfold presetContext. rewrite buildPresetGraph_chain. cbv zeta.
  cbn [newOfflineAudioContext next_id nodes connections ctx_numberOfChannels
       ctx_length ctx_sampleRate].
  set (wired := mkContext _ _ _ _ _ _).
  set (m := masteringChain 2%nat dsp useAutoTune (numberOfChannels audioBuffer)
                           mode trimDb).
  assert (Hin : (2 < next_id wired)%nat) by (cbn; lia).
  destruct (masteringChain_stage 2%nat dsp useAutoTune
              (numberOfChannels audioBuffer) mode trimDb wired Hin)
    as [Hn [Hout [added [Hc Hall]]]].
  destruct (masteringChain_wires 2%nat dsp useAutoTune
              (numberOfChannels audioBuffer) mode trimDb wired)
    as [[Hnodes Hconns] _].
  fold m in Hn, Hout, Hc, Hall, Hnodes, Hconns.
  unfold ownNode in *. cbn [next_id wired] in Hn, Hout, Hall.
  rewrite Forall_forall in Hall.
  unfold hasNode, connected, onlyFedBy.
  cbn [connect connectAt fst snd nodes connections].
  exists 2%nat, (fst (m wired)).
  split; [apply Hnodes; right; left; reflexivity |].
  split; [apply Hnodes; left; reflexivity |].
  split; [exists 0%nat, 0%nat; right; apply Hconns; left; reflexivity |].
  assert (Hcases : forall c,
             mkConnection (fst (m wired)) destination 0 0 = c
             \/ In c (connections (snd (m wired))) ->
             c = mkConnection (fst (m wired)) destination 0 0
             \/ ((conn_from c = 2%nat \/ (3 <= conn_from c)%nat)
                 /\ (3 <= conn_to c)%nat)
             \/ c = mkConnection 1%nat 2%nat 0 0).
  { intros c [Hc0 | Hc1].
    - left. symmetry. exact Hc0.
    - rewrite Hc in Hc1. apply in_app_or in Hc1. destruct Hc1 as [Ha | Hw].
      + right. left. specialize (Hall c Ha). cbv beta in Hall. lia.
      + right. right. cbn in Hw. destruct Hw as [Hw | []]. symmetry. exact Hw. }
  split.
  { intros c Hc1 Hfrom. destruct (Hcases c Hc1) as [-> | [Hmid | ->]].
    - cbn in Hfrom. lia.
    - lia.
    - reflexivity. }
  split.
  { intros c Hc1 Hto. destruct (Hcases c Hc1) as [-> | [Hmid | ->]].
    - cbn in Hto. unfold destination in Hto. lia.
    - lia.
    - reflexivity. }
  split.
  { exists 0%nat, 0%nat. left. reflexivity. }
  intros c Hc1 Hto. destruct (Hcases c Hc1) as [-> | [Hmid | ->]].
  - reflexivity.
  - unfold destination in Hto. lia.
  - cbn in Hto. unfold destination in Hto. lia.
Qed.

Lemma masteringChain_final (safetyHPF : NodeId) (dsp : PresetDSP)
      (auto : bool) (numChannels : nat) (t trimDb : R)
      (ctx : OfflineAudioContext) :
  masteringChain safetyHPF dsp auto numChannels final trimDb ctx
  = applyLimiterAndCeiling
      (fst (masteringChain safetyHPF dsp auto numChannels preOutput t ctx))
      (output dsp) trimDb
      (snd (masteringChain safetyHPF dsp auto numChannels preOutput t ctx)).
Proof.
  unfold masteringChain, bind.
  destruct (applyFilterChain _ _ _) as [eqOut c4].
  destruct (applyWarmth _ _ _ _) as [tuned c5].
  destruct (applyBusComp _ _ _) as [busOut c6].
  destruct (applyMultiband _ _ _) as [mbOut c7].
  destruct (applyStereoShaping _ _ _ _) as [stereoOut c8].
  reflexivity.
Qed.

(** X22: The final pass renders the graph of the analysis pass with a trim
    gain, the limiter and the ceiling gain put, in this order, between its
    last node and the destination; every other node and connection is the
    same in both passes. *)
Theorem final_pass_extends_analysis_pass
        (audioBuffer : AudioBuffer) (dsp : PresetDSP) (useAutoTune : bool)
        (trimDb : R) :
  let pre := presetContext audioBuffer dsp useAutoTune preOutput 0 in
  let fin := presetContext audioBuffer dsp useAutoTune final trimDb in
  let trim := next_id (snd pre) in
  let limiter_ := S trim in
  let ceiling_ := S (S trim) in
  exists stereoOut upstream,
    fst fin = fst pre
    /\ connections (snd pre)
       = mkConnection stereoOut destination 0 0 :: upstream
    /\ connections (snd fin)
       = mkConnection ceiling_ destination 0 0
         :: mkConnection limiter_ ceiling_ 0 0
         :: mkConnection trim limiter_ 0 0
         :: mkConnection stereoOut trim 0 0 :: upstream
    /\ nodes (snd fin)
       = (ceiling_, GainNode (dbToLin (ceilingDbFS (output dsp))))
         :: (limiter_,
             DynamicsCompressorNode
               (lim_thresholdDb (limiter (output dsp)))
               (lim_kneeDb (limiter (output dsp)))
               (lim_ratio (limiter (output dsp)))
               (lim_attackSec (limiter (output dsp)))
               (lim_releaseSec (limiter (output dsp))))
         :: (trim, GainNode (dbToLin trimDb)) :: nodes (snd pre).
Proof.
  cbv zeta. unfold presetContext. rewrite !buildPresetGraph_chain. cbv zeta.
  rewrite (masteringChain_final _ _ _ _ 0).
  set (chain := masteringChain _ dsp useAutoTune _ preOutput 0 _).
  destruct chain as [stereoOut [nc len sr nid ns cs]].
  exists stereoOut, cs.
  unfold applyLimiterAndCeiling. run_build. repeat split.
Qed.

Lemma built_limiter (key : PresetKey) :
  lim_ratio (limiter (output (buildDSPForPreset key))) = 20
  /\ lim_attackSec (limiter (output (buildDSPForPreset key))) = 0.001
  /\ lim_releaseSec (limiter (output (buildDSPForPreset key))) = 0.10.
Proof. destruct key; cbn; repeat split; lra. Qed.

Lemma buildPresetGraph_creates (audioBuffer : AudioBuffer) (dsp : PresetDSP)
      (auto : bool) (mode : RenderMode) (trimDb : R) :
  (mode = final ->
   withinCompressorRanges
     (DynamicsCompressorNode
        (lim_thresholdDb (limiter (output dsp)))
        (lim_kneeDb (limiter (output dsp)))
        (lim_ratio (limiter (output dsp)))
        (lim_attackSec (limiter (output dsp)))
        (lim_releaseSec (limiter (output dsp))))) ->
  creates withinCompressorRanges
          (buildPresetGraph audioBuffer dsp auto mode trimDb).
Proof.
  intros Hlim. unfold buildPresetGraph, createBiquadFilter.
  apply creates_bind; [creation | intros src].
  apply creates_bind; [creation | intros safetyHPF].
  apply creates_bind; [creation | intros _].
  apply creates_bind; [apply applyFilterChain_creates | intros eqOut].
  apply creates_bind; [apply applyWarmth_creates | intros tuned].
  apply creates_bind; [apply applyBusComp_creates | intros busOut].
  apply creates_bind; [apply applyMultiband_creates | intros mbOut].
  apply creates_bind; [apply applyStereoShaping_creates | intros stereoOut].
  apply creates_bind; [| intros _; creation].
  destruct mode; [creation |].
  apply creates_bind; [| intros finalOut; creation].
  unfold applyLimiterAndCeiling, createGain, createDynamicsCompressor.
  apply creates_bind; [creation | intros trim].
  apply creates_bind; [creation | intros _].
  apply creates_bind;
    [apply creates_createNode; apply Hlim; reflexivity | intros limiter_].
  creation.
Qed.

(** X23: Whatever ratio, attack and release a DSP spec asks for, every
    compressor of the analysis graph runs with a ratio in [1, 20], an
    attack in [1 ms, 250 ms] and a release in [30 ms, 500 ms]; for the
    sixteen presets of the catalogue the same holds in the final pass,
    limiter included. *)
Theorem compressors_within_ranges (audioBuffer : AudioBuffer)
        (useAutoTune : bool) (trimDb : R) :
  (forall dsp,
      Forall (fun p => withinCompressorRanges (snd p))
             (nodes (snd (presetContext audioBuffer dsp useAutoTune
                                        preOutput trimDb))))
  /\ (forall presetKey mode,
         Forall (fun p => withinCompressorRanges (snd p))
                (nodes (snd (presetContext audioBuffer
                                           (buildDSPForPreset presetKey)
                                           useAutoTune mode trimDb)))).
Proof.
  assert (Hall : forall dsp mode,
             (mode = final ->
              withinCompressorRanges
                (DynamicsCompressorNode
                   (lim_thresholdDb (limiter (output dsp)))
                   (lim_kneeDb (limiter (output dsp)))
                   (lim_ratio (limiter (output dsp)))
                   (lim_attackSec (limiter (output dsp)))
                   (lim_releaseSec (limiter (output dsp))))) ->
             Forall (fun p => withinCompressorRanges (snd p))
                    (nodes (snd (presetContext audioBuffer dsp useAutoTune
                                               mode trimDb)))).
  { intros dsp mode Hlim. unfold presetContext.
    destruct (buildPresetGraph_creates audioBuffer dsp useAutoTune mode trimDb
                Hlim (newOfflineAudioContext (numberOfChannels audioBuffer)
                        (length_ audioBuffer) (sampleRate audioBuffer)))
      as [added [Hn Hadded]].
    rewrite Hn. apply Forall_app. split; [exact Hadded |].
    cbn. constructor; [exact I | constructor]. }
  split.
  - intros dsp. apply Hall. discriminate.
  - intros key mode. apply Hall. intros _.
    destruct (built_limiter key) as [Hr [Ha Hrel]].
    unfold withinCompressorRanges. rewrite Hr, Ha, Hrel. lra.
Qed.

(* ================================================================= *)
(** ** The EQ chain *)

Lemma last_cons_default {A : Type} (a d : A) (l : list A) :
  last (a :: l) d = last l a.
Proof.
  revert a d. induction l as [|b l IH]; intros a d.
  - reflexivity.
  - change (last (a :: b :: l) d) with (last (b :: l) d).
    rewrite (IH b d), (IH b a). reflexivity.
Qed.

Lemma last_app_default {A : Type} (l1 l2 : list A) (d : A) :
  last (l1 ++ l2) d = last l2 (last l1 d).
Proof.
  revert d. induction l1 as [|a l1 IH]; intros d.
  - reflexivity.
  - rewrite <- app_comm_cons, !last_cons_default. apply IH.
Qed.

Lemma seriesFrom_app (input : NodeId) (ids1 ids2 : list NodeId) :
  seriesFrom input (ids1 ++ ids2)
  = seriesFrom (last ids1 input) ids2 ++ seriesFrom input ids1.
Proof.
  revert input. induction ids1 as [|i ids1 IH]; intros input.
  - cbn. rewrite app_nil_r. reflexivity.
  - rewrite <- app_comm_cons. cbn [seriesFrom].
    rewrite IH, last_cons_default, app_assoc. reflexivity.
Qed.

Lemma combine_app_same {A B : Type} (a1 a2 : list A) (b1 b2 : list B) :
  List.length a1 = List.length b1 ->
  combine (a1 ++ a2) (b1 ++ b2) = combine a1 b1 ++ combine a2 b2.
Proof.
  revert b1. induction a1 as [|x a1 IH]; intros [|y b1] Hlen;
    try discriminate.
  - reflexivity.
  - cbn. f_equal. apply IH. cbn in Hlen. lia.
Qed.

Lemma applyFilter_cascade (input : NodeId) (spec : EQNodeSpec)
      (ctx : OfflineAudioContext) :
  let ids := seq (next_id ctx) (List.length (biquadsOf spec)) in
  nodes (snd (applyFilter input spec ctx))
  = rev (combine ids (biquadsOf spec)) ++ nodes ctx
  /\ connections (snd (applyFilter input spec ctx))
     = seriesFrom input ids ++ connections ctx
  /\ fst (applyFilter input spec ctx) = last ids input
  /\ next_id (snd (applyFilter input spec ctx))
     = (next_id ctx + List.length (biquadsOf spec))%nat.
Proof.
  destruct ctx as [nc len sr nid ns cs].
  destruct spec as [f [[|]|] q | f g q | f g q | f g q]; cbn;
    repeat split; f_equal; lia.
Qed.

(** X24: The EQ stage is the series connection of the biquads its list stands
    for, in list order and fed by the input: it creates exactly these
    filters (a second-order high-pass entry as two identical high-passes),
    wires each into the next and nothing else, and returns the last one;
    an empty list leaves the graph untouched and returns the input. *)
Theorem applyFilterChain_cascade (input : NodeId) (eq : list EQNodeSpec)
        (ctx : OfflineAudioContext) :
  let filters := flat_map biquadsOf eq in
  let ids := seq (next_id ctx) (List.length filters) in
  let r := applyFilterChain input eq ctx in
  nodes (snd r) = rev (combine ids filters) ++ nodes ctx
  /\ connections (snd r) = seriesFrom input ids ++ connections ctx
  /\ fst r = last ids input
  /\ next_id (snd r) = (next_id ctx + List.length filters)%nat.
Proof.
  revert input ctx. induction eq as [|spec rest IH]; intros input ctx;
    cbv zeta.
  - cbn. rewrite Nat.add_0_r. repeat split.
  - cbn [applyFilterChain flat_map]. rewrite bind_run.
    destruct (applyFilter_cascade input spec ctx) as [N1 [C1 [F1 I1]]].
    cbv zeta in N1, C1, F1.
    specialize (IH (fst (applyFilter input spec ctx))
                   (snd (applyFilter input spec ctx))).
    cbv zeta in IH. destruct IH as [N2 [C2 [F2 I2]]].
    rewrite N2, C2, F2, I2, N1, C1, F1, I1.
    rewrite length_app, seq_app.
    rewrite combine_app_same by apply length_seq.
    rewrite rev_app_distr, seriesFrom_app, last_app_default, <- !app_assoc.
    repeat split. lia.
Qed.

(* ================================================================= *)
(** ** What the stereo stage does to the signal *)

(** The signals at the two inputs of the merger, computed from the wiring. *)
Ltac read_signals :=
  cbv beta iota zeta delta
      [mergerInput signalAt nodeAt inputsOf filter find option_map fold_right
       Nat.eqb Nat.ltb Nat.leb andb fst snd nodes connections conn_to
       conn_from conn_input conn_output List.length newOfflineAudioContext
       destination mix scale silence].

(** X25: On a buffer of two or more channels the stereo stage leaves the mono
    sum of left and right as it was, whatever its settings and whatever the
    filters do; with no mono-below frequency and no high-only widening it
    multiplies the difference of left and right by the overall width
    (clamped to [0.5, 1.6]) and does nothing else, so at width 100 it hands
    both channels through. *)
Theorem stereo_shaping_mid_side
        (biquad : BiquadType -> R -> R -> R -> Signal -> Signal)
        (channels : nat -> Signal) (stereo : StereoSpec)
        (numChannels len : nat) (sr : R) (input : NodeId) :
  (2 <= numChannels)%nat ->
  let r := applyStereoShaping input stereo numChannels
                              (newOfflineAudioContext numChannels len sr) in
  let width := clamp (nullish (overallWidth stereo) 100 / 100) 0.5 1.6 in
  exists outL outR,
    mergerInput biquad channels (snd r) (fst r) 0 = Some outL
    /\ mergerInput biquad channels (snd r) (fst r) 1 = Some outR
    /\ (forall n, outL n + outR n = channels 0%nat n + channels 1%nat n)
    /\ (truthy (monoBelowHz stereo) = None ->
        widthHighOnly stereo = None ->
        forall n, outL n - outR n
                  = width * (channels 0%nat n - channels 1%nat n)).
Proof.
  intros Hstereo. cbv zeta. unfold applyStereoShaping.
  replace (numChannels <? 2)%nat with false
    by (symmetry; apply Nat.ltb_ge; exact Hstereo).
  destruct (truthy (monoBelowHz stereo)) as [hz|],
           (widthHighOnly stereo) as [w|];
    run_build;
    try match goal with
        | |- context [gtb ?a ?b] => destruct (gtb a b)
        end;
    read_signals;
    (eexists; eexists;
     split; [reflexivity |]; split; [reflexivity |]; split;
     [intros n; cbv beta; lra
     | intros Hmono Hwide; try discriminate; intros n; cbv beta; lra]).
Qed.

Lemma stereo_shaping_mid_side_witness :
  (2 <= 2)%nat /\
  exists outL outR,
    mergerInput (fun _ _ _ _ s => s) (fun k _ => INR k)
      (snd (applyStereoShaping 1%nat (mkStereo (Some 120) (Some 115) None) 2
              (newOfflineAudioContext 2 8 44100)))
      (fst (applyStereoShaping 1%nat (mkStereo (Some 120) (Some 115) None) 2
              (newOfflineAudioContext 2 8 44100))) 0 = Some outL
    /\ mergerInput (fun _ _ _ _ s => s) (fun k _ => INR k)
      (snd (applyStereoShaping 1%nat (mkStereo (Some 120) (Some 115) None) 2
              (newOfflineAudioContext 2 8 44100)))
      (fst (applyStereoShaping 1%nat (mkStereo (Some 120) (Some 115) None) 2
              (newOfflineAudioContext 2 8 44100))) 1 = Some outR
    /\ (forall n, outL n + outR n = INR 0 + INR 1).
Proof.
  assert (H : (2 <= 2)%nat) by lia.
  split; [exact H |].
  destruct (stereo_shaping_mid_side (fun _ _ _ _ s => s) (fun k _ => INR k)
              (mkStereo (Some 120) (Some 115) None) 2 8 44100 1%nat H)
    as [outL [outR [HL [HR [Hsum _]]]]].
  exists outL, outR. split; [exact HL |]. split; [exact HR | exact Hsum].
Defined.

(* ================================================================= *)
(** ** Slider-derived band thresholds *)

(** X26: The five slider-derived thresholds lie between -28 dB and -20.6 dB,
    and none of them rises when the compression slider is raised. *)
Theorem slider_thresholds_range_and_antitone (s1 s2 : R) :
  s1 <= s2 ->
  Forall (fun t => -28 <= t <= -20.6)
         (map thresholdDb (bandList (sliderMultiband s1)))
  /\ Forall2 Rge (map thresholdDb (bandList (sliderMultiband s1)))
             (map thresholdDb (bandList (sliderMultiband s2))).
Proof.
  intros Hle.
  assert (Hc1 : 1.5 <= clamp s1 1.5 7 <= 7) by (apply clamp_range; lra).
  assert (Hm : clamp s1 1.5 7 <= clamp s2 1.5 7) by (apply clamp_mono; lra).
  unfold sliderMultiband, bandList. cbv zeta. cbn [bands map thresholdDb].
  split.
  - repeat (apply Forall_cons; [lra |]). apply Forall_nil.
  - repeat (apply Forall2_cons; [lra |]). apply Forall2_nil.
Qed.

Lemma slider_thresholds_range_and_antitone_witness :
  2 <= 5 /\
  Forall (fun t => -28 <= t <= -20.6)
         (map thresholdDb (bandList (sliderMultiband 2)))
  /\ Forall2 Rge (map thresholdDb (bandList (sliderMultiband 2)))
             (map thresholdDb (bandList (sliderMultiband 5))).
Proof.
  assert (H : 2 <= 5) by lra.
  split; [exact H |].
  exact (slider_thresholds_range_and_antitone 2 5 H).
Defined.

(* ================================================================= *)
(** ** Nothing reads outside the buffer *)

Lemma peakChannel_agree (oversample : R) (len : nat) (d1 d2 : nat -> R)
      (peak : R) :
  (forall i, (i < len)%nat -> d1 i = d2 i) ->
  peakChannel oversample len d1 peak = peakChannel oversample len d2 peak.
Proof.
  intros H. unfold peakChannel. apply fold_left_agree.
  intros acc i Hi. apply in_seq in Hi. unfold peakPair.
  rewrite (H i) by lia. rewrite (H (i + 1)%nat) by lia. reflexivity.
Qed.

Lemma flat_map_agree {A B : Type} (f g : A -> list B) (l : list A) :
  (forall x, In x l -> f x = g x) -> flat_map f l = flat_map g l.
Proof.
  induction l as [|a l IH]; intros H; cbn.
  - reflexivity.
  - rewrite (H a) by (left; reflexivity). f_equal.
    apply IH. intros x Hx. apply H. right. exact Hx.
Qed.

(** X27: The meters and the exporters read a buffer only at channels below the
    channel count and frames below the length: two buffers of the same
    format that agree there get the same integrated loudness, the same
    true-peak estimate, the same WAV file and the same samples for the MP3
    encoder. *)
Theorem reads_stay_inside_the_buffer (b1 b2 : AudioBuffer) :
  sameAudio b1 b2 ->
  integratedLUFS_R128Gated b1 = integratedLUFS_R128Gated b2
  /\ (forall oversample,
         estimateTruePeakDbFS b1 oversample
         = estimateTruePeakDbFS b2 oversample)
  /\ bufferToWav b1 = bufferToWav b2
  /\ (forall channel, (channel < numberOfChannels b1)%nat ->
                      toInt16 (channelData b1 channel)
                      = toInt16 (channelData b2 channel)).
Proof.
  intros Hsame. pose proof Hsame as (Hsr & Hc & Hl & Hd).
  split; [apply integratedLUFS_reads_in_range; exact Hsame |].
  split.
  { intros oversample. unfold estimateTruePeakDbFS, truePeakLinear.
    cbv zeta. rewrite <- Hc, <- Hl. f_equal.
    apply fold_left_agree. intros acc c Hcin. apply in_seq in Hcin.
    apply peakChannel_agree. intros i Hi. apply Hd; lia. }
  split.
  { rewrite !bufferToWav_closed_form. f_equal. f_equal.
    - unfold wavHeader. cbv zeta. rewrite <- Hsr, <- Hc, <- Hl. reflexivity.
    - unfold wavData. rewrite <- Hl. apply flat_map_agree.
      intros i Hi. apply in_seq in Hi. unfold frameBytes. rewrite <- Hc.
      apply flat_map_agree. intros c Hcin. apply in_seq in Hcin.
      rewrite Hd by lia. reflexivity. }
  intros channel Hch. unfold channelData. rewrite <- Hl. f_equal.
  apply map_ext_in. intros i Hi. apply in_seq in Hi. apply Hd; lia.
Qed.

Lemma reads_stay_inside_the_buffer_witness :
  sameAudio twoSampleClip
            (mkBuffer 44100 1 2
                      (fun c i => match c, i with
                                  | O, O => 0.5
                                  | O, S O => -1
                                  | _, _ => 7
                                  end))
  /\ integratedLUFS_R128Gated twoSampleClip
     = integratedLUFS_R128Gated
         (mkBuffer 44100 1 2
                   (fun c i => match c, i with
                               | O, O => 0.5
                               | O, S O => -1
                               | _, _ => 7
                               end)).
Proof.
  assert (H : sameAudio twoSampleClip
                (mkBuffer 44100 1 2
                          (fun c i => match c, i with
                                      | O, O => 0.5
                                      | O, S O => -1
                                      | _, _ => 7
                                      end))).
  { unfold sameAudio. cbn. repeat split.
    intros c i Hc Hi. destruct c as [|c]; [| lia].
    destruct i as [|[|i]]; [reflexivity | reflexivity | lia]. }
  split; [exact H |].
  exact (proj1 (reads_stay_inside_the_buffer _ _ H)).
Defined.

(* ================================================================= *)
(** ** Stale renders *)

Lemma dropCall_subset (call x : RenderCall) (calls : list RenderCall) :
  In x (dropCall call calls) -> In x calls.
Proof.
  unfold dropCall. intros H. apply filter_In in H. tauto.
Qed.

Lemma suspended_tokens (c : Component) :
  reachable c ->
  NoDup (map token (suspended c))
  /\ Forall (fun x => (1 <= token x <= renderTokenRef c)%nat) (suspended c).
Proof.
  intros Hr. induction Hr as [| c key hasFile _ [Hnd Hle]
                    | c call outcome _ [Hnd Hle] Hin].
  - cbn. split; constructor.
  - cbn. rewrite Forall_forall in Hle. split.
    + constructor; [| exact Hnd].
      rewrite in_map_iff. intros [x [Hx Hxin]].
      specialize (Hle x Hxin). cbv beta in Hle. lia.
    + constructor; [cbn; lia |].
      apply Forall_forall. intros x Hx. specialize (Hle x Hx).
      cbv beta in Hle. lia.
  - assert (Hrest : NoDup (map token (dropCall call (suspended c)))
                    /\ Forall (fun x => (1 <= token x <= renderTokenRef c)%nat)
                              (dropCall call (suspended c))).
    { split.
      - unfold dropCall. clear Hin Hle.
        induction (suspended c) as [|x l IH]; cbn; [constructor |].
        cbn in Hnd. inversion Hnd as [|? ? Hnotin Hl]; subst.
        destruct (negb (Nat.eqb (token x) (token call))); cbn.
        + constructor; [| apply IH; exact Hl].
          rewrite in_map_iff. intros [y [Hy Hyin]].
          apply Hnotin. rewrite in_map_iff. exists y. split; [exact Hy |].
          apply filter_In in Hyin. tauto.
        + apply IH. exact Hl.
      - apply Forall_forall. intros x Hx. rewrite Forall_forall in Hle.
        apply Hle. eapply dropCall_subset. exact Hx. }
    unfold resumeRender. cbv zeta.
    destruct outcome as [processed|];
      [destruct (negb (Nat.eqb (token call) (renderTokenRef c))) |];
      cbn [suspended renderTokenRef]; exact Hrest.
Qed.

(** X28: In every state the component can reach, a suspended render that is not
    the most recently started one changes neither the processed buffer nor
    the selected preset nor the saved tracks when it resumes, whatever it
    resolved with; no suspended render carries a token from the future,
    and no two carry the same token, so at most one of them can publish. *)
Theorem stale_render_never_publishes (c : Component) (call : RenderCall)
        (outcome : option AudioBuffer) :
  reachable c -> In call (suspended c) ->
  (token call <= renderTokenRef c)%nat
  /\ (token call <> renderTokenRef c ->
      processedBuffer (resumeRender call outcome c) = processedBuffer c
      /\ selectedPreset (resumeRender call outcome c) = selectedPreset c
      /\ mutations (resumeRender call outcome c) = mutations c)
  /\ (forall other, In other (suspended c) ->
                    token other = token call -> other = call)
  /\ ~ In call (suspended (resumeRender call outcome c)).
Proof.
  intros Hr Hin. destruct (suspended_tokens c Hr) as [Hnd Hle].
  rewrite Forall_forall in Hle. split; [| split; [| split]].
  - specialize (Hle call Hin). cbv beta in Hle. lia.
  - intros Hstale. apply Nat.eqb_neq in Hstale. unfold resumeRender.
    cbv zeta. destruct outcome as [processed|]; [rewrite Hstale |];
      cbn; repeat split.
  - intros other Hother Htok. clear Hle Hr.
    induction (suspended c) as [|x l IH]; [destruct Hin |].
    cbn in Hnd. inversion Hnd as [|? ? Hnotin Hl]; subst.
    destruct Hin as [-> | Hin], Hother as [-> | Hother].
    + reflexivity.
    + exfalso. apply Hnotin. rewrite <- Htok. apply in_map. exact Hother.
    + exfalso. apply Hnotin. rewrite Htok. apply in_map. exact Hin.
    + apply IH; assumption.
  - assert (Hgone : ~ In call (dropCall call (suspended c))).
    { unfold dropCall. intros H. apply filter_In in H.
      destruct H as [_ H]. rewrite Nat.eqb_refl in H. discriminate. }
    unfold resumeRender. cbv zeta.
    destruct outcome as [processed|];
      [destruct (negb (Nat.eqb (token call) (renderTokenRef c))) |];
      cbn [suspended]; exact Hgone.
Qed.

Lemma stale_render_never_publishes_witness :
  reachable (beginRender wide true (beginRender deharsh true mounted))
  /\ In (mkRenderCall 1 deharsh true)
        (suspended (beginRender wide true (beginRender deharsh true mounted)))
  /\ processedBuffer
       (resumeRender (mkRenderCall 1 deharsh true) (Some silentClip)
          (beginRender wide true (beginRender deharsh true mounted)))
     = None.
Proof.
  assert (H1 : reachable
                 (beginRender wide true (beginRender deharsh true mounted)))
    by (repeat constructor).
  assert (H2 : In (mkRenderCall 1 deharsh true)
                  (suspended
                     (beginRender wide true
                                  (beginRender deharsh true mounted))))
    by (cbn; right; left; reflexivity).
  split; [exact H1 | split; [exact H2 |]].
  destruct (stale_render_never_publishes _ (mkRenderCall 1 deharsh true)
              (Some silentClip) H1 H2) as [_ [Hstale _]].
  apply Hstale. cbn. lia.
Defined.

(* ================================================================= *)
(** ** A silent analysis render *)

Lemma silent_true_peak (buffer : AudioBuffer) (oversample : R) :
  allZero buffer -> estimateTruePeakDbFS buffer oversample = -240.
Proof.
  intros Hz. unfold estimateTruePeakDbFS. apply linToDb_at_floor.
  assert (H : truePeakLinear buffer oversample <= 0).
  { apply truePeakLinear_le; [lra |].
    intros c j Hc Hj. rewrite (Hz c j Hc Hj), Rabs_R0. lra. }
  lra.
Qed.

Lemma silent_loudness (buffer : AudioBuffer) :
  allZero buffer ->
  integratedLUFS_R128Gated buffer = NegInfinity
  \/ integratedLUFS_R128Gated buffer = Finite (-70).
Proof.
  intros Hz. unfold integratedLUFS_R128Gated, gateBlocks.
  rewrite (silent_blocks_gated_out buffer Hz).
  destruct (loudnessBlocks buffer) as [|l ls].
  - left. reflexivity.
  - right. unfold absGateLUFS. f_equal. lra.
Qed.

Lemma built_output (key : PresetKey) :
  targetIntegratedLUFS (output (buildDSPForPreset key)) = -14
  /\ ceilingDbFS (output (buildDSPForPreset key)) = -0.5
  /\ tc_min (trimClampDb (output (buildDSPForPreset key))) = -24
  /\ tc_max (trimClampDb (output (buildDSPForPreset key))) = 12.
Proof. destruct key; cbn; repeat split; lra. Qed.

(** X29: When the analysis render and its K-weighted render are silent,
    the trim handed to the final pass is the clamp maximum, +12 dB, for
    every preset, whether the render is long enough for a loudness block
    (measured loudness -70) or not (measured loudness -Infinity). *)
Theorem silent_render_gets_maximum_trim
        (startRendering : OfflineAudioContext -> AudioBuffer)
        (audioBuffer : AudioBuffer) (presetKey : PresetKey)
        (useAutoTune : bool) :
  let pre := renderPresetGraph startRendering audioBuffer
                               (buildDSPForPreset presetKey) useAutoTune
                               preOutput 0 in
  allZero pre -> allZero (startRendering (kWeightingContext pre)) ->
  premiumTrimDb startRendering audioBuffer presetKey useAutoTune = 12.
Proof.
  cbv zeta. intros Hpre Hk.
  unfold premiumTrimDb, analysisPass, computeIntegratedLUFS_KWeighted.
  cbv zeta. rewrite silent_true_peak by exact Hpre.
  destruct (built_output presetKey) as [Ht [Hc [Hlo Hhi]]].
  destruct (output (buildDSPForPreset presetKey)) as [t c lim [lo hi]].
  cbn in Ht, Hc, Hlo, Hhi. subst t c lo hi.
  destruct (silent_loudness _ Hk) as [-> | ->]; split_trim.
Qed.

Lemma silent_render_gets_maximum_trim_witness :
  allZero (renderPresetGraph (fun _ => silentClip) silentClip
                             (buildDSPForPreset deharsh) false preOutput 0)
  /\ allZero ((fun _ : OfflineAudioContext => silentClip)
                (kWeightingContext
                   (renderPresetGraph (fun _ => silentClip) silentClip
                                      (buildDSPForPreset deharsh) false
                                      preOutput 0)))
  /\ premiumTrimDb (fun _ => silentClip) silentClip deharsh false = 12.
Proof.
  assert (H1 : allZero (renderPresetGraph (fun _ => silentClip) silentClip
                          (buildDSPForPreset deharsh) false preOutput 0))
    by (intros c i _ _; reflexivity).
  assert (H2 : allZero ((fun _ : OfflineAudioContext => silentClip)
                          (kWeightingContext
                             (renderPresetGraph (fun _ => silentClip)
                                silentClip (buildDSPForPreset deharsh) false
                                preOutput 0))))
    by (intros c i _ _; reflexivity).
  split; [exact H1 | split; [exact H2 |]].
  exact (silent_render_gets_maximum_trim (fun _ => silentClip) silentClip
           deharsh false H1 H2).
Defined.
